(** * Verification of the scheduled-summary core of baja-bot

    Shallow embedding of the Python sources [utils.py], [schedule_manager.py],
    [summarizer.py], [schedule_storage.py] and [init_db.py].

    Python [str] values are modelled as [list ascii], each [ascii] read as a
    Latin-1 code point; lengths are code-point counts as in Python. *)

From Stdlib Require Import Ascii String.
From Stdlib Require Import ZArith Lia List Bool.
From Stdlib Require Import Sorting.Permutation Sorting.Sorted Numbers.DecimalString.
Import ListNotations.
Open Scope Z_scope.

(** ** Python string primitives *)
Module PyStr.

Definition str := list ascii.

(** Literal helper: [lit "abc"] is the Python literal ["abc"]. *)
Definition lit (s : string) : str := list_ascii_of_string s.

Definition NL : ascii := ascii_of_nat 10.

(** [str.isspace] on a Latin-1 code point: \t \n \x0b \x0c \r, \x1c-\x1f,
    the space, \x85 and \xa0. *)
Definition py_isspace (c : ascii) : bool :=
  let n := nat_of_ascii c in
  ((9 <=? n) && (n <=? 13))%nat || ((28 <=? n) && (n <=? 32))%nat
  || (n =? 133)%nat || (n =? 160)%nat.

(** [str.lstrip()] *)
Fixpoint lstrip (s : str) : str :=
  match s with
  | [] => []
  | c :: r => if py_isspace c then lstrip r else s
  end.

(** [str.rstrip()] *)
Definition rstrip (s : str) : str := rev (lstrip (rev s)).

(** [str.strip()] *)
Definition strip (s : str) : str := rstrip (lstrip s).

(** Normalisation of a slice bound [k] against a sequence of length [n]:
    negative bounds count from the end, then the bound is clamped to [0, n]. *)
Definition py_index (k : Z) (n : nat) : nat :=
  if k <? 0 then Z.to_nat (Z.max 0 (Z.of_nat n + k))
  else Nat.min (Z.to_nat k) n.

(** [s[:k]] and [s[k:]] *)
Definition slice_to (s : str) (k : Z) : str := firstn (py_index k (length s)) s.
Definition slice_from (s : str) (k : Z) : str := skipn (py_index k (length s)) s.

Fixpoint is_prefix (p s : str) : bool :=
  match p, s with
  | [], _ => true
  | a :: p', b :: s' => Ascii.eqb a b && is_prefix p' s'
  | _ :: _, [] => false
  end.

(** Highest index [j <= i] at which [sub] occurs in [text]. *)
Fixpoint rfind_down (sub text : str) (i : nat) : option nat :=
  if is_prefix sub (skipn i text) then Some i
  else match i with
       | O => None
       | S j => rfind_down sub text j
       end.

(** [text.rfind(sub, 0, end)] for a non-empty [sub]: the highest [i] with
    [i + len(sub) <= end] (end normalised as a slice bound) at which [sub]
    occurs, or [-1]. *)
Definition rfind (sub text : str) (end_ : Z) : Z :=
  let e := py_index end_ (length text) in
  if (length sub <=? e)%nat then
    match rfind_down sub text (e - length sub) with
    | Some i => Z.of_nat i
    | None => -1
    end
  else -1.

(** [sub in s]: some suffix of [s] (the empty one included) starts with
    [sub]. *)
Fixpoint occursb (sub s : str) : bool :=
  is_prefix sub s || match s with [] => false | _ :: t => occursb sub t end.

End PyStr.

(** ** Message Chunker ([schedule_manager.py], [build_summary_messages],
    [take_text_chunk]) *)
Module Chunker.
Import PyStr.

Definition PARA : str := [NL; NL].
Definition LINE : str := [NL].

(** [take_text_chunk(text, max_len)] *)
Definition take_text_chunk (text : str) (max_len : Z) : str * str :=
  if Z.of_nat (length text) <=? max_len then (text, [])
  else
    let split_at :=
      let a := rfind PARA text max_len in
      if a =? -1 then
        let b := rfind LINE text max_len in
        if b =? -1 then max_len else b
      else a in
    (rstrip (slice_to text split_at), lstrip (slice_from text split_at)).

Definition cont_prefix : str := lit "Summary (continued):" ++ [NL; NL].

(** The [while remaining:] loop of [build_summary_messages]; [fuel] bounds
    the number of iterations, [None] means the bound was exhausted. *)
Fixpoint cont_loop (fuel : nat) (remaining : str) (cont_max : Z)
  : option (list str) :=
  match remaining with
  | [] => Some []
  | _ :: _ =>
      match fuel with
      | O => None
      | S f =>
          let (chunk, rem) := take_text_chunk remaining cont_max in
          option_map (cons (cont_prefix ++ chunk)) (cont_loop f rem cont_max)
      end
  end.

Definition build_summary_messages_fuel (fuel : nat) (header summary : str)
    (max_len : Z) : option (list str) :=
  let header := strip header in
  let summary := strip summary in
  let first_prefix := header ++ [NL; NL] in
  let first_max := max_len - Z.of_nat (length first_prefix) in
  if first_max <=? 0 then Some [slice_to header max_len]
  else
    let (first_chunk, remaining) := take_text_chunk summary first_max in
    let cont_max := max_len - Z.of_nat (length cont_prefix) in
    option_map (cons (first_prefix ++ first_chunk))
      (cont_loop fuel remaining cont_max).

(** [build_summary_messages(header, summary, max_len)], run for at most
    [len(summary) + 1] loop iterations. *)
Definition build_summary_messages (header summary : str) (max_len : Z)
  : option (list str) :=
  build_summary_messages_fuel (S (length summary)) header summary max_len.

End Chunker.
(** ** Duration Parser ([utils.py], [parse_duration]) *)
Module Duration.
Import PyStr.

(** [str.lower()] on Latin-1 code points. *)
Definition lower_char (c : ascii) : ascii :=
  let n := nat_of_ascii c in
  if ((65 <=? n) && (n <=? 90))%nat || ((192 <=? n) && (n <=? 222) && negb (n =? 215))%nat
  then ascii_of_nat (n + 32) else c.

Definition lower (s : str) : str := map lower_char s.

(** [\d] (the only decimal digits among Latin-1 code points are 0-9). *)
Definition is_digit (c : ascii) : bool :=
  let n := nat_of_ascii c in ((48 <=? n) && (n <=? 57))%nat.

(** Longest digit prefix and the rest. *)
Fixpoint span_digits (s : str) : str * str :=
  match s with
  | c :: r => if is_digit c then let (d, t) := span_digits r in (c :: d, t) else ([], s)
  | [] => ([], [])
  end.

(** [int(digits)] *)
Definition digits_value (ds : str) : Z :=
  fold_left (fun acc c => acc * 10 + (Z.of_nat (nat_of_ascii c) - 48)) ds 0.

(** A [timedelta] is modelled by its total length in seconds; constructing
    one whose day count exceeds [timedelta.max.days = 999999999] raises
    [OverflowError]. *)
Inductive timedelta_result :=
| Td (seconds : Z)
| Overflow
| IntDigitsLimit.   (* [int()] raised [ValueError]: too many digits *)

Definition timedelta_max_days : Z := 999999999.

Definition mk_timedelta (seconds : Z) : timedelta_result :=
  if seconds / 86400 <=? timedelta_max_days then Td seconds else Overflow.

Definition SEC_MINUTE : Z := 60.
Definition SEC_HOUR : Z := 3600.
Definition SEC_DAY : Z := 86400.

(** Units of the pattern, with the text that spells them and their length
    in seconds (a month counts as 30 days). *)
Inductive unit_kind := UMin | UHour | UDay | UWeek | UMonth.

Definition unit_str (u : unit_kind) : str :=
  match u with
  | UMin => ["m"%char] | UHour => ["h"%char] | UDay => ["d"%char]
  | UWeek => ["w"%char] | UMonth => ["m"%char; "o"%char]
  end.

Definition unit_seconds (u : unit_kind) : Z :=
  match u with
  | UMin => SEC_MINUTE | UHour => SEC_HOUR | UDay => SEC_DAY
  | UWeek => 7 * SEC_DAY | UMonth => 30 * SEC_DAY
  end.

(** The group [(mo|[mhdw])] of the pattern, matched at the start of [rest]:
    the alternative ["mo"] is tried first. *)
Definition match_unit (rest : str) : option unit_kind :=
  if is_prefix (lit "mo") rest then Some UMonth
  else match rest with
       | c :: _ =>
           if Ascii.eqb c "m"%char then Some UMin
           else if Ascii.eqb c "h"%char then Some UHour
           else if Ascii.eqb c "d"%char then Some UDay
           else if Ascii.eqb c "w"%char then Some UWeek
           else None
       | [] => None
       end.

(** CPython's limit on the digits [int(str)] converts
    ([sys.get_int_max_str_digits()], 4300 by default since 3.11): a longer
    digit string, leading zeros included, raises [ValueError]. *)
Definition int_max_str_digits : nat := 4300.

(** [parse_duration(duration_str)]: [re.match(r"(\d+)(mo|[mhdw])", s.lower())]
    anchors the pattern at the start of the string only; [\d+] is greedy
    (backtracking into it cannot help, a digit is never a unit letter).  On
    no match the result is [timedelta()], i.e. [Td 0]; otherwise
    [int(match.group(1))] raises on more than [int_max_str_digits] digits,
    and the [if unit == ...] chain builds
    [timedelta(minutes|hours|days|weeks=amount)] or
    [timedelta(days=amount * 30)]. *)
Definition parse_duration (duration_str : str) : timedelta_result :=
  let s := lower duration_str in
  let (ds, rest) := span_digits s in
  match ds with
  | [] => Td 0
  | _ :: _ =>
      match match_unit rest with
      | None => Td 0
      | Some u =>
          if (int_max_str_digits <? length ds)%nat then IntDigitsLimit
          else
            let amount := digits_value ds in
            mk_timedelta (amount * unit_seconds u)
      end
  end.

End Duration.

(** ** Chat-platform objects and the History Fetcher
    ([schedule_manager.py], [fetch_messages_with_threads]) *)
Module Fetcher.
Import PyStr.

(** Timestamps are UTC instants in seconds. *)
Record Message := mkMessage {
  msg_id : Z;
  created_at : Z;
  author_bot : bool;
  content : str;
  msg_channel_id : Z
}.

(** An asynchronous iterator of the platform: it yields [items]; when
    [fails_after = Some k] it raises after yielding its first [k] items. *)
Record Stream (A : Type) := mkStream {
  items : list A;
  fails_after : option nat
}.
Arguments mkStream {A} _ _.
Arguments items {A} _.
Arguments fails_after {A} _.

(** What the loop [async for x in stream: ...] sees before it stops,
    and whether the stream raised. *)
Definition yielded {A} (s : Stream A) : list A :=
  match fails_after s with
  | None => items s
  | Some k => firstn k (items s)
  end.

Definition raised {A} (s : Stream A) : bool :=
  match fails_after s with
  | None => false
  | Some k => (k <? length (items s))%nat
  end.

(** A thread: [th_history] is its whole message history, oldest first;
    [th_history_fails] says after how many yielded messages a [history()]
    call on it raises, if it does. *)
Record Thread := mkThread {
  th_id : Z;
  th_name : str;
  th_history : list Message;
  th_history_fails : option nat
}.

(** A text channel with its open threads ([channel.threads]) and the two
    archived-thread listings. *)
Record Channel := mkChannel {
  ch_id : Z;
  ch_name : str;
  ch_history : list Message;
  ch_history_fails : option nat;
  ch_threads : list Thread;
  ch_archived_public : Stream Thread;
  ch_archived_private : Stream Thread
}.

(** [x.history(limit=limit, after=cutoff, oldest_first=True)] over a history
    kept oldest first: the oldest [limit] messages created after [cutoff]
    (discord.py turns the [after] datetime into the highest snowflake of
    that instant, so the bound is exclusive). *)
Definition history_after (hist : list Message) (limit : nat) (cutoff : Z)
  : list Message :=
  firstn limit (filter (fun m => cutoff <? created_at m) hist).

Definition history_stream (hist : list Message) (fails : option nat)
    (limit : nat) (cutoff : Z) : Stream Message :=
  mkStream (history_after hist limit cutoff) fails.

(** The [thread_ids] / [threads] collection step: append the threads of
    [ts] whose id has not been seen. *)
Fixpoint collect_threads (seen : list Z) (acc : list Thread) (ts : list Thread)
  : list Z * list Thread :=
  match ts with
  | [] => (seen, acc)
  | t :: r =>
      if existsb (Z.eqb (th_id t)) seen then collect_threads seen acc r
      else collect_threads (th_id t :: seen) (acc ++ [t]) r
  end.

(** The deduplicated thread list: open threads, then the public and the
    private archived listings (a raising listing contributes what it
    yielded; the exception is logged and swallowed). *)
Definition discovered_threads (ch : Channel) : list Thread :=
  let '(seen, ts) := collect_threads [] [] (ch_threads ch) in
  let '(seen, ts) := collect_threads seen ts (yielded (ch_archived_public ch)) in
  snd (collect_threads seen ts (yielded (ch_archived_private ch))).

(** Messages a thread's [history()] loop appends before stopping. *)
Definition thread_messages (limit : nat) (cutoff : Z) (t : Thread) : list Message :=
  yielded (history_stream (th_history t) (th_history_fails t) limit cutoff).

(** [messages.sort(key=lambda msg: msg.created_at)]: a stable sort. *)
Fixpoint insert_by_created (m : Message) (l : list Message) : list Message :=
  match l with
  | [] => [m]
  | x :: t => if created_at x <=? created_at m then x :: insert_by_created m t
              else m :: l
  end.

Definition sort_by_created (l : list Message) : list Message :=
  fold_left (fun acc m => insert_by_created m acc) l [].

(** [fetch_messages_with_threads(channel, cutoff_time, limit=500)]; [None]
    is the exception raised by the channel's own [history()] call, which is
    not caught. *)
Definition fetch_messages_with_threads_lim (ch : Channel) (cutoff : Z) (limit : nat)
  : option (list Message) :=
  let chan := history_stream (ch_history ch) (ch_history_fails ch) limit cutoff in
  if raised chan then None
  else
    let messages := yielded chan ++
                    flat_map (thread_messages limit cutoff) (discovered_threads ch) in
    Some (sort_by_created messages).

Definition fetch_messages_with_threads (ch : Channel) (cutoff : Z)
  : option (list Message) :=
  fetch_messages_with_threads_lim ch cutoff 500.

End Fetcher.

(** ** Summarization entry points ([summarizer.py], [Summarizer.get_summary],
    [Summarizer.get_sectioned_summary]) *)
Module Summarizer.
Import PyStr Fetcher.

(** Items of the content payload sent to the model. *)
Inductive content_item :=
| TextItem (text : str)
| ImageItem (url : str).

(** The two system instructions used by the summarization calls. *)
Inductive instruction := FlatSummaryInstruction | SectionedSummaryInstruction.

Section Summarizer.

(** [ai_client.call_llm(system_instruction, user_content)], an opaque text
    generator; [None] is a [None] message content. *)
Variable call_llm : instruction -> list content_item -> option str.

(** The transcript builders ([build_transcript_with_images] and the
    transcript loop of [get_sectioned_summary]); their output format is not
    relevant here. *)
Variable build_transcript_with_images : list Message -> list content_item.
Variable build_sectioned_transcript : list (str * list Message) -> list content_item.

(** [if summary:] *)
Definition truthy (s : option str) : option str :=
  match s with
  | Some (_ :: _) => s
  | _ => None
  end.

(** [if len(summary) > 2000: summary = summary[:1997] + "..."] *)
Definition cap_2000 (summary : str) : str :=
  if (2000 <? length summary)%nat then firstn 1997 summary ++ lit "..." else summary.

Definition get_summary (messages : list Message) : str :=
  let transcript_content := build_transcript_with_images messages in
  match transcript_content with
  | [] => lit "Not enough content to summarize."
  | _ :: _ =>
      match truthy (call_llm FlatSummaryInstruction transcript_content) with
      | Some summary => lit "**Thread Summary:**" ++ [NL] ++ cap_2000 summary
      | None => lit "Failed to generate a summary."
      end
  end.

Definition get_sectioned_summary (channel_messages_dict : list (str * list Message)) : str :=
  match channel_messages_dict with
  | [] => lit "Not enough content to summarize."
  | _ :: _ =>
      let user_content := build_sectioned_transcript channel_messages_dict in
      match user_content with
      | [] => lit "Not enough content to summarize."
      | _ :: _ =>
          match truthy (call_llm SectionedSummaryInstruction user_content) with
          | Some summary => cap_2000 summary
          | None => lit "Failed to generate a summary."
          end
      end
  end.

End Summarizer.
End Summarizer.

(** ** Schedule Store ([schedule_storage.py] over the table of [init_db.py]) *)
Module Store.
Import PyStr.

(** A row of [scheduled_summaries]; [start_time] is a TIME as seconds since
    midnight, timestamps are seconds. *)
Record Row := mkRow {
  id : Z;
  guild_id : Z;
  channel_ids : list Z;
  target_name : str;
  schedule_type : str;
  output_channel_id : Z;
  start_time : Z;
  interval_hours : Z;
  lookback_duration : str;
  days_of_week : option (list Z);
  row_created_at : Z;
  created_by_user_id : Z;
  active : bool;
  last_run : option Z
}.

(** The table's rows, in insertion order, and the [SERIAL] sequence of
    [id] (its last value). *)
Record Table := mkTable {
  rows : list Row;
  id_seq : Z
}.

(** The arguments of [add_schedule]. *)
Record ScheduleFields := mkFields {
  f_guild_id : Z;
  f_channel_ids : list Z;
  f_target_name : str;
  f_schedule_type : str;
  f_output_channel_id : Z;
  f_start_time : Z;
  f_interval_hours : Z;
  f_lookback_duration : str;
  f_created_by_user_id : Z
}.

(** Errors the database raises through psycopg2 on an INSERT. *)
Inductive db_error :=
| NulCharacter                         (* psycopg2's [ValueError] for a NUL in a string *)
| StringTooLong (column : str)         (* value too long for character varying(n) *)
| NumericOutOfRange (column : str)     (* integer / bigint out of range *)
| CheckViolation (constraint : str).

Inductive db_result (A : Type) :=
| Ok (a : A)
| Error (e : db_error).
Arguments Ok {A} _.
Arguments Error {A} _.

Definition in_bigint (z : Z) : bool := (- 2 ^ 63 <=? z) && (z <? 2 ^ 63).
Definition in_integer (z : Z) : bool := (- 2 ^ 31 <=? z) && (z <? 2 ^ 31).

(** psycopg2 refuses to quote a string holding a NUL character: the query
    is never sent. *)
Definition has_nul (s : str) : bool := existsb (fun c => Ascii.eqb c "000"%char) s.

(** The assignment of a string to a [character varying(n)] column: a longer
    value is an error, unless every character past the [n]-th is a space,
    in which case it is cut to [n] characters. *)
Definition varchar_coerce (n : nat) (s : str) : option str :=
  if (length s <=? n)%nat then Some s
  else if forallb (fun c => Ascii.eqb c " "%char) (skipn n s) then Some (firstn n s)
  else None.

Fixpoint str_eqb (a b : str) : bool :=
  match a, b with
  | [], [] => true
  | x :: a', y :: b' => Ascii.eqb x y && str_eqb a' b'
  | _, _ => false
  end.

(** [CONSTRAINT valid_schedule_type CHECK (schedule_type IN ('channel', 'category'))] *)
Definition valid_schedule_type (kind : str) : bool :=
  str_eqb kind (lit "channel") || str_eqb kind (lit "category").

(** [CONSTRAINT valid_interval CHECK (interval_hours > 0)] *)
Definition valid_interval (hours : Z) : bool := 0 <? hours.

(** Conversion of each supplied value to its column type, in column order,
    giving the values stored. *)
Definition coerce_columns (f : ScheduleFields) : db_result ScheduleFields :=
  if negb (in_bigint (f_guild_id f)) then Error (NumericOutOfRange (lit "guild_id"))
  else if negb (forallb in_bigint (f_channel_ids f)) then Error (NumericOutOfRange (lit "channel_ids"))
  else match varchar_coerce 255 (f_target_name f) with
  | None => Error (StringTooLong (lit "target_name"))
  | Some target_name =>
  match varchar_coerce 20 (f_schedule_type f) with
  | None => Error (StringTooLong (lit "schedule_type"))
  | Some schedule_type =>
  if negb (in_bigint (f_output_channel_id f)) then Error (NumericOutOfRange (lit "output_channel_id"))
  else if negb (in_integer (f_interval_hours f)) then Error (NumericOutOfRange (lit "interval_hours"))
  else match varchar_coerce 20 (f_lookback_duration f) with
  | None => Error (StringTooLong (lit "lookback_duration"))
  | Some lookback_duration =>
  if negb (in_bigint (f_created_by_user_id f)) then Error (NumericOutOfRange (lit "created_by_user_id"))
  else Ok (mkFields (f_guild_id f) (f_channel_ids f) target_name schedule_type
             (f_output_channel_id f) (f_start_time f) (f_interval_hours f)
             lookback_duration (f_created_by_user_id f))
  end end end.

(** CHECK constraints, evaluated in constraint-name order as PostgreSQL
    does. *)
Definition check_constraints (f : ScheduleFields) : option db_error :=
  if negb (valid_interval (f_interval_hours f)) then Some (CheckViolation (lit "valid_interval"))
  else if negb (valid_schedule_type (f_schedule_type f)) then Some (CheckViolation (lit "valid_schedule_type"))
  else None.

(** [add_schedule(...)]: [INSERT ... RETURNING id] in its own transaction.
    psycopg2 quotes the string arguments first (a NUL refuses the query);
    the literals are converted to the column types while the statement is
    analysed and planned, before it runs; running it draws the [id] default
    [nextval], which is not given back when a CHECK constraint then fails.
    The omitted columns take their defaults: [days_of_week = NULL],
    [created_at = NOW()], [active = TRUE], [last_run = NULL]. *)
Definition add_schedule (t : Table) (f : ScheduleFields) (now : Z)
  : Table * db_result Z :=
  if has_nul (f_target_name f) || has_nul (f_schedule_type f) ||
     has_nul (f_lookback_duration f)
  then (t, Error NulCharacter)
  else
  match coerce_columns f with
  | Error e => (t, Error e)
  | Ok g =>
      let new_id := id_seq t + 1 in
      let t_seq := mkTable (rows t) new_id in
      match check_constraints g with
      | Some e => (t_seq, Error e)
      | None =>
          let row := mkRow new_id (f_guild_id g) (f_channel_ids g) (f_target_name g)
                       (f_schedule_type g) (f_output_channel_id g) (f_start_time g)
                       (f_interval_hours g) (f_lookback_duration g) None now
                       (f_created_by_user_id g) true None in
          (mkTable (rows t ++ [row]) new_id, Ok new_id)
      end
  end.

(** [if guild_id:] *)
Definition guild_filter (guild : option Z) : option Z :=
  match guild with
  | Some g => if g =? 0 then None else Some g
  | None => None
  end.

Definition start_le (a b : Row) : Prop := start_time a <= start_time b.

Definition guild_start_le (a b : Row) : Prop :=
  guild_id a < guild_id b \/ (guild_id a = guild_id b /\ start_time a <= start_time b).

(** [get_all_active_schedules(guild_id)]: the rows the SELECT may return.
    SQL fixes the set of rows and the ORDER BY key, not the order among
    rows with equal keys, so the result is specified as a relation:
    [WHERE active = TRUE AND guild_id = %s ORDER BY start_time] when the
    guild id is truthy, [WHERE active = TRUE ORDER BY guild_id, start_time]
    otherwise. *)
Definition get_all_active_schedules (rs : list Row) (guild : option Z)
    (res : list Row) : Prop :=
  match guild_filter guild with
  | Some g =>
      Permutation res (filter (fun r => active r && (guild_id r =? g)) rs) /\
      Sorted start_le res
  | None =>
      Permutation res (filter active rs) /\ Sorted guild_start_le res
  end.

End Store.

(** ** Concrete inputs used by witnesses and counterexamples *)
Module Samples.
Import PyStr Fetcher.

Definition msg_at (t chan : Z) : Message := mkMessage t t false (lit "x") chan.

(** A channel with two messages, one open thread and a private archived
    listing that raises at once. *)
Definition ch_small : Channel :=
  mkChannel 1 (lit "general") [msg_at 5 1; msg_at 20 1] None
    [mkThread 2 (lit "t") [msg_at 10 2; msg_at 30 2] None]
    (mkStream [] None) (mkStream [mkThread 3 (lit "p") [] None] (Some 0%nat)).

(** A channel with 501 messages, at times 1..501. *)
Definition ch_big : Channel :=
  mkChannel 1 (lit "big") (map (fun i => msg_at (Z.of_nat i) 1) (seq 1 501)) None
    [] (mkStream [] None) (mkStream [] None).


(** A schedule row of guild [g] starting at [h]:00, inserted as the
    [i]-th row. *)
Definition row_at (i g h : Z) : Store.Row :=
  Store.mkRow i g [10] (lit "general") (lit "channel") 20 (h * 3600) 24 (lit "24h")
    None 0 7 true None.

End Samples.

(** ** First-fire wait ([schedule_manager.py], [wait_until_start_time]) *)
Module Wait.

(** A pytz time zone: the UTC offset (seconds) in force at a UTC instant,
    as [datetime.now(tz)] uses it, and the offset [tz.localize] gives a
    naive local wall-clock time (with its default [is_dst=False]). *)
Record Tz := mkTz {
  utc_offset_at : Z -> Z;
  localize_offset : Z -> Z
}.

(** An aware datetime: local wall-clock seconds and the fixed UTC offset
    of its [tzinfo]. *)
Record Aware := mkAware {
  wall : Z;
  offset : Z
}.

Definition instant (d : Aware) : Z := wall d - offset d.

Definition SEC_DAY : Z := 86400.

(** [datetime.now(tz)] at UTC instant [now_utc]. *)
Definition datetime_now (tz : Tz) (now_utc : Z) : Aware :=
  let off := utc_offset_at tz now_utc in mkAware (now_utc + off) off.

(** [tz.localize(datetime.combine(now.date(), start_time))] *)
Definition localize_today (tz : Tz) (now : Aware) (start_time : Z) : Aware :=
  let naive := (wall now / SEC_DAY) * SEC_DAY + start_time in
  mkAware naive (localize_offset tz naive).

(** [target + timedelta(days=1)] on a pytz datetime: the wall clock moves,
    the [tzinfo] (hence the offset) stays as it was. *)
Definition add_days (d : Aware) (n : Z) : Aware := mkAware (wall d + n * SEC_DAY) (offset d).

(** [wait_until_start_time(start_time, timezone_str)] run at UTC instant
    [now_utc]: the UTC instant [discord.utils.sleep_until(target)] sleeps
    until. *)
Definition wait_until_start_time (start_time : Z) (tz : Tz) (now_utc : Z) : Z :=
  let now := datetime_now tz now_utc in
  let target := localize_today tz now start_time in
  let target := if instant target <=? instant now then add_days target 1 else target in
  instant target.

(** The instant the first fire is meant to target: today's occurrence of
    [start_time] in [tz] if it is still ahead, otherwise tomorrow's
    occurrence, each localized on its own day. *)
Definition spec_next_start_instant (start_time : Z) (tz : Tz) (now_utc : Z) : Z :=
  let now := datetime_now tz now_utc in
  let today := localize_today tz now start_time in
  if instant today <=? now_utc then
    let naive := wall today + SEC_DAY in naive - localize_offset tz naive
  else instant today.

(** UTC offsets of America/New_York around its 2024-03-10 change from EST
    (UTC-5) to EDT (UTC-4), at 07:00 UTC = 02:00 EST; the wall-clock hour
    02:00-03:00 does not exist that day and [localize] gives it the EST
    offset.  Other transitions are not modelled. *)
Definition new_york_2024_spring : Tz :=
  mkTz (fun u => if u <? 1710054000 then -18000 else -14400)
       (fun w => if w <? 1710039600 then -18000 else -14400).

End Wait.

(** ** One scheduled run ([schedule_manager.py], [run_scheduled_summary],
    [run_channel_summary], [run_category_summary]) *)
Module Runtime.
Import PyStr Fetcher Summarizer Store.

(** Observable effects of a run. *)
Inductive event :=
| Sent (channel : Z) (text : str)        (* [output_channel.send(text)] *)
| SummaryRequested                       (* a Summarizer entry point was called *)
| LastRunUpdated (schedule_id : Z).      (* [storage.update_last_run(id)] *)

(** Effects with exceptions: a computation extends the trace and either
    returns ([Some]) or raises ([None]). *)
Definition M (A : Type) : Type := list event -> option A * list event.

Definition ret {A} (a : A) : M A := fun tr => (Some a, tr).
Definition raise {A} : M A := fun tr => (None, tr).
Definition bind {A B} (m : M A) (k : A -> M B) : M B :=
  fun tr => match m tr with
            | (Some a, tr') => k a tr'
            | (None, tr') => (None, tr')
            end.
Definition emit (e : event) : M unit := fun tr => (Some tt, tr ++ [e]).

Notation "x <- m ;; k" := (bind m (fun x => k)) (at level 61, m at next level, right associativity).
Notation "m ;;; k" := (bind m (fun _ => k)) (at level 61, right associativity).

(** [try: body except Exception: log]: the exception is swallowed. *)
Definition try_except (m : M unit) : M unit :=
  fun tr => match m tr with
            | (Some _, tr') => (Some tt, tr')
            | (None, tr') => (Some tt, tr')
            end.

Definition lift_option {A} (o : option A) : M A :=
  match o with Some a => ret a | None => raise end.

(** The bot's view of the platform and of its collaborators. *)
Record Env := mkEnv {
  env_guilds : list (Z * list Channel);          (* [bot.get_guild], [guild.get_channel] *)
  env_now : Z;                                   (* [datetime.now(pytz.utc)] *)
  env_send_ok : Z -> bool;                       (* whether a send to a channel succeeds *)
  env_db_ok : bool;                              (* whether the store's UPDATE succeeds *)
  env_llm : instruction -> list content_item -> option str;
  env_llm_raises : instruction -> list content_item -> bool;
                                                 (* whether [ai_client.call_llm] raises *)
  env_build_flat : list Message -> list content_item;
  env_build_sectioned : list (str * list Message) -> list content_item
}.

Definition get_guild (env : Env) (gid : Z) : option (list Channel) :=
  option_map snd (find (fun p => Z.eqb (fst p) gid) (env_guilds env)).

Definition get_channel (guild : list Channel) (cid : Z) : option Channel :=
  find (fun c => Z.eqb (ch_id c) cid) guild.

Definition send (env : Env) (chan : Channel) (text : str) : M unit :=
  if env_send_ok env (ch_id chan) then emit (Sent (ch_id chan) text) else raise.

Definition z_str (z : Z) : str := lit (NilEmpty.string_of_int (Z.to_int z)).

(** [channel.mention] *)
Definition mention (c : Channel) : str := lit "<#" ++ z_str (ch_id c) ++ lit ">".

(** [build_summary_messages(header, summary)] with its default
    [max_len=2000]; the loop bound always suffices there
    ([build_summary_messages_terminates]). *)
Definition summary_messages (header summary : str) : list str :=
  match Chunker.build_summary_messages header summary 2000 with
  | Some l => l
  | None => []
  end.

Fixpoint send_all (env : Env) (chan : Channel) (msgs : list str) : M unit :=
  match msgs with
  | [] => ret tt
  | m :: r => send env chan m ;;; send_all env chan r
  end.

Definition fetch (ch : Channel) (cutoff : Z) : M (list Message) :=
  lift_option (fetch_messages_with_threads ch cutoff).

(** [await self.ai_client.call_llm(...)] inside a Summarizer entry point:
    the exception of a raising call propagates. *)
Definition llm_call (env : Env) (instr : instruction) (content : list content_item) : M unit :=
  if env_llm_raises env instr content then raise else ret tt.

(** [await summarizer.get_summary(messages)]: the model is called only on a
    nonempty transcript. *)
Definition get_summary_m (env : Env) (messages : list Message) : M str :=
  match env_build_flat env messages with
  | [] => ret tt
  | content => llm_call env FlatSummaryInstruction content
  end ;;;
  ret (get_summary (env_llm env) (env_build_flat env) messages).

(** [await summarizer.get_sectioned_summary(channel_messages)]: the model is
    called only on a nonempty dictionary with a nonempty transcript. *)
Definition get_sectioned_summary_m (env : Env) (d : list (str * list Message)) : M str :=
  match d with
  | [] => ret tt
  | _ :: _ =>
      match env_build_sectioned env d with
      | [] => ret tt
      | content => llm_call env SectionedSummaryInstruction content
      end
  end ;;;
  ret (get_sectioned_summary (env_llm env) (env_build_sectioned env) d).

Definition run_channel_summary (env : Env) (guild : list Channel) (channel_id : Z)
    (cutoff : Z) (output_channel : Channel) (channel_name lookback : str) : M unit :=
  match get_channel guild channel_id with
  | None =>
      (* the warning text starts with a warning-sign emoji, outside the
         Latin-1 strings of this model and left out here *)
      send env output_channel
        (lit "Could not find channel for scheduled summary: " ++ channel_name)
  | Some channel =>
      messages <- fetch channel cutoff ;;
      match messages with
      | [] => ret tt
      | _ :: _ =>
          emit SummaryRequested ;;;
          summary <- get_summary_m env messages ;;
          let header := lit "**Scheduled Summary: " ++ mention channel ++
                        lit "** (Last " ++ lookback ++ lit ")" in
          send_all env output_channel (summary_messages header summary)
      end
  end.

(** [channel_messages[name] = messages] on a Python dict kept as an
    association list in insertion order. *)
Fixpoint dict_set (d : list (str * list Message)) (k : str) (v : list Message)
  : list (str * list Message) :=
  match d with
  | [] => [(k, v)]
  | (k', v') :: r => if str_eqb k k' then (k, v) :: r else (k', v') :: dict_set r k v
  end.

Fixpoint collect_category (guild : list Channel) (cutoff : Z) (ids : list Z)
    (acc : list (str * list Message)) : M (list (str * list Message)) :=
  match ids with
  | [] => ret acc
  | cid :: r =>
      match get_channel guild cid with
      | None => collect_category guild cutoff r acc
      | Some channel =>
          messages <- fetch channel cutoff ;;
          match messages with
          | [] => collect_category guild cutoff r acc
          | _ :: _ => collect_category guild cutoff r (dict_set acc (ch_name channel) messages)
          end
      end
  end.

Definition run_category_summary (env : Env) (guild : list Channel) (channel_ids : list Z)
    (cutoff : Z) (output_channel : Channel) (category_name lookback : str) : M unit :=
  channel_messages <- collect_category guild cutoff channel_ids [] ;;
  match channel_messages with
  | [] => ret tt
  | _ :: _ =>
      emit SummaryRequested ;;;
      summary <- get_sectioned_summary_m env channel_messages ;;
      let header := lit "**Scheduled Summary: Category '" ++ category_name ++
                    lit "'** (Last " ++ lookback ++ lit ")" in
      send_all env output_channel (summary_messages header summary)
  end.

(** [datetime.min] (0001-01-01 00:00 UTC) in Unix seconds. *)
Definition datetime_min_unix : Z := -62135596800.

(** [datetime.now(pytz.utc) - delta]: a result before [datetime.min] raises
    [OverflowError].  [env_now] is the current instant rounded down to the
    second, which decides the comparison for a whole-second [delta]. *)
Definition sub_timedelta (now delta : Z) : M Z :=
  if datetime_min_unix <=? now - delta then ret (now - delta) else raise.

(** The body of [run_scheduled_summary(schedule, ...)], inside its [try].
    [channel_ids[0]] raises [IndexError] on an empty list; an out-of-range
    lookback raises [OverflowError], an over-long digit string in it
    [ValueError]. *)
Definition run_scheduled_summary_body (env : Env) (schedule : Row) : M unit :=
  match get_guild env (guild_id schedule) with
  | None => ret tt
  | Some guild =>
      match get_channel guild (output_channel_id schedule) with
      | None => ret tt
      | Some output_channel =>
          match Duration.parse_duration (lookback_duration schedule) with
          | Duration.Overflow => raise
          | Duration.IntDigitsLimit => raise
          | Duration.Td delta =>
              if delta =? 0 then ret tt
              else
                cutoff <- sub_timedelta (env_now env) delta ;;
                (if str_eqb (schedule_type schedule) (lit "channel") then
                   first <- lift_option (hd_error (channel_ids schedule)) ;;
                   run_channel_summary env guild first cutoff output_channel
                     (target_name schedule) (lookback_duration schedule)
                 else if str_eqb (schedule_type schedule) (lit "category") then
                   run_category_summary env guild (channel_ids schedule) cutoff
                     output_channel (target_name schedule) (lookback_duration schedule)
                 else ret tt) ;;;
                (if env_db_ok env then emit (LastRunUpdated (id schedule)) else raise)
          end
      end
  end.

(** [run_scheduled_summary(schedule, ...)]; the returned trace is what the
    run did.  The [except] at the end swallows every exception. *)
Definition run_scheduled_summary_m (env : Env) (schedule : Row) : M unit :=
  try_except (run_scheduled_summary_body env schedule).

Definition run_scheduled_summary (env : Env) (schedule : Row) : list event :=
  snd (run_scheduled_summary_m env schedule []).

End Runtime.


(** A platform with one guild (id 1) holding a source channel 10 with no
    message and an output channel 20, every send and store update
    succeeding, at UTC instant 1000000. *)
Module RuntimeSamples.
Import PyStr Fetcher Runtime.

Definition empty_channel (cid : Z) (name : str) : Channel :=
  mkChannel cid name [] None [] (mkStream [] None) (mkStream [] None).

Definition quiet_env (channels : list Channel) : Env :=
  mkEnv [(1, channels)] 1000000 (fun _ => true) true (fun _ _ => None)
    (fun _ _ => false) (fun _ => []) (fun _ => []).

Definition env_quiet_source : Env :=
  quiet_env [empty_channel 10 (lit "general"); empty_channel 20 (lit "summaries")].

Definition env_missing_source : Env :=
  quiet_env [empty_channel 20 (lit "summaries")].

End RuntimeSamples.

(** ** Helpers of [utils.py]: [parse_days_of_week],
    [is_channel_excluded_from_summary], [normalize_category_name] *)
Module Utils.
Import PyStr.

(** [s.split(sep)] with an explicit one-character separator: always at
    least one part, empty parts kept. *)
Fixpoint split_on (sep : ascii) (s : str) : list str :=
  match s with
  | [] => [[]]
  | c :: r =>
      if Ascii.eqb c sep then [] :: split_on sep r
      else match split_on sep r with
           | [] => [[c]]
           | p :: ps => (c :: p) :: ps
           end
  end.

(** [day_map] *)
Definition day_map : list (str * Z) :=
  [(lit "monday", 0); (lit "mon", 0); (lit "mo", 0);
   (lit "tuesday", 1); (lit "tue", 1); (lit "tu", 1);
   (lit "wednesday", 2); (lit "wed", 2); (lit "we", 2);
   (lit "thursday", 3); (lit "thu", 3); (lit "th", 3);
   (lit "friday", 4); (lit "fri", 4); (lit "fr", 4);
   (lit "saturday", 5); (lit "sat", 5); (lit "sa", 5);
   (lit "sunday", 6); (lit "sun", 6); (lit "su", 6)].

(** [day_map[part]] when [part in day_map] *)
Definition day_lookup (part : str) : option Z :=
  option_map snd (find (fun kv => Store.str_eqb (fst kv) part) day_map).

(** [[p.strip().lower() for p in days_str.split(',')]] *)
Definition day_parts (days_str : str) : list str :=
  map (fun p => Duration.lower (strip p)) (split_on ","%char days_str).

(** The loop over [parts]: [None] is the early [return None]. *)
Fixpoint collect_days (days : list Z) (parts : list str) : option (list Z) :=
  match parts with
  | [] => Some days
  | part :: r =>
      match day_lookup part with
      | Some day_num =>
          if existsb (Z.eqb day_num) days then collect_days days r
          else collect_days (days ++ [day_num]) r
      | None => None
      end
  end.

(** [sorted(days)] on integers. *)
Fixpoint insert_z (x : Z) (l : list Z) : list Z :=
  match l with
  | [] => [x]
  | y :: t => if x <=? y then x :: l else y :: insert_z x t
  end.

Definition sort_z (l : list Z) : list Z := fold_right insert_z [] l.

(** [parse_days_of_week(days_str)] *)
Definition parse_days_of_week (days_str : str) : option (list Z) :=
  match days_str with
  | [] => None
  | _ :: _ =>
      match collect_days [] (day_parts days_str) with
      | None => None
      | Some [] => None
      | Some days => Some (sort_z days)
      end
  end.

Definition SUMMARY_EXCLUDED_CHANNEL_PATTERNS : list str :=
  [lit "shitpost"; lit "shit-post"; lit "shitposting"; lit "meme"; lit "memes";
   lit "spam"; lit "off-topic"; lit "vent"; lit "rant"; lit "random"].

(** [is_channel_excluded_from_summary(channel_name)] *)
Definition is_channel_excluded_from_summary (channel_name : str) : bool :=
  match channel_name with
  | [] => false
  | _ :: _ =>
      let name_lower := Duration.lower channel_name in
      existsb (fun pattern => occursb pattern name_lower) SUMMARY_EXCLUDED_CHANNEL_PATTERNS
  end.

(** [\w] of a [str] pattern on a Latin-1 code point: [str.isalnum()] (the
    letters, the digits 0-9 and the numeric signs superscript 1-3 and the
    vulgar fractions) or the underscore. *)
Definition is_word (c : ascii) : bool :=
  let n := nat_of_ascii c in
  ((48 <=? n) && (n <=? 57))%nat || ((65 <=? n) && (n <=? 90))%nat
  || (n =? 95)%nat || ((97 <=? n) && (n <=? 122))%nat
  || (n =? 170)%nat || (n =? 178)%nat || (n =? 179)%nat || (n =? 181)%nat
  || (n =? 185)%nat || (n =? 186)%nat || ((188 <=? n) && (n <=? 190))%nat
  || ((192 <=? n) && (n <=? 214))%nat || ((216 <=? n) && (n <=? 246))%nat
  || ((248 <=? n) && (n <=? 255))%nat.

(** [re.sub(r"[^\w\s-]", "", name)]; [\s] is [str.isspace]. *)
Definition drop_punct (s : str) : str :=
  filter (fun c => is_word c || py_isspace c || Ascii.eqb c "-"%char) s.

(** [re.sub(r"\s+", " ", s)]; [in_ws] says a whitespace run is being
    replaced. *)
Fixpoint collapse_ws (in_ws : bool) (s : str) : str :=
  match s with
  | [] => []
  | c :: r =>
      if py_isspace c then
        if in_ws then collapse_ws true r else " "%char :: collapse_ws true r
      else c :: collapse_ws false r
  end.

(** [normalize_category_name(name)] *)
Definition normalize_category_name (name : str) : str :=
  match name with
  | [] => []
  | _ :: _ =>
      let cleaned := drop_punct name in
      let cleaned := collapse_ws false cleaned in
      Duration.lower (strip cleaned)
  end.

End Utils.

(** ** Database URL ([init_db.py], [get_database_url]; the same code in
    [ScheduleStorage.__init__]) *)
Module DbUrl.
Import PyStr.

(** [s.replace(old, new, 1)] for a non-empty [old]: the first occurrence
    is replaced. *)
Fixpoint replace_first (old new s : str) : str :=
  if is_prefix old s then new ++ skipn (length old) s
  else match s with
       | [] => []
       | c :: r => c :: replace_first old new r
       end.

Definition POSTGRES : str := lit "postgres://".
Definition POSTGRESQL : str := lit "postgresql://".

(** [get_database_url()] given [os.getenv('DATABASE_URL')]; [None] is the
    [ValueError]. *)
Definition get_database_url (database_url : option str) : option str :=
  match database_url with
  | None | Some [] => None
  | Some u =>
      if is_prefix POSTGRES u then Some (replace_first POSTGRES POSTGRESQL u)
      else Some u
  end.

End DbUrl.

(** ** Transcript builders ([summarizer.py],
    [Summarizer.build_transcript_with_images] and the transcript loop of
    [Summarizer.get_sectioned_summary]) *)
Module Transcript.
Import PyStr Summarizer.

(** A message attachment: [att.content_type] and [att.url]. *)
Record Attachment := mkAttachment {
  att_content_type : option str;
  att_url : str
}.

Definition digit (n : Z) : ascii := ascii_of_nat (48 + Z.to_nat n).

(** [created_at.strftime("%H:%M")] of a UTC instant in seconds. *)
Definition strftime_HM (t : Z) : str :=
  let s := t mod 86400 in
  let h := s / 3600 in
  let m := (s mod 3600) / 60 in
  [digit (h / 10); digit (h mod 10); ":"%char; digit (m / 10); digit (m mod 10)].

(** [str(n)] of a count. *)
Definition nat_str (n : nat) : str := lit (NilEmpty.string_of_uint (Nat.to_uint n)).

Section Builder.

(** The fields of a platform message the builders read. *)
Context {Msg : Type}.
Variable author_bot : Msg -> bool.                  (* [msg.author.bot] *)
Variable display_name : Msg -> str.                 (* [msg.author.display_name] *)
Variable msg_created_at : Msg -> Z.                 (* [msg.created_at] *)
Variable msg_content : Msg -> str.                  (* [msg.content] *)
Variable thread_of : Msg -> option (Z * str).       (* [msg.channel] if a [discord.Thread]: id, name *)
Variable attachments : Msg -> list Attachment.      (* [msg.attachments] *)

(** The loop variables. *)
Record BState := mkB {
  user_content : list content_item;
  current_text_block : str;
  last_thread_id : option Z;
  seen_images : list str
}.

(** [att.content_type and att.content_type.startswith('image/')] *)
Definition is_image (a : Attachment) : bool :=
  match att_content_type a with
  | Some ct => negb (Nat.eqb (length ct) 0) && is_prefix (lit "image/") ct
  | None => false
  end.

(** The attachment loop: the images whose URL was not seen, and the seen
    set after it. *)
Fixpoint new_images (seen : list str) (atts : list Attachment) : list Attachment * list str :=
  match atts with
  | [] => ([], seen)
  | a :: r =>
      if is_image a && negb (existsb (Store.str_eqb (att_url a)) seen) then
        let (imgs, seen') := new_images (att_url a :: seen) r in (a :: imgs, seen')
      else new_images seen r
  end.

Definition opt_z_eqb (a b : option Z) : bool :=
  match a, b with
  | Some x, Some y => Z.eqb x y
  | None, None => true
  | _, _ => false
  end.

(** One iteration of [for msg in messages:]. *)
Definition step (st : BState) (msg : Msg) : BState :=
  if author_bot msg then st
  else
    let '(cur, last) :=
      match thread_of msg with
      | Some (tid, tname) =>
          if negb (opt_z_eqb (Some tid) (last_thread_id st)) then
            (current_text_block st ++ [NL] ++ lit "[Thread: " ++ tname ++ lit "]" ++ [NL], Some tid)
          else (current_text_block st, last_thread_id st)
      | None => (current_text_block st, None)
      end in
    let msg_header := lit "[" ++ strftime_HM (msg_created_at msg) ++ lit "] " ++
                      display_name msg ++ lit ": " in
    let cur := match msg_content msg with
               | [] => cur
               | _ :: _ => cur ++ msg_header ++ msg_content msg ++ [NL]
               end in
    let (images, seen) := new_images (seen_images st) (attachments msg) in
    match images with
    | [] => mkB (user_content st) cur last seen
    | _ :: _ =>
        let count := lit "[Attached " ++ nat_str (length images) ++ lit " image(s)]" ++ [NL] in
        let cur := match msg_content msg with
                   | [] => cur ++ msg_header ++ count
                   | _ :: _ => cur ++ count
                   end in
        let '(uc, cur) := match cur with
                          | [] => (user_content st, cur)
                          | _ :: _ => (user_content st ++ [TextItem cur], [])
                          end in
        mkB (uc ++ map (fun img => ImageItem (att_url img)) images) cur last seen
    end.

(** [if current_text_block: user_content.append(...)] *)
Definition flush (st : BState) : list content_item :=
  match current_text_block st with
  | [] => user_content st
  | _ :: _ => user_content st ++ [TextItem (current_text_block st)]
  end.

(** [build_transcript_with_images(messages)] *)
Definition build_transcript_with_images (messages : list Msg) : list content_item :=
  flush (fold_left step messages (mkB [] [] None [])).

(** One iteration of [for channel_name, messages in
    channel_messages_dict.items():]. *)
Definition channel_section (st : BState) (entry : str * list Msg) : BState :=
  let (channel_name, messages) := entry in
  let st := mkB (user_content st)
              (current_text_block st ++ lit "=== CHANNEL: #" ++ channel_name ++ lit " ===" ++ [NL])
              None [] in
  let st := fold_left step messages st in
  mkB (user_content st) (current_text_block st ++ [NL]) (last_thread_id st) (seen_images st).

(** The transcript [user_content] built by [get_sectioned_summary]. *)
Definition build_sectioned_transcript (channel_messages_dict : list (str * list Msg))
  : list content_item :=
  flush (fold_left channel_section channel_messages_dict
           (mkB [] (lit "MULTI-CHANNEL CONVERSATION:" ++ [NL; NL]) None [])).

End Builder.

End Transcript.

(** ** Schedule storage operations ([schedule_storage.py]) *)
Module StoreOps.
Import PyStr Store.

(** [get_schedule(schedule_id)]: [SELECT * ... WHERE id = %s] on the
    primary key, active or not. *)
Definition get_schedule (t : Table) (schedule_id : Z) : option Row :=
  find (fun r => id r =? schedule_id) (rows t).

Definition set_active (r : Row) (b : bool) : Row :=
  mkRow (id r) (guild_id r) (channel_ids r) (target_name r) (schedule_type r)
    (output_channel_id r) (start_time r) (interval_hours r) (lookback_duration r)
    (days_of_week r) (row_created_at r) (created_by_user_id r) b (last_run r).

Definition set_last_run (r : Row) (now : Z) : Row :=
  mkRow (id r) (guild_id r) (channel_ids r) (target_name r) (schedule_type r)
    (output_channel_id r) (start_time r) (interval_hours r) (lookback_duration r)
    (days_of_week r) (row_created_at r) (created_by_user_id r) (active r) (Some now).

(** [delete_schedule(schedule_id)]: [UPDATE ... SET active = FALSE WHERE id = %s]. *)
Definition delete_schedule (t : Table) (schedule_id : Z) : Table :=
  mkTable (map (fun r => if id r =? schedule_id then set_active r false else r) (rows t))
    (id_seq t).

(** [update_last_run(schedule_id)]: [UPDATE ... SET last_run = NOW() WHERE id = %s]. *)
Definition update_last_run (t : Table) (schedule_id : Z) (now : Z) : Table :=
  mkTable (map (fun r => if id r =? schedule_id then set_last_run r now else r) (rows t))
    (id_seq t).

(** A row of [guild_settings]: [guild_id BIGINT PRIMARY KEY],
    [timezone VARCHAR(100)], [updated_at TIMESTAMP]. *)
Record Setting := mkSetting {
  s_guild_id : Z;
  s_timezone : str;
  s_updated_at : Z
}.

(** [get_guild_timezone(guild_id)]: [row[0] if row else 'America/New_York']. *)
Definition get_guild_timezone (settings : list Setting) (guild_id : Z) : str :=
  match find (fun s => s_guild_id s =? guild_id) settings with
  | Some s => s_timezone s
  | None => lit "America/New_York"
  end.

(** [INSERT ... ON CONFLICT (guild_id) DO UPDATE SET timezone = EXCLUDED.timezone,
    updated_at = NOW()] on rows with distinct keys. *)
Fixpoint upsert_setting (settings : list Setting) (guild_id : Z) (timezone : str) (now : Z)
  : list Setting :=
  match settings with
  | [] => [mkSetting guild_id timezone now]
  | s :: r =>
      if s_guild_id s =? guild_id then mkSetting guild_id timezone now :: r
      else s :: upsert_setting r guild_id timezone now
  end.

(** [set_guild_timezone(guild_id, timezone)]: psycopg2 quotes the string
    first (a NUL refuses the query), then the values are converted to the
    column types ([timezone VARCHAR(100)]) and the converted value is
    stored. *)
Definition set_guild_timezone (settings : list Setting) (guild_id : Z) (timezone : str)
    (now : Z) : db_result (list Setting) :=
  if has_nul timezone then Error NulCharacter
  else if negb (in_bigint guild_id) then Error (NumericOutOfRange (lit "guild_id"))
  else match varchar_coerce 100 timezone with
       | None => Error (StringTooLong (lit "timezone"))
       | Some tz => Ok (upsert_setting settings guild_id tz now)
       end.

End StoreOps.

(** ** Running schedule tasks ([schedule_manager.py]) *)
Module Tasks.
Import PyStr Store.

(** The module state: [active_schedule_tasks] ({schedule_id: task}), the
    tasks started and not cancelled (task number, schedule id), and the
    number of the next task [create_schedule_task] makes. *)
Record TaskState := mkTasks {
  active_schedule_tasks : list (Z * nat);
  running : list (nat * Z);
  next_task : nat
}.

Definition lookup_task (d : list (Z * nat)) (schedule_id : Z) : option nat :=
  option_map snd (find (fun kv => fst kv =? schedule_id) d).

(** [d[k] = v]: replaces the value of an existing key in place, appends a
    new key. *)
Fixpoint task_dict_set (d : list (Z * nat)) (k : Z) (v : nat) : list (Z * nat) :=
  match d with
  | [] => [(k, v)]
  | (k', v') :: r => if k' =? k then (k, v) :: r else (k', v') :: task_dict_set r k v
  end.

(** [task.start()] on a task made for [schedule_id]. *)
Definition start_task (ts : TaskState) (task : nat) (schedule_id : Z) : TaskState :=
  mkTasks (active_schedule_tasks ts) (running ts ++ [(task, schedule_id)]) (next_task ts).

(** [create_schedule_task(schedule, ...)]: a new, not yet started loop. *)
Definition create_schedule_task (ts : TaskState) : nat * TaskState :=
  (next_task ts, mkTasks (active_schedule_tasks ts) (running ts) (S (next_task ts))).

(** [start_schedule_task(schedule_id, task)] *)
Definition start_schedule_task (ts : TaskState) (schedule_id : Z) (task : nat) : TaskState :=
  let ts := mkTasks (task_dict_set (active_schedule_tasks ts) schedule_id task)
              (running ts) (next_task ts) in
  start_task ts task schedule_id.

(** [stop_schedule_task(schedule_id)]: [task.cancel()] and
    [del active_schedule_tasks[schedule_id]] when the id is a key. *)
Definition stop_schedule_task (ts : TaskState) (schedule_id : Z) : TaskState :=
  match lookup_task (active_schedule_tasks ts) schedule_id with
  | Some task =>
      mkTasks (filter (fun kv => negb (fst kv =? schedule_id)) (active_schedule_tasks ts))
        (filter (fun p => negb (Nat.eqb (fst p) task)) (running ts)) (next_task ts)
  | None => ts
  end.

(** [load_all_schedules(...)] over the rows [get_all_active_schedules()]
    returned: for each, create a task, start it, then record it. *)
Definition load_all_schedules (ts : TaskState) (schedules : list Row) : TaskState :=
  fold_left (fun ts schedule =>
               let '(task, ts) := create_schedule_task ts in
               let ts := start_task ts task (id schedule) in
               mkTasks (task_dict_set (active_schedule_tasks ts) (id schedule) task)
                 (running ts) (next_task ts))
    schedules ts.

(** The module state at import: [active_schedule_tasks = {}]. *)
Definition initial_tasks : TaskState := mkTasks [] [] 0.

(** The number of running tasks of a schedule. *)
Definition running_for (ts : TaskState) (schedule_id : Z) : nat :=
  length (filter (fun p => snd p =? schedule_id) (running ts)).

End Tasks.

(** ** The [/remove-schedule] command ([bot.py], [remove_schedule]) *)
Module RemoveCommand.
Import PyStr Store StoreOps Tasks.

(** The follow-up message sent. *)
Inductive remove_reply :=
| ScheduleNotFound                   (* "Schedule #{id} not found." *)
| OtherServer                        (* "You can only remove schedules from this server." *)
| Removed (schedule_type target_name : str).  (* "Removed schedule #{id} ({type}: {name})" *)

Definition remove_schedule (t : Table) (ts : TaskState) (guild : Z) (schedule_id : Z)
  : Table * TaskState * remove_reply :=
  match get_schedule t schedule_id with
  | None => (t, ts, ScheduleNotFound)
  | Some schedule =>
      if negb (guild_id schedule =? guild) then (t, ts, OtherServer)
      else
        let t := delete_schedule t schedule_id in
        let ts := stop_schedule_task ts schedule_id in
        (t, ts, Removed (schedule_type schedule) (target_name schedule))
  end.

End RemoveCommand.

(** ** The schedule-creating commands ([bot.py], [schedule_summary] and
    [schedule_category_summary]) *)
Module Commands.
Import PyStr Store StoreOps Tasks.

(** The digits of [int(s)] after the sign: decimal digits, with single
    underscores allowed between two digits; returns the value and the
    number of digits. *)
Fixpoint int_body (s : str) (acc : Z) (prev_digit : bool) (n : nat) : option (Z * nat) :=
  match s with
  | [] => if prev_digit then Some (acc, n) else None
  | c :: r =>
      if Duration.is_digit c then
        int_body r (acc * 10 + (Z.of_nat (nat_of_ascii c) - 48)) true (S n)
      else if Ascii.eqb c "_"%char && prev_digit then int_body r acc false n
      else None
  end.

(** [int(s)] on a string ([None] is a [ValueError]): surrounding
    whitespace is ignored, one optional sign, then the digits; a string of
    more than 4300 digits is refused (the default limit on integer string
    conversion). *)
Definition py_int (s : str) : option Z :=
  let s := strip s in
  let '(sign, body) :=
    match s with
    | c :: r =>
        if Ascii.eqb c "+"%char then (1, r)
        else if Ascii.eqb c "-"%char then (-1, r)
        else (1, s)
    | [] => (1, [])
    end in
  match int_body body 0 false 0 with
  | Some (v, n) => if (4300 <? n)%nat then None else Some (sign * v)
  | None => None
  end.

(** Outcome of the [try:] block that builds [start_time]. *)
Inductive time_result :=
| TimeOk (seconds : Z)      (* [dt_time(hour=hour, minute=minute)], as seconds since midnight *)
| TimeInvalid               (* [ValueError] or [IndexError], caught *)
| TimeOverflow.             (* [OverflowError]: not caught there *)

Definition in_c_int (z : Z) : bool := (- 2 ^ 31 <=? z) && (z <? 2 ^ 31).

(** [dt_time(hour=hour, minute=minute)]: the arguments are converted to C
    [int]s first ([OverflowError] beyond), then range-checked
    ([ValueError]). *)
Definition dt_time (hour minute : Z) : time_result :=
  if negb (in_c_int hour && in_c_int minute) then TimeOverflow
  else if (0 <=? hour) && (hour <=? 23) && (0 <=? minute) && (minute <=? 59)
  then TimeOk (hour * 3600 + minute * 60)
  else TimeInvalid.

Definition parse_start_time (time : str) : time_result :=
  let time_parts := Utils.split_on ":"%char time in
  match time_parts with
  | [] => TimeInvalid
  | p0 :: rest =>
      match py_int p0 with
      | None => TimeInvalid
      | Some hour =>
          match match rest with [] => Some 0 | p1 :: _ => py_int p1 end with
          | None => TimeInvalid
          | Some minute => dt_time hour minute
          end
      end
  end.

(** Exceptions reaching the command's [except Exception] handler. *)
Inductive command_error :=
| OverflowErr
| IntDigitsErr              (* [ValueError] of [int()] in [parse_duration] *)
| DbErr (e : db_error)
| NoneNotSubscriptable.

(** The follow-up message sent. *)
Inductive create_reply :=
| CategoryNotFound
| NoTextChannels
| InvalidTime
| InvalidInterval
| InvalidLookback
| ScheduleCreated (schedule_id : Z)
| ErrorOccurred (e : command_error).

(** The part shared by both commands, from the time parsing to the start
    of the task.  [int(interval_delta.total_seconds() / 3600)] is computed
    on floats; for the whole numbers of seconds a [timedelta] can hold
    (below 2^53) the division rounds to a value whose integer part is the
    exact quotient, so it is written [secs / 3600]. *)
Definition create_schedule (t : Table) (ts : TaskState) (now : Z) (guild : Z)
    (channel_ids : list Z) (target_name : str) (schedule_type : str)
    (output_channel_id user_id : Z) (time interval lookback : str)
  : Table * TaskState * create_reply :=
  match parse_start_time time with
  | TimeInvalid => (t, ts, InvalidTime)
  | TimeOverflow => (t, ts, ErrorOccurred OverflowErr)
  | TimeOk start_time =>
      match Duration.parse_duration interval with
      | Duration.Overflow => (t, ts, ErrorOccurred OverflowErr)
      | Duration.IntDigitsLimit => (t, ts, ErrorOccurred IntDigitsErr)
      | Duration.Td secs =>
          if (secs =? 0) || (secs <? 3600) then (t, ts, InvalidInterval)
          else
            let interval_hours := secs / 3600 in
            match Duration.parse_duration lookback with
            | Duration.Overflow => (t, ts, ErrorOccurred OverflowErr)
            | Duration.IntDigitsLimit => (t, ts, ErrorOccurred IntDigitsErr)
            | Duration.Td lsecs =>
                if lsecs =? 0 then (t, ts, InvalidLookback)
                else
                  let f := mkFields guild channel_ids target_name schedule_type
                             output_channel_id start_time interval_hours lookback user_id in
                  match add_schedule t f now with
                  | (t', Error e) => (t', ts, ErrorOccurred (DbErr e))
                  | (t', Ok schedule_id) =>
                      match get_schedule t' schedule_id with
                      | None => (t', ts, ErrorOccurred NoneNotSubscriptable)
                      | Some _ =>
                          let '(task, ts) := create_schedule_task ts in
                          (t', start_schedule_task ts schedule_id task,
                           ScheduleCreated schedule_id)
                      end
                  end
            end
      end
  end.

(** [/schedule-summary] *)
Definition schedule_summary (t : Table) (ts : TaskState) (now guild channel_id : Z)
    (channel_name : str) (time interval lookback : str) (output_channel_id user_id : Z)
  : Table * TaskState * create_reply :=
  create_schedule t ts now guild [channel_id] channel_name (lit "channel")
    output_channel_id user_id time interval lookback.

(** A category of the guild: its name and the ids of its text channels. *)
Record Category := mkCategory {
  cat_name : str;
  cat_text_channels : list Z
}.

(** [/schedule-category-summary]: [discord.utils.get(guild.categories,
    name=category_name)] is the first category with that name. *)
Definition schedule_category_summary (t : Table) (ts : TaskState) (now guild : Z)
    (categories : list Category) (category_name : str) (time interval lookback : str)
    (output_channel_id user_id : Z) : Table * TaskState * create_reply :=
  match find (fun c => Store.str_eqb (cat_name c) category_name) categories with
  | None => (t, ts, CategoryNotFound)
  | Some category =>
      match cat_text_channels category with
      | [] => (t, ts, NoTextChannels)
      | channel_ids =>
          create_schedule t ts now guild channel_ids category_name (lit "category")
            output_channel_id user_id time interval lookback
      end
  end.

End Commands.

(** ** [Summarizer.get_title] (summarizer.py) *)
Module Title.
Import PyStr Fetcher Summarizer.

Section Title.

(** [self.generate_title(transcript_content)]: [ai_client.call_llm] with the
    title instruction, an opaque text generator. *)
Variable generate_title : list content_item -> option str.
Variable build_transcript_with_images : list Message -> list content_item.

Definition get_title (messages : list Message) : str :=
  let transcript_content := build_transcript_with_images messages in
  match truthy (generate_title transcript_content) with
  | Some title =>
      if (100 <? length title)%nat then firstn 100 title ++ lit "..." else title
  | None => []
  end.

End Title.
End Title.

(* ================================================================== *)
(** * Proofs *)

(** ** String lemmas *)
Module PyStrFacts.
Import PyStr.

Lemma lstrip_length (s : str) : (length (lstrip s) <= length s)%nat.
Proof. induction s as [|c r IH]; simpl; [lia|]. destruct (py_isspace c); simpl; lia. Qed.

Lemma lstrip_idem (s : str) : lstrip (lstrip s) = lstrip s.
Proof.
  induction s as [|c r IH]; simpl; [reflexivity|].
  destruct (py_isspace c) eqn:E; [exact IH|]. simpl. rewrite E. reflexivity.
Qed.

Lemma lstrip_head (c : ascii) (r : str) :
  lstrip (c :: r) = c :: r -> py_isspace c = false.
Proof.
  simpl. destruct (py_isspace c) eqn:E; [|reflexivity].
  intro H. pose proof (lstrip_length r) as L. rewrite H in L. simpl in L. lia.
Qed.

Lemma rfind_down_some (sub text : str) (n i : nat) :
  rfind_down sub text n = Some i ->
  (i <= n)%nat /\ is_prefix sub (skipn i text) = true.
Proof.
  induction n as [|n IH]; intro H; cbn [rfind_down] in H.
  - destruct (is_prefix sub (skipn 0 text)) eqn:E; inversion H; subst; auto.
  - destruct (is_prefix sub (skipn (S n) text)) eqn:E.
    + inversion H; subst. auto.
    + destruct (IH H). split; [lia | assumption].
Qed.

Lemma rfind_down_last (sub text : str) (n j : nat) :
  (j <= n)%nat -> is_prefix sub (skipn j text) = true ->
  (forall i, (j < i <= n)%nat -> is_prefix sub (skipn i text) = false) ->
  rfind_down sub text n = Some j.
Proof.
  induction n as [|n IH]; intros Hj Hp Hlast.
  - assert (j = 0%nat) by lia. subst. cbn [rfind_down]. rewrite Hp. reflexivity.
  - destruct (Nat.eq_dec j (S n)) as [->|Hne].
    + cbn [rfind_down]. rewrite Hp. reflexivity.
    + cbn [rfind_down]. rewrite (Hlast (S n)) by lia.
      apply IH; [lia | assumption |]. intros i Hi. apply Hlast. lia.
Qed.

(** What a successful [rfind] returns. *)
Lemma rfind_cases (sub text : str) (e : Z) :
  rfind sub text e = -1 \/
  (0 <= rfind sub text e /\
   (Z.to_nat (rfind sub text e) + length sub <= length text)%nat /\
   is_prefix sub (skipn (Z.to_nat (rfind sub text e)) text) = true).
Proof.
  unfold rfind.
  set (k := py_index e (length text)).
  assert (Hk : (k <= length text)%nat).
  { subst k. unfold py_index. destruct (e <? 0) eqn:E; lia. }
  destruct (Nat.leb_spec (length sub) k) as [Hle|]; [|left; reflexivity].
  destruct (rfind_down sub text (k - length sub)) as [i|] eqn:R; [|left; reflexivity].
  right. apply rfind_down_some in R. destruct R as [Hi Hp].
  rewrite Nat2Z.id. repeat split; [lia | lia | exact Hp].
Qed.

Lemma py_index_in (k : Z) (n : nat) :
  0 <= k -> k <= Z.of_nat n -> py_index k n = Z.to_nat k.
Proof. intros H1 H2. unfold py_index. destruct (k <? 0) eqn:E; lia. Qed.

End PyStrFacts.

(** ** Message Chunker *)
Module ChunkerProofs.
Import PyStr PyStrFacts Chunker.

Lemma occursb_false (sub s : str) :
  occursb sub s = false -> forall i, is_prefix sub (skipn i s) = false.
Proof.
  revert s. induction s as [|c t IH]; simpl; intros H i.
  - rewrite orb_false_r in H. destruct i; exact H.
  - apply orb_false_iff in H. destruct H as [H1 H2].
    destruct i; [exact H1|]. simpl. apply IH. exact H2.
Qed.

Lemma NL_space : py_isspace NL = true.
Proof. reflexivity. Qed.

Lemma strip_length (s : str) : (length (strip s) <= length s)%nat.
Proof.
  unfold strip, rstrip. rewrite length_rev.
  pose proof (lstrip_length (rev (lstrip s))). rewrite length_rev in H.
  pose proof (lstrip_length s). lia.
Qed.

(** A split index found by [rfind] for a pattern starting with a line break
    is never 0 in a text without leading whitespace. *)
Lemma rfind_nl_pos (r text : str) (e : Z) :
  lstrip text = text -> rfind (NL :: r) text e <> -1 ->
  1 <= rfind (NL :: r) text e /\
  (Z.to_nat (rfind (NL :: r) text e) <= length text)%nat.
Proof.
  intros Hs Hne.
  destruct (rfind_cases (NL :: r) text e) as [H|[H0 [Hl Hp]]]; [contradiction|].
  split; [|simpl in Hl; lia].
  destruct (Z.eq_dec (rfind (NL :: r) text e) 0) as [Hz|]; [|lia].
  exfalso. rewrite Hz in Hp. change (Z.to_nat 0) with 0%nat in Hp.
  cbn [skipn] in Hp.
  destruct text as [|c t]; [discriminate|]. cbn [is_prefix] in Hp.
  apply andb_prop in Hp. destruct Hp as [Hc _].
  apply Ascii.eqb_eq in Hc. subst c.
  apply lstrip_head in Hs. rewrite NL_space in Hs. discriminate.
Qed.

Lemma cut_shortens (text : str) (k : Z) :
  1 <= k <= Z.of_nat (length text) ->
  (length (lstrip (slice_from text k)) < length text)%nat.
Proof.
  intros Hk. unfold slice_from. rewrite py_index_in by lia.
  pose proof (lstrip_length (skipn (Z.to_nat k) text)).
  rewrite length_skipn in H. lia.
Qed.

Lemma take_snd_stripped (text : str) (m : Z) :
  lstrip (snd (take_text_chunk text m)) = snd (take_text_chunk text m).
Proof.
  unfold take_text_chunk. destruct (_ <=? m); simpl; [reflexivity|].
  apply lstrip_idem.
Qed.

Lemma take_snd_le (text : str) (m : Z) :
  (length (snd (take_text_chunk text m)) <= length text)%nat.
Proof.
  unfold take_text_chunk. destruct (_ <=? m); simpl; [lia|].
  unfold slice_from. etransitivity; [apply lstrip_length|].
  rewrite length_skipn. lia.
Qed.

(** One iteration of the chunking loop on a non-empty remaining text
    without leading whitespace strictly shortens it when the limit is at
    least 1. *)
Lemma take_step_lt (text : str) (m : Z) :
  1 <= m -> text <> [] -> lstrip text = text ->
  (length (snd (take_text_chunk text m)) < length text)%nat.
Proof.
  intros Hm Hne Hs. unfold take_text_chunk.
  destruct (Z.of_nat (length text) <=? m) eqn:E.
  - simpl. destruct text; [contradiction | simpl; lia].
  - apply Z.leb_gt in E. simpl. unfold PARA, LINE.
    destruct (rfind [NL; NL] text m =? -1) eqn:Ea.
    + destruct (rfind [NL] text m =? -1) eqn:Eb.
      * apply cut_shortens. lia.
      * apply Z.eqb_neq in Eb.
        destruct (rfind_nl_pos [] text m Hs Eb). apply cut_shortens. lia.
    + apply Z.eqb_neq in Ea.
      destruct (rfind_nl_pos [NL] text m Hs Ea). apply cut_shortens. lia.
Qed.

Lemma option_map_not_none {A B} (f : A -> B) (x : option A) :
  x <> None -> option_map f x <> None.
Proof. destruct x; simpl; congruence. Qed.

Lemma cont_loop_some (fuel : nat) (rem : str) (cm : Z) :
  1 <= cm -> lstrip rem = rem -> (length rem < fuel)%nat ->
  cont_loop fuel rem cm <> None.
Proof.
  revert rem. induction fuel as [|f IH]; intros rem Hcm Hs Hl.
  - simpl in Hl. lia.
  - destruct rem as [|c r]; simpl; [discriminate|].
    destruct (take_text_chunk (c :: r) cm) as [chunk rem'] eqn:T.
    apply option_map_not_none. apply IH; [exact Hcm| |].
    + pose proof (take_snd_stripped (c :: r) cm) as H. rewrite T in H. exact H.
    + pose proof (take_step_lt (c :: r) cm Hcm ltac:(discriminate) Hs) as H.
      rewrite T in H. simpl in H, Hl. lia.
Qed.

Lemma cont_prefix_length : length cont_prefix = 22%nat.
Proof. reflexivity. Qed.

(** C9: for every header and body and every [max_len] greater than
    [len(cont_prefix) + 1] (in particular the default 2000), the
    [while remaining:] loop of [build_summary_messages] exits within
    [len(body) + 1] iterations, and each iteration strictly shortens the
    (whitespace-trimmed, non-empty) remaining text. *)
Theorem build_summary_messages_terminates (header summary : str) (max_len : Z) :
  Z.of_nat (length cont_prefix) + 1 < max_len ->
  build_summary_messages header summary max_len <> None /\
  (forall text, text <> [] -> lstrip text = text ->
   (length (snd (take_text_chunk text (max_len - Z.of_nat (length cont_prefix))))
    < length text)%nat).
Proof.
  rewrite cont_prefix_length. intro Hmax. split.
  - unfold build_summary_messages, build_summary_messages_fuel. cbv zeta.
    destruct (_ <=? 0) eqn:Ef; [discriminate|].
    apply Z.leb_gt in Ef.
    destruct (take_text_chunk (strip summary) _) as [first rem] eqn:T.
    apply option_map_not_none. rewrite cont_prefix_length.
    apply cont_loop_some; [lia| |].
    + pose proof (take_snd_stripped (strip summary)
                    (max_len - Z.of_nat (length (strip header ++ [NL; NL])))) as H.
      rewrite T in H. exact H.
    + pose proof (take_snd_le (strip summary)
                    (max_len - Z.of_nat (length (strip header ++ [NL; NL])))) as H.
      rewrite T in H. simpl in H. pose proof (strip_length summary). lia.
  - intros text Hne Hs. apply take_step_lt; [lia | exact Hne | exact Hs].
Qed.

Lemma build_summary_messages_terminates_witness :
  Z.of_nat (length cont_prefix) + 1 < 2000 /\
  build_summary_messages (lit "H") (repeat "a"%char 3000) 2000 <> None.
Proof.
  split; [rewrite cont_prefix_length; lia|].
  apply (build_summary_messages_terminates (lit "H") (repeat "a"%char 3000) 2000).
  rewrite cont_prefix_length; lia.
Defined.

(** C5: with header ["H"] and a body of 3000 ['a'] characters, the chunker
    returns exactly two chunks of at most 2000 characters; the first starts
    with ["H\n\n"], the second with the continuation prefix, and the two
    body parts concatenate back to the 3000-character body. *)
Theorem chunker_header_H_3000_a :
  exists c1 c2,
    build_summary_messages (lit "H") (repeat "a"%char 3000) 2000 = Some [c1; c2] /\
    (length c1 <= 2000)%nat /\ (length c2 <= 2000)%nat /\
    firstn 3 c1 = lit "H" ++ [NL; NL] /\
    firstn (length cont_prefix) c2 = cont_prefix /\
    skipn 3 c1 ++ skipn (length cont_prefix) c2 = repeat "a"%char 3000.
Proof.
  exists (lit "H" ++ [NL; NL] ++ repeat "a"%char 1997),
         (cont_prefix ++ repeat "a"%char 1003).
  refine (conj _ (conj _ (conj _ (conj _ (conj _ _))))).
  - vm_compute. reflexivity.
  - apply Nat.leb_le. vm_compute. reflexivity.
  - apply Nat.leb_le. vm_compute. reflexivity.
  - vm_compute. reflexivity.
  - vm_compute. reflexivity.
  - vm_compute. reflexivity.
Qed.

(** C6 (as amended): for a body [p ++ "\n\n" ++ q] of length 2500 whose
    paragraph break sits at position 1500 and whose text [q] after it
    neither starts with a line break nor contains another paragraph break,
    the chunk step with limit 2000 cuts at position 1500: the chunk is the
    text before position 1500 with trailing whitespace removed, and the
    remainder is [q] with leading whitespace removed.  Line breaks inside
    [q] (before position 2000) do not win over the paragraph break. *)
Theorem take_text_chunk_paragraph_1500 (p q : str) :
  length p = 1500%nat -> length q = 998%nat ->
  hd_error q <> Some NL -> occursb PARA q = false ->
  take_text_chunk (p ++ PARA ++ q) 2000 = (rstrip p, lstrip q).
Proof.
  intros Hp Hq Hhd Hocc.
  assert (Hlen : length (p ++ PARA ++ q) = 2500%nat).
  { rewrite !length_app, Hp, Hq. reflexivity. }
  assert (Hfind : rfind PARA (p ++ PARA ++ q) 2000 = 1500).
  { unfold rfind. rewrite Hlen. change (py_index 2000 2500) with 2000%nat.
    change (length PARA) with 2%nat. cbv [Nat.leb Nat.sub].
    rewrite (rfind_down_last _ _ 1998 1500).
    - reflexivity.
    - lia.
    - rewrite skipn_app, skipn_all2 by lia. rewrite Hp. reflexivity.
    - intros i Hi. rewrite skipn_app, skipn_all2 by lia. rewrite Hp.
      cbn [app]. unfold PARA.
      destruct (Nat.eq_dec i 1501) as [->|Hne].
      + change (1501 - 1500)%nat with 1%nat. cbn [skipn app is_prefix].
        rewrite Ascii.eqb_refl. cbn [andb].
        destruct q as [|c t]; [reflexivity|]. cbn [is_prefix].
        destruct (Ascii.eqb NL c) eqn:Ec; [|reflexivity].
        apply Ascii.eqb_eq in Ec. subst c. cbn in Hhd. congruence.
      + replace (i - 1500)%nat with (S (S (i - 1502))) by lia.
        cbn [skipn app]. apply (occursb_false [NL; NL]). exact Hocc. }
  unfold take_text_chunk. rewrite Hlen.
  change (Z.of_nat 2500 <=? 2000) with false. cbv iota zeta.
  rewrite Hfind. change (1500 =? -1) with false. cbv iota.
  unfold slice_to, slice_from. rewrite Hlen.
  change (py_index 1500 2500) with 1500%nat.
  rewrite firstn_app, skipn_app, Hp, firstn_all2, skipn_all2 by lia.
  rewrite Nat.sub_diag. simpl. rewrite app_nil_r. reflexivity.
Qed.

Lemma take_text_chunk_paragraph_1500_witness :
  length (repeat "a"%char 1500) = 1500%nat /\
  length (repeat "a"%char 200 ++ [NL] ++ repeat "a"%char 797) = 998%nat /\
  hd_error (repeat "a"%char 200 ++ [NL] ++ repeat "a"%char 797) <> Some NL /\
  occursb PARA (repeat "a"%char 200 ++ [NL] ++ repeat "a"%char 797) = false /\
  take_text_chunk (repeat "a"%char 1500 ++ PARA ++
                   (repeat "a"%char 200 ++ [NL] ++ repeat "a"%char 797)) 2000
  = (rstrip (repeat "a"%char 1500),
     lstrip (repeat "a"%char 200 ++ [NL] ++ repeat "a"%char 797)).
Proof.
  split; [vm_compute; reflexivity|]. split; [vm_compute; reflexivity|].
  split; [vm_compute; discriminate|]. split; [vm_compute; reflexivity|].
  apply take_text_chunk_paragraph_1500;
    [vm_compute; reflexivity | vm_compute; reflexivity
    | vm_compute; discriminate | vm_compute; reflexivity].
Defined.

(** C6 as stated fails: when the text before the paragraph break ends in a
    space, the first chunk's body part is not the text before position
    1500 (its trailing space is stripped). *)
Lemma take_text_chunk_paragraph_1500_cex :
  let body := (repeat "a"%char 1499 ++ [" "%char]) ++ PARA ++ repeat "a"%char 998 in
  fst (take_text_chunk body 2000) = repeat "a"%char 1499 /\
  firstn 1500 body = repeat "a"%char 1499 ++ [" "%char].
Proof. cbv zeta. split; vm_compute; reflexivity. Qed.

End ChunkerProofs.

(** ** Duration Parser *)
Module DurationProofs.
Import PyStr Duration.

Lemma span_digits_spec (s : str) :
  s = fst (span_digits s) ++ snd (span_digits s) /\
  forallb is_digit (fst (span_digits s)) = true.
Proof.
  induction s as [|c r [IH1 IH2]]; [split; reflexivity|].
  simpl. destruct (is_digit c) eqn:E.
  - destruct (span_digits r) as [d t]. simpl in *. rewrite E, IH1, IH2. auto.
  - simpl. auto.
Qed.

Lemma unit_str_not_digit (u : unit_kind) (rest : str) :
  exists c r, unit_str u ++ rest = c :: r /\ is_digit c = false.
Proof. destruct u; simpl; eauto. Qed.

Lemma span_digits_app (ds rest : str) :
  forallb is_digit ds = true ->
  (exists c r, rest = c :: r /\ is_digit c = false) ->
  span_digits (ds ++ rest) = (ds, rest).
Proof.
  intros Hd [c [r [-> Hc]]]. induction ds as [|d t IH]; simpl.
  - rewrite Hc. reflexivity.
  - simpl in Hd. apply andb_prop in Hd. destruct Hd as [Hd Ht].
    rewrite Hd, (IH Ht). reflexivity.
Qed.

Lemma digits_value_acc_nonneg (ds : str) (acc : Z) :
  0 <= acc -> forallb is_digit ds = true ->
  0 <= fold_left (fun acc c => acc * 10 + (Z.of_nat (nat_of_ascii c) - 48)) ds acc.
Proof.
  revert acc. induction ds as [|c t IH]; intros acc Ha Hd; simpl; [exact Ha|].
  simpl in Hd. apply andb_prop in Hd. destruct Hd as [Hc Ht].
  apply IH; [|exact Ht]. unfold is_digit in Hc.
  apply andb_prop in Hc. destruct Hc as [H1 _]. apply Nat.leb_le in H1. lia.
Qed.

Lemma match_unit_some (rest : str) (u : unit_kind) :
  match_unit rest = Some u -> exists r, rest = unit_str u ++ r.
Proof.
  unfold match_unit. destruct (is_prefix (lit "mo") rest) eqn:Emo.
  - intro H. inversion H; subst.
    destruct rest as [|a [|b r]]; cbn [is_prefix lit list_ascii_of_string] in Emo;
      [discriminate | rewrite andb_false_r in Emo; discriminate |].
    apply andb_prop in Emo. destruct Emo as [Ea Eb].
    apply andb_prop in Eb. destruct Eb as [Eb _].
    apply Ascii.eqb_eq in Ea, Eb. subst. exists r. reflexivity.
  - destruct rest as [|c r]; [discriminate|].
    destruct (Ascii.eqb c "m") eqn:E1;
      [intro H; inversion H; subst; apply Ascii.eqb_eq in E1; subst; exists r; reflexivity|].
    destruct (Ascii.eqb c "h") eqn:E2;
      [intro H; inversion H; subst; apply Ascii.eqb_eq in E2; subst; exists r; reflexivity|].
    destruct (Ascii.eqb c "d") eqn:E3;
      [intro H; inversion H; subst; apply Ascii.eqb_eq in E3; subst; exists r; reflexivity|].
    destruct (Ascii.eqb c "w") eqn:E4;
      [intro H; inversion H; subst; apply Ascii.eqb_eq in E4; subst; exists r; reflexivity|].
    discriminate.
Qed.

Lemma match_unit_str (u : unit_kind) (rest : str) :
  (u = UMin -> hd_error rest <> Some "o"%char) ->
  match_unit (unit_str u ++ rest) = Some u.
Proof.
  intro Ho. destruct u; try reflexivity.
  unfold match_unit. destruct rest as [|c r]; [reflexivity|].
  cbn [unit_str app lit list_ascii_of_string is_prefix].
  rewrite Ascii.eqb_refl. cbn [andb].
  destruct (Ascii.eqb "o" c) eqn:Ec.
  - apply Ascii.eqb_eq in Ec. subst c. exfalso. apply (Ho eq_refl). reflexivity.
  - reflexivity.
Qed.

(** C4 (as amended): [parse_duration] matches [<digits><unit>] at the start
    of the lower-cased input only.  (1) A non-zero result comes from such a
    prefix [ds ++ unit ++ rest] with at most 4300 digits and [int(ds) > 0],
    and is [int(ds) * unit_seconds unit]; (2) every such prefix (with ["mo"]
    preferred over ["m"]) yields, whatever text follows, [ValueError] from
    [int()] when [ds] has more than 4300 digits, and otherwise
    [int(ds) * unit_seconds unit], or [OverflowError] beyond [timedelta]'s
    999999999 days; (3) an input that does not begin with such a prefix
    gives the zero sentinel; (4) ["24h"] is 24 hours, ["1mo"] 30 days, and
    [""], ["xyz"], ["h"] give the zero sentinel. *)
Theorem parse_duration_prefix_match (s : str) :
  (forall d, parse_duration s = Td d -> d <> 0 ->
     exists ds u rest,
       lower s = ds ++ unit_str u ++ rest /\ ds <> [] /\
       forallb is_digit ds = true /\ (length ds <= int_max_str_digits)%nat /\
       0 < digits_value ds /\ d = digits_value ds * unit_seconds u) /\
  (forall ds u rest,
     lower s = ds ++ unit_str u ++ rest -> ds <> [] ->
     forallb is_digit ds = true -> (u = UMin -> hd_error rest <> Some "o"%char) ->
     parse_duration s =
       if (int_max_str_digits <? length ds)%nat then IntDigitsLimit
       else mk_timedelta (digits_value ds * unit_seconds u)) /\
  ((forall ds u rest,
      lower s = ds ++ unit_str u ++ rest -> ds <> [] -> forallb is_digit ds = true -> False) ->
   parse_duration s = Td 0) /\
  (parse_duration (lit "24h") = Td (24 * SEC_HOUR) /\
   parse_duration (lit "1mo") = Td (30 * SEC_DAY) /\
   parse_duration (lit "") = Td 0 /\ parse_duration (lit "xyz") = Td 0 /\
   parse_duration (lit "h") = Td 0).
Proof.
  split; [|split; [|split]].
  - intros d H Hd. unfold parse_duration in H.
    destruct (span_digits_spec (lower s)) as [Hs Hdig].
    destruct (span_digits (lower s)) as [ds rest] eqn:Sp. simpl in Hs, Hdig.
    destruct ds as [|c0 ds']; [inversion H; subst; contradiction|].
    destruct (match_unit rest) as [u|] eqn:Mu; [|inversion H; subst; contradiction].
    destruct (match_unit_some rest u Mu) as [r ->].
    destruct (int_max_str_digits <? length (c0 :: ds'))%nat eqn:Hlen; [discriminate|].
    apply Nat.ltb_ge in Hlen.
    unfold mk_timedelta in H.
    destruct (_ <=? timedelta_max_days); inversion H; subst.
    pose proof (digits_value_acc_nonneg (c0 :: ds') 0 ltac:(lia) Hdig) as Hnn.
    fold (digits_value (c0 :: ds')) in Hnn.
    exists (c0 :: ds'), u, r. repeat split; try assumption; try discriminate.
    destruct (Z.eq_dec (digits_value (c0 :: ds')) 0) as [E|]; [|lia].
    exfalso. apply Hd. rewrite E. reflexivity.
  - intros ds u rest Hs Hne Hdig Ho. unfold parse_duration.
    rewrite Hs, span_digits_app by (assumption || apply unit_str_not_digit).
    destruct ds as [|c0 ds']; [contradiction|].
    rewrite match_unit_str by exact Ho. reflexivity.
  - intro Hno. unfold parse_duration.
    destruct (span_digits_spec (lower s)) as [Hs Hdig].
    destruct (span_digits (lower s)) as [ds rest] eqn:Sp. simpl in Hs, Hdig.
    destruct ds as [|c0 ds']; [reflexivity|].
    destruct (match_unit rest) as [u|] eqn:Mu; [|reflexivity].
    destruct (match_unit_some rest u Mu) as [r ->].
    exfalso. apply (Hno (c0 :: ds') u r Hs ltac:(discriminate) Hdig).
  - repeat split.
Qed.

(** C4 as stated fails: ["24hx"] does not have the form
    [<positive integer><unit>], yet parses to 24 hours; ["10000000000d"]
    has that form but raises [OverflowError] instead of returning a
    duration; and 4300 zeros followed by ["1h"] has that form with the
    amount 1, but [int()] raises [ValueError] on its 4301 digits. *)
Lemma parse_duration_trailing_text_cex :
  parse_duration (lit "24hx") = Td (24 * SEC_HOUR) /\
  ~ (exists ds u, lower (lit "24hx") = ds ++ unit_str u) /\
  parse_duration (lit "10000000000d") = Overflow /\
  digits_value (repeat "0"%char 4300 ++ ["1"%char]) = 1 /\
  parse_duration (repeat "0"%char 4300 ++ lit "1h") = IntDigitsLimit.
Proof.
  split; [reflexivity|]. split; [|split; [reflexivity|split; vm_compute; reflexivity]].
  intros [ds [u H]]. apply (f_equal (@rev ascii)) in H.
  rewrite rev_app_distr in H. destruct u; vm_compute in H; discriminate.
Qed.

End DurationProofs.

(** ** History Fetcher *)
Module FetcherProofs.
Import PyStr Fetcher.

Definition created_le (a b : Message) : Prop := created_at a <= created_at b.

Lemma insert_by_created_perm (m : Message) (l : list Message) :
  Permutation (insert_by_created m l) (m :: l).
Proof.
  induction l as [|x t IH]; simpl; [reflexivity|].
  destruct (created_at x <=? created_at m); [|reflexivity].
  rewrite IH. apply perm_swap.
Qed.

Lemma sort_fold_perm (l acc : list Message) :
  Permutation (fold_left (fun acc m => insert_by_created m acc) l acc) (l ++ acc).
Proof.
  revert acc. induction l as [|x t IH]; intro acc; simpl; [reflexivity|].
  rewrite IH, insert_by_created_perm. apply Permutation_sym, Permutation_middle.
Qed.

Lemma sort_by_created_perm (l : list Message) : Permutation (sort_by_created l) l.
Proof. unfold sort_by_created. rewrite sort_fold_perm, app_nil_r. reflexivity. Qed.

Lemma insert_by_created_hd (a m : Message) (l : list Message) :
  HdRel created_le a l -> created_le a m -> HdRel created_le a (insert_by_created m l).
Proof.
  intros Hl Ham. destruct l as [|b t]; simpl; [constructor; exact Ham|].
  destruct (created_at b <=? created_at m); constructor; [inversion Hl; assumption | exact Ham].
Qed.

Lemma insert_by_created_sorted (m : Message) (l : list Message) :
  Sorted created_le l -> Sorted created_le (insert_by_created m l).
Proof.
  induction l as [|x t IH]; intro Hs; simpl; [repeat constructor|].
  destruct (created_at x <=? created_at m) eqn:E.
  - apply Z.leb_le in E. inversion Hs; subst.
    constructor; [apply IH; assumption|]. apply insert_by_created_hd; assumption.
  - apply Z.leb_gt in E. constructor; [exact Hs|]. constructor. unfold created_le. lia.
Qed.

Lemma sort_by_created_sorted (l : list Message) : Sorted created_le (sort_by_created l).
Proof.
  unfold sort_by_created.
  assert (H : forall acc, Sorted created_le acc ->
            Sorted created_le (fold_left (fun acc m => insert_by_created m acc) l acc)).
  { induction l as [|x t IH]; intros acc Hacc; simpl; [exact Hacc|].
    apply IH, insert_by_created_sorted, Hacc. }
  apply H. constructor.
Qed.

Lemma yielded_not_raised {A} (s : Stream A) :
  raised s = false -> yielded s = items s.
Proof.
  unfold raised, yielded. destruct (fails_after s) as [k|]; [|reflexivity].
  intro H. apply Nat.ltb_ge in H. apply firstn_all2. exact H.
Qed.

Lemma history_after_complete (hist : list Message) (limit : nat) (cutoff : Z) (m : Message) :
  In m hist -> cutoff < created_at m ->
  (length (filter (fun m => Z.ltb cutoff (created_at m)) hist) <= limit)%nat ->
  In m (history_after hist limit cutoff).
Proof.
  intros Hin Hc Hlen. unfold history_after. rewrite firstn_all2 by exact Hlen.
  apply filter_In. split; [exact Hin|]. apply Z.ltb_lt. exact Hc.
Qed.

(** C3 (as amended): when the fetch returns, its result is a
    permutation, sorted by creation time, of the oldest (up to 500)
    messages created after the cutoff in the channel, followed by, for each
    discovered thread (open and archived threads, deduplicated by id), the
    oldest (up to 500) such messages that its history call yielded.  So a
    message after the cutoff is kept whenever its channel or thread has at
    most 500 messages after the cutoff and (for a thread) its history call
    does not fail. *)
Theorem fetch_messages_with_threads_coverage (ch : Channel) (cutoff : Z)
    (res : list Message) :
  fetch_messages_with_threads ch cutoff = Some res ->
  Permutation res (history_after (ch_history ch) 500 cutoff ++
                   flat_map (thread_messages 500 cutoff) (discovered_threads ch)) /\
  Sorted created_le res /\
  (forall m, In m (ch_history ch) -> cutoff < created_at m ->
     (length (filter (fun m => Z.ltb cutoff (created_at m)) (ch_history ch)) <= 500)%nat ->
     In m res) /\
  (forall t m, In t (discovered_threads ch) -> th_history_fails t = None ->
     In m (th_history t) -> cutoff < created_at m ->
     (length (filter (fun m => Z.ltb cutoff (created_at m)) (th_history t)) <= 500)%nat ->
     In m res).
Proof.
  unfold fetch_messages_with_threads, fetch_messages_with_threads_lim.
  set (chan := history_stream (ch_history ch) (ch_history_fails ch) 500 cutoff).
  destruct (raised chan) eqn:Er; [discriminate|].
  intro H. injection H as Hres.
  rewrite (yielded_not_raised chan Er) in Hres. simpl in Hres. subst res.
  set (res := sort_by_created (history_after (ch_history ch) 500 cutoff ++
                 flat_map (thread_messages 500 cutoff) (discovered_threads ch))).
  assert (Hp : Permutation res (history_after (ch_history ch) 500 cutoff ++
                 flat_map (thread_messages 500 cutoff) (discovered_threads ch))).
  { apply sort_by_created_perm. }
  split; [exact Hp|]. split; [apply sort_by_created_sorted|].
  split.
  - intros m Hin Hc Hlen. apply (Permutation_in _ (Permutation_sym Hp)).
    apply in_or_app. left. apply history_after_complete; assumption.
  - intros t m Ht Hf Hin Hc Hlen. apply (Permutation_in _ (Permutation_sym Hp)).
    apply in_or_app. right. apply in_flat_map. exists t. split; [exact Ht|].
    unfold thread_messages, yielded, history_stream. simpl. rewrite Hf.
    apply history_after_complete; assumption.
Qed.

Lemma fetch_messages_with_threads_coverage_witness :
  fetch_messages_with_threads Samples.ch_small 0 =
    Some (map (fun t => Samples.msg_at t (if (t =? 10) || (t =? 30) then 2 else 1))
              [5; 10; 20; 30]) /\
  Sorted created_le
    (map (fun t => Samples.msg_at t (if (t =? 10) || (t =? 30) then 2 else 1))
         [5; 10; 20; 30]).
Proof.
  split; [vm_compute; reflexivity|].
  exact (proj1 (proj2 (fetch_messages_with_threads_coverage Samples.ch_small 0 _
                         ltac:(vm_compute; reflexivity)))).
Defined.

(** C3 as stated fails: a channel with 501 messages after the cutoff loses
    the newest one, because each [history()] call is capped at
    [limit=500]. *)
Lemma fetch_messages_with_threads_limit_cex :
  In (Samples.msg_at 501 1) (ch_history Samples.ch_big) /\
  0 <= created_at (Samples.msg_at 501 1) /\
  exists res, fetch_messages_with_threads Samples.ch_big 0 = Some res /\
              ~ In (Samples.msg_at 501 1) res.
Proof.
  split; [|split; [vm_compute; discriminate|]].
  - unfold Samples.ch_big. simpl ch_history.
    apply (in_map (fun i => Samples.msg_at (Z.of_nat i) 1) (seq 1 501) 501%nat).
    apply in_seq. lia.
  - eexists. split; [vm_compute; reflexivity|].
    intro Hin. apply (in_map msg_id) in Hin.
    assert (He : existsb (Z.eqb 501) (map msg_id (sort_by_created
              (history_after (ch_history Samples.ch_big) 500 0 ++ [])))  = true).
    { apply existsb_exists. exists 501. split; [exact Hin | reflexivity]. }
    vm_compute in He. discriminate.
Qed.

End FetcherProofs.

(** ** Summarization entry points *)
Module SummarizerProofs.
Import PyStr Fetcher Summarizer.

Lemma cap_2000_long (s : str) :
  (2000 < length s)%nat -> cap_2000 s = firstn 1997 s ++ lit "..." /\
  length (cap_2000 s) = 2000%nat.
Proof.
  intro H. unfold cap_2000. destruct (Nat.ltb_spec 2000 (length s)); [|lia].
  split; [reflexivity|]. rewrite length_app, length_firstn.
  change (length (lit "...")) with 3%nat. lia.
Qed.

Lemma cap_2000_length (s : str) : (length (cap_2000 s) <= 2000)%nat.
Proof.
  destruct (Nat.ltb_spec 2000 (length s)) as [H|H].
  - rewrite (proj2 (cap_2000_long s H)). lia.
  - unfold cap_2000. destruct (Nat.ltb_spec 2000 (length s)); lia.
Qed.

Definition thread_summary_header : str := lit "**Thread Summary:**" ++ [NL].

(** [get_summary] and [get_sectioned_summary]: when the model returns text [out] longer than 2000
    characters, the sectioned entry point returns [out[:1997] + "..."]
    (2000 characters) and the flat entry point returns the 20-character
    ["**Thread Summary:**\n"] followed by it (2020 characters); whatever the
    model returns, the flat result has at most 2020 characters and the
    sectioned one at most 2000, the rest of the model's text being
    dropped. *)
Theorem summary_pre_truncation
    (call_llm : instruction -> list content_item -> option str)
    (build_flat : list Message -> list content_item)
    (build_sect : list (str * list Message) -> list content_item)
    (msgs : list Message) (dict : list (str * list Message)) (out : str) :
  (2000 < length out)%nat ->
  (call_llm FlatSummaryInstruction (build_flat msgs) = Some out ->
   build_flat msgs <> [] ->
   get_summary call_llm build_flat msgs =
     thread_summary_header ++ firstn 1997 out ++ lit "..." /\
   length (get_summary call_llm build_flat msgs) = 2020%nat) /\
  (dict <> [] -> build_sect dict <> [] ->
   call_llm SectionedSummaryInstruction (build_sect dict) = Some out ->
   get_sectioned_summary call_llm build_sect dict = firstn 1997 out ++ lit "..." /\
   length (get_sectioned_summary call_llm build_sect dict) = 2000%nat) /\
  (length (get_summary call_llm build_flat msgs) <= 2020)%nat /\
  (length (get_sectioned_summary call_llm build_sect dict) <= 2000)%nat.
Proof.
  intro Hlen.
  destruct (cap_2000_long out Hlen) as [Hcap HcapL].
  assert (Ht : truthy (Some out) = Some out).
  { destruct out; [simpl in Hlen; lia | reflexivity]. }
  split; [|split; [|split]].
  - intros Hllm Hne. unfold get_summary.
    destruct (build_flat msgs) as [|c l]; [contradiction|].
    rewrite Hllm, Ht, Hcap. split; [reflexivity|].
    rewrite !length_app, length_firstn.
    change (length (lit "...")) with 3%nat. change (length [NL]) with 1%nat.
    change (length (lit "**Thread Summary:**")) with 19%nat. lia.
  - intros Hd Hne Hllm. unfold get_sectioned_summary.
    destruct dict as [|d ds]; [contradiction|].
    destruct (build_sect (d :: ds)) as [|c l]; [contradiction|].
    rewrite Hllm, Ht. auto.
  - clear Ht. unfold get_summary. cbv zeta.
    destruct (build_flat msgs); [apply Nat.leb_le; reflexivity|].
    destruct (truthy _); [|apply Nat.leb_le; reflexivity].
    rewrite !length_app. pose proof (cap_2000_length s).
    change (length [NL]) with 1%nat.
    change (length (lit "**Thread Summary:**")) with 19%nat. lia.
  - clear Ht. unfold get_sectioned_summary. cbv zeta.
    destruct dict; [apply Nat.leb_le; reflexivity|].
    destruct (build_sect _); [apply Nat.leb_le; reflexivity|].
    destruct (truthy _); [apply cap_2000_length | apply Nat.leb_le; reflexivity].
Qed.

Lemma summary_pre_truncation_witness :
  (2000 < length (repeat "a"%char 3000))%nat /\
  length (get_summary (fun _ _ => Some (repeat "a"%char 3000))
            (fun _ => [TextItem (lit "x")]) []) = 2020%nat.
Proof.
  split; [apply Nat.ltb_lt; vm_compute; reflexivity|].
  exact (proj2 (proj1 (summary_pre_truncation (fun _ _ => Some (repeat "a"%char 3000))
           (fun _ => [TextItem (lit "x")]) (fun _ => [TextItem (lit "x")])
           [] [] (repeat "a"%char 3000)
           ltac:(apply Nat.ltb_lt; vm_compute; reflexivity))
           eq_refl ltac:(discriminate))).
Defined.

(** C10 fails in the code for the flat entry point: with a 3000-character
    model output [get_summary] returns the cut text behind the
    ["**Thread Summary:**\n"] prefix, 2020 characters, which [/summarize]
    and [/summarize-period] send as one message, over the 2000-character
    message limit; the sectioned entry point returns the cut text itself,
    2000 characters. *)
Lemma summary_pre_truncation_flat_cex :
  let out := repeat "a"%char 3000 in
  let r := get_summary (fun _ _ => Some out) (fun _ => [TextItem (lit "x")]) [] in
  let r' := get_sectioned_summary (fun _ _ => Some out) (fun _ => [TextItem (lit "x")])
              [(lit "general", [])] in
  r = thread_summary_header ++ firstn 1997 out ++ lit "..." /\
  r <> firstn 1997 out ++ lit "..." /\ length r = 2020%nat /\
  r' = firstn 1997 out ++ lit "..." /\ length r' = 2000%nat.
Proof.
  cbv zeta. split; [vm_compute; reflexivity|]. split.
  - intro H. apply (f_equal (@length ascii)) in H. vm_compute in H. discriminate.
  - split; [vm_compute; reflexivity|]. split; vm_compute; reflexivity.
Qed.

End SummarizerProofs.

(** ** Schedule Store *)
Module StoreProofs.
Import PyStr Store.

(** The string arguments of [add_schedule] hold no NUL character. *)
Definition nul_free (f : ScheduleFields) : bool :=
  negb (has_nul (f_target_name f) || has_nul (f_schedule_type f) ||
        has_nul (f_lookback_duration f)).

Lemma varchar_coerce_cases (n : nat) (s s' : str) :
  varchar_coerce n s = Some s' -> s' = s \/ length s' = n.
Proof.
  unfold varchar_coerce. destruct (Nat.leb_spec (length s) n) as [H|H].
  - intro E. injection E as <-. left. reflexivity.
  - destruct (forallb _ _); [|discriminate]. intro E. injection E as <-.
    right. rewrite length_firstn. lia.
Qed.

Lemma str_eqb_length (a b : str) : str_eqb a b = true -> length a = length b.
Proof.
  revert b. induction a as [|x a IH]; intros [|y b]; simpl; try discriminate; auto.
  intro H. apply andb_true_iff in H as [_ H]. f_equal. apply IH, H.
Qed.

Lemma valid_schedule_type_length (k : str) :
  valid_schedule_type k = true -> length k = 7%nat \/ length k = 8%nat.
Proof.
  unfold valid_schedule_type. intro H. apply orb_prop in H.
  destruct H as [H|H]; apply str_eqb_length in H; rewrite H; auto.
Qed.

Lemma varchar_coerce_fits (n : nat) (s : str) :
  (length s <= n)%nat -> varchar_coerce n s = Some s.
Proof. intro H. unfold varchar_coerce. apply Nat.leb_le in H. rewrite H. reflexivity. Qed.

Lemma coerce_columns_ok (f g : ScheduleFields) :
  coerce_columns f = Ok g ->
  f_guild_id g = f_guild_id f /\ f_channel_ids g = f_channel_ids f /\
  f_output_channel_id g = f_output_channel_id f /\ f_start_time g = f_start_time f /\
  f_interval_hours g = f_interval_hours f /\
  f_created_by_user_id g = f_created_by_user_id f /\
  varchar_coerce 255 (f_target_name f) = Some (f_target_name g) /\
  varchar_coerce 20 (f_schedule_type f) = Some (f_schedule_type g) /\
  varchar_coerce 20 (f_lookback_duration f) = Some (f_lookback_duration g).
Proof.
  unfold coerce_columns.
  destruct (negb (in_bigint (f_guild_id f))); [discriminate|].
  destruct (negb (forallb in_bigint (f_channel_ids f))); [discriminate|].
  destruct (varchar_coerce 255 (f_target_name f)) as [tn|]; [|discriminate].
  destruct (varchar_coerce 20 (f_schedule_type f)) as [ty|]; [|discriminate].
  destruct (negb (in_bigint (f_output_channel_id f))); [discriminate|].
  destruct (negb (in_integer (f_interval_hours f))); [discriminate|].
  destruct (varchar_coerce 20 (f_lookback_duration f)) as [lb|]; [|discriminate].
  destruct (negb (in_bigint (f_created_by_user_id f))); [discriminate|].
  intro E. injection E as <-. cbn. repeat split.
Qed.

(** The stored kind is valid exactly when the given one is. *)
Lemma coerce_kind_valid (f g : ScheduleFields) :
  coerce_columns f = Ok g ->
  valid_schedule_type (f_schedule_type g) = valid_schedule_type (f_schedule_type f).
Proof.
  intro E. destruct (coerce_columns_ok f g E) as [_ [_ [_ [_ [_ [_ [_ [Hk _]]]]]]]].
  destruct (varchar_coerce_cases _ _ _ Hk) as [->|Hl]; [reflexivity|].
  destruct (valid_schedule_type (f_schedule_type f)) eqn:Ef.
  - apply valid_schedule_type_length in Ef.
    rewrite varchar_coerce_fits in Hk by lia. injection Hk as Hk.
    rewrite <- Hk in Hl. lia.
  - destruct (valid_schedule_type (f_schedule_type g)) eqn:Eg; [|reflexivity].
    apply valid_schedule_type_length in Eg. lia.
Qed.

(** A valid kind is stored as given. *)
Lemma coerce_kind_same (f g : ScheduleFields) :
  coerce_columns f = Ok g -> valid_schedule_type (f_schedule_type f) = true ->
  f_schedule_type g = f_schedule_type f.
Proof.
  intros Hc Hk. destruct (coerce_columns_ok f g Hc) as [_ [_ [_ [_ [_ [_ [_ [Hty _]]]]]]]].
  destruct (valid_schedule_type_length _ Hk) as [L|L];
    rewrite varchar_coerce_fits in Hty by lia; injection Hty as <-; reflexivity.
Qed.

(** C2: whenever the kind is not [channel]/[category] or [interval_hours <= 0],
    [add_schedule] fails and no row is added: psycopg2 refuses a string
    holding a NUL, the database refuses a value that does not fit its
    column, and otherwise the row fails a CHECK constraint.  On input
    without NUL whose values can be stored in their columns and that passes
    both checks, it appends a row with [active = true], [last_run = NULL]
    and a fresh [id], and returns that [id]; the row holds the given kind,
    interval, guild and channels, and the given name and lookback (cut to
    the column length when only spaces lie past it). *)
Theorem add_schedule_validates (t : Table) (f : ScheduleFields) (now : Z) :
  ((valid_schedule_type (f_schedule_type f) = false \/ f_interval_hours f <= 0) ->
   exists e,
     snd (add_schedule t f now) = Error e /\
     rows (fst (add_schedule t f now)) = rows t /\
     (nul_free f = true -> forall g, coerce_columns f = Ok g -> exists c, e = CheckViolation c)) /\
  (forall g, nul_free f = true -> coerce_columns f = Ok g ->
   valid_schedule_type (f_schedule_type f) = true -> 0 < f_interval_hours f ->
   exists row,
     add_schedule t f now = (mkTable (rows t ++ [row]) (id_seq t + 1), Ok (id_seq t + 1)) /\
     id row = id_seq t + 1 /\ active row = true /\ last_run row = None /\
     schedule_type row = f_schedule_type f /\ interval_hours row = f_interval_hours f /\
     guild_id row = f_guild_id f /\ channel_ids row = f_channel_ids f /\
     varchar_coerce 255 (f_target_name f) = Some (target_name row) /\
     varchar_coerce 20 (f_lookback_duration f) = Some (lookback_duration row) /\
     (Forall (fun r => id r <= id_seq t) (rows t) -> ~ In (id row) (map id (rows t)))) /\
  (nul_free f = false -> add_schedule t f now = (t, Error NulCharacter)).
Proof.
  unfold nul_free. split; [|split].
  - intro Hbad. unfold add_schedule.
    destruct (has_nul (f_target_name f) || has_nul (f_schedule_type f) ||
              has_nul (f_lookback_duration f)) eqn:En.
    { exists NulCharacter. simpl. split; [reflexivity|]. split; [reflexivity|].
      intro H. discriminate. }
    destruct (coerce_columns f) as [g|e] eqn:Ec.
    + pose proof (coerce_kind_valid f g Ec) as Hk.
      destruct (coerce_columns_ok f g Ec) as [_ [_ [_ [_ [Hi _]]]]].
      unfold check_constraints. rewrite Hk, Hi.
      destruct (valid_interval (f_interval_hours f)) eqn:Ei; simpl.
      * destruct (valid_schedule_type (f_schedule_type f)) eqn:Ek; simpl.
        -- exfalso. unfold valid_interval in Ei. apply Z.ltb_lt in Ei.
           destruct Hbad as [H|H]; [discriminate | lia].
        -- eexists. split; [reflexivity|]. split; [reflexivity|].
           intros _ g' E'. injection E' as <-. eauto.
      * eexists. split; [reflexivity|]. split; [reflexivity|].
        intros _ g' E'. injection E' as <-. eauto.
    + exists e. simpl. split; [reflexivity|]. split; [reflexivity|].
      intros _ g' E'. discriminate.
  - intros g Hn Hc Hk Hi. unfold add_schedule.
    apply negb_true_iff in Hn. rewrite Hn, Hc.
    pose proof (coerce_kind_valid f g Hc) as Hkg.
    destruct (coerce_columns_ok f g Hc) as [Hg [Hch [_ [_ [Hig [_ [Htn [Hty Hlb]]]]]]]].
    unfold check_constraints.
    assert (Hv : valid_interval (f_interval_hours g) = true)
      by (apply Z.ltb_lt; rewrite Hig; exact Hi).
    rewrite Hv, Hkg, Hk. simpl.
    eexists. split; [reflexivity|]. cbn [id active last_run schedule_type interval_hours
      guild_id channel_ids target_name lookback_duration].
    split; [reflexivity|]. split; [reflexivity|]. split; [reflexivity|].
    split; [apply coerce_kind_same; assumption|].
    split; [exact Hig|]. split; [exact Hg|]. split; [exact Hch|].
    split; [exact Htn|]. split; [exact Hlb|].
    intros Hall Hin. apply in_map_iff in Hin. destruct Hin as [r [Hr Hin]].
    rewrite Forall_forall in Hall. specialize (Hall r Hin). lia.
  - intro Hn. apply negb_false_iff in Hn. unfold add_schedule. rewrite Hn. reflexivity.
Qed.

End StoreProofs.

(** ** listActive *)
Module ListActiveProofs.
Import PyStr Store.

(** C8 (as amended): a result of [get_all_active_schedules] holds exactly
    the active rows (of the given guild when the guild id is truthy), as
    many as there are; it is ordered by start time when filtered by guild
    and by [(guild_id, start_time)] otherwise; the order among rows with
    equal keys is not fixed by the query. *)
Theorem get_all_active_schedules_spec (rs : list Row) (guild : option Z)
    (res : list Row) :
  get_all_active_schedules rs guild res ->
  (forall r, In r res <->
     In r rs /\ active r = true /\
     match guild_filter guild with Some g => guild_id r = g | None => True end) /\
  match guild_filter guild with
  | Some g => Sorted start_le res /\
              length res = length (filter (fun r => active r && (guild_id r =? g)) rs)
  | None => Sorted guild_start_le res /\ length res = length (filter active rs)
  end.
Proof.
  unfold get_all_active_schedules.
  destruct (guild_filter guild) as [g|]; intros [Hp Hs].
  - split; [|split; [exact Hs | apply Permutation_length, Hp]].
    intro r. split.
    + intro Hin. apply (Permutation_in _ Hp), filter_In in Hin.
      destruct Hin as [Hin Hf]. apply andb_prop in Hf. destruct Hf as [Ha Hg].
      apply Z.eqb_eq in Hg. auto.
    + intros [Hin [Ha Hg]]. apply (Permutation_in _ (Permutation_sym Hp)), filter_In.
      split; [exact Hin|]. rewrite Ha, Hg, Z.eqb_refl. reflexivity.
  - split; [|split; [exact Hs | apply Permutation_length, Hp]].
    intro r. split.
    + intro Hin. apply (Permutation_in _ Hp), filter_In in Hin. tauto.
    + intros [Hin [Ha _]]. apply (Permutation_in _ (Permutation_sym Hp)), filter_In. auto.
Qed.

Lemma get_all_active_schedules_spec_witness :
  get_all_active_schedules [Samples.row_at 1 1 8; Samples.row_at 2 1 10] (Some 1)
    [Samples.row_at 1 1 8; Samples.row_at 2 1 10] /\
  length [Samples.row_at 1 1 8; Samples.row_at 2 1 10] = 2%nat.
Proof.
  assert (H : get_all_active_schedules [Samples.row_at 1 1 8; Samples.row_at 2 1 10]
                (Some 1) [Samples.row_at 1 1 8; Samples.row_at 2 1 10]).
  { split; [reflexivity|]. repeat constructor. unfold start_le. simpl. lia. }
  split; [exact H|].
  exact (proj2 (proj2 (get_all_active_schedules_spec _ (Some 1) _ H))).
Defined.

(** C8 as stated fails: without a guild filter the rows come ordered by
    guild first (a 10:00 row of guild 1 precedes an 08:00 row of guild 2),
    and with a filter two rows with the same start time may come in the
    reverse of their insertion order. *)
Lemma get_all_active_schedules_order_cex :
  (forall res,
     get_all_active_schedules [Samples.row_at 1 2 8; Samples.row_at 2 1 10] None res ->
     res = [Samples.row_at 2 1 10; Samples.row_at 1 2 8]) /\
  ~ Sorted start_le [Samples.row_at 2 1 10; Samples.row_at 1 2 8] /\
  get_all_active_schedules [Samples.row_at 3 1 9; Samples.row_at 4 1 9] (Some 1)
    [Samples.row_at 4 1 9; Samples.row_at 3 1 9].
Proof.
  split; [|split].
  - intros res [Hp Hs]. simpl in Hp.
    apply Permutation_sym, Permutation_length_2_inv in Hp as [->| ->]; [|reflexivity].
    exfalso. inversion Hs as [|a l Hs' Hhd]; subst.
    inversion Hhd as [|b l' Hr]; subst. unfold guild_start_le in Hr. simpl in Hr. lia.
  - intro Hs. inversion Hs as [|a l Hs' Hhd]; subst.
    inversion Hhd as [|b l' Hr]; subst. unfold start_le in Hr. simpl in Hr. lia.
  - split; [simpl; apply perm_swap|]. repeat constructor. unfold start_le. simpl. lia.
Qed.

End ListActiveProofs.

(** ** First-fire wait *)
Module WaitProofs.
Import Wait.

(** The computed wake-up instant agrees with the intended next occurrence
    whenever [localize] gives the same offset to the chosen day's start and
    to the next day's start (no offset change in between). *)
Lemma wait_until_start_time_same_offset (start_time : Z) (tz : Tz) (now_utc : Z) :
  let now := datetime_now tz now_utc in
  let naive := wall (localize_today tz now start_time) in
  localize_offset tz (naive + SEC_DAY) = localize_offset tz naive ->
  wait_until_start_time start_time tz now_utc = spec_next_start_instant start_time tz now_utc.
Proof.
  cbv zeta. intro Hoff.
  unfold wait_until_start_time, spec_next_start_instant.
  assert (Hnow : instant (datetime_now tz now_utc) = now_utc)
    by (unfold instant, datetime_now; simpl; lia).
  rewrite Hnow.
  destruct (instant (localize_today tz (datetime_now tz now_utc) start_time) <=? now_utc);
    [|reflexivity].
  unfold add_days, instant. cbn zeta. cbn [wall offset]. rewrite Hoff.
  unfold localize_today. cbn [wall offset]. lia.
Qed.

(** C7: at 10:00 EST on 2024-03-09 in America/New_York, with a 09:00 start
    time, today's start has passed; the intended target is 09:00 EDT on
    2024-03-10 (13:00 UTC, instant 1710075600), but the code adds one day to
    the EST-localized datetime and sleeps until 14:00 UTC (instant
    1710079200), 10:00 EDT, an hour late. *)
Lemma wait_until_start_time_dst_cex :
  wait_until_start_time 32400 new_york_2024_spring 1709996400 = 1710079200 /\
  spec_next_start_instant 32400 new_york_2024_spring 1709996400 = 1710075600.
Proof. split; vm_compute; reflexivity. Qed.

End WaitProofs.

(** ** One scheduled run *)
Module RuntimeProofs.
Import PyStr Fetcher Store Runtime.

Definition no_update (tr : list event) : Prop :=
  forall i, ~ In (LastRunUpdated i) tr.

(** A computation that only appends events other than [LastRunUpdated]. *)
Definition quiet {A} (m : M A) : Prop :=
  forall tr, exists ext, snd (m tr) = tr ++ ext /\ no_update ext.

Lemma no_update_nil : no_update [].
Proof. intros i H. exact H. Qed.

Lemma no_update_app (a b : list event) : no_update a -> no_update b -> no_update (a ++ b).
Proof. intros Ha Hb i H. apply in_app_or in H as [H|H]; [exact (Ha i H)|exact (Hb i H)]. Qed.

Lemma quiet_ret {A} (a : A) : quiet (ret a).
Proof. intro tr. exists []. split; [symmetry; apply app_nil_r|apply no_update_nil]. Qed.

Lemma quiet_raise {A} : quiet (@raise A).
Proof. intro tr. exists []. split; [symmetry; apply app_nil_r|apply no_update_nil]. Qed.

Lemma quiet_lift_option {A} (o : option A) : quiet (lift_option o).
Proof. destruct o; [apply quiet_ret|apply quiet_raise]. Qed.

Lemma quiet_emit (e : event) : (forall i, e <> LastRunUpdated i) -> quiet (emit e).
Proof.
  intros He tr. exists [e]. split; [reflexivity|].
  intros i [H|[]]. exact (He i H).
Qed.

Lemma quiet_bind {A B} (m : M A) (k : A -> M B) :
  quiet m -> (forall a, quiet (k a)) -> quiet (bind m k).
Proof.
  intros Hm Hk tr. unfold bind.
  destruct (Hm tr) as [e1 [H1 N1]].
  destruct (m tr) as [[a|] tr'] eqn:E; simpl in H1; subst tr'.
  - destruct (Hk a (tr ++ e1)) as [e2 [H2 N2]]. rewrite H2.
    exists (e1 ++ e2). split; [symmetry; apply app_assoc|apply no_update_app; assumption].
  - exists e1. split; [reflexivity|exact N1].
Qed.

Lemma quiet_send env chan text : quiet (send env chan text).
Proof.
  unfold send. destruct (env_send_ok env (ch_id chan)); [|apply quiet_raise].
  apply quiet_emit. discriminate.
Qed.

Lemma quiet_send_all env chan msgs : quiet (send_all env chan msgs).
Proof.
  induction msgs as [|m r IH]; simpl; [apply quiet_ret|].
  apply quiet_bind; [apply quiet_send|intros _; exact IH].
Qed.

Lemma quiet_summary_requested : quiet (emit SummaryRequested).
Proof. apply quiet_emit. discriminate. Qed.

Lemma quiet_llm_call env instr content : quiet (llm_call env instr content).
Proof. unfold llm_call. destruct (env_llm_raises env instr content); [apply quiet_raise|apply quiet_ret]. Qed.

Lemma quiet_get_summary_m env messages : quiet (get_summary_m env messages).
Proof.
  unfold get_summary_m. apply quiet_bind; [|intros; apply quiet_ret].
  destruct (env_build_flat env messages); [apply quiet_ret|apply quiet_llm_call].
Qed.

Lemma quiet_get_sectioned_summary_m env d : quiet (get_sectioned_summary_m env d).
Proof.
  unfold get_sectioned_summary_m. apply quiet_bind; [|intros; apply quiet_ret].
  destruct d; [apply quiet_ret|].
  destruct (env_build_sectioned env _); [apply quiet_ret|apply quiet_llm_call].
Qed.

Lemma quiet_run_channel_summary env guild cid cutoff out name lookback :
  quiet (run_channel_summary env guild cid cutoff out name lookback).
Proof.
  unfold run_channel_summary. destruct (get_channel guild cid) as [ch|]; [|apply quiet_send].
  apply quiet_bind; [apply quiet_lift_option|].
  intros [|m r]; [apply quiet_ret|].
  apply quiet_bind; [apply quiet_summary_requested|intros _].
  apply quiet_bind; [apply quiet_get_summary_m|intros; apply quiet_send_all].
Qed.

Lemma quiet_collect_category guild cutoff ids acc :
  quiet (collect_category guild cutoff ids acc).
Proof.
  revert acc. induction ids as [|cid r IH]; intro acc; simpl; [apply quiet_ret|].
  destruct (get_channel guild cid) as [ch|]; [|apply IH].
  apply quiet_bind; [apply quiet_lift_option|].
  intros [|m ms]; apply IH.
Qed.

Lemma quiet_run_category_summary env guild ids cutoff out name lookback :
  quiet (run_category_summary env guild ids cutoff out name lookback).
Proof.
  unfold run_category_summary. apply quiet_bind; [apply quiet_collect_category|].
  intros [|p r]; [apply quiet_ret|].
  apply quiet_bind; [apply quiet_summary_requested|intros _].
  apply quiet_bind; [apply quiet_get_sectioned_summary_m|intros; apply quiet_send_all].
Qed.

(** The summary step chosen by the schedule type, before the store update. *)
Definition summary_step (env : Env) (s : Row) (guild : list Channel) (out : Channel)
    (cutoff : Z) : M unit :=
  if str_eqb (schedule_type s) (lit "channel") then
    first <- lift_option (hd_error (channel_ids s)) ;;
    run_channel_summary env guild first cutoff out (target_name s) (lookback_duration s)
  else if str_eqb (schedule_type s) (lit "category") then
    run_category_summary env guild (channel_ids s) cutoff out (target_name s)
      (lookback_duration s)
  else ret tt.

Lemma quiet_summary_step env s guild out cutoff : quiet (summary_step env s guild out cutoff).
Proof.
  unfold summary_step.
  destruct (str_eqb (schedule_type s) (lit "channel")).
  - apply quiet_bind; [apply quiet_lift_option|intros; apply quiet_run_channel_summary].
  - destruct (str_eqb (schedule_type s) (lit "category"));
      [apply quiet_run_category_summary|apply quiet_ret].
Qed.

(** The body unfolded: after the guild, output-channel, lookback and cutoff
    checks, the summary step, then the store update when the step returned. *)
Lemma run_scheduled_summary_body_eq (env : Env) (s : Row) :
  run_scheduled_summary_body env s [] =
  match get_guild env (guild_id s) with
  | None => (Some tt, [])
  | Some guild =>
      match get_channel guild (output_channel_id s) with
      | None => (Some tt, [])
      | Some out =>
          match Duration.parse_duration (lookback_duration s) with
          | Duration.Overflow => (None, [])
          | Duration.IntDigitsLimit => (None, [])
          | Duration.Td delta =>
              if delta =? 0 then (Some tt, [])
              else if datetime_min_unix <=? env_now env - delta then
                match summary_step env s guild out (env_now env - delta) [] with
                | (Some _, tr) =>
                    if env_db_ok env then (Some tt, tr ++ [LastRunUpdated (id s)])
                    else (None, tr)
                | (None, tr) => (None, tr)
                end
              else (None, [])
          end
      end
  end.
Proof.
  unfold run_scheduled_summary_body.
  destruct (get_guild env (guild_id s)) as [guild|]; [|reflexivity].
  destruct (get_channel guild (output_channel_id s)) as [out|]; [|reflexivity].
  destruct (Duration.parse_duration (lookback_duration s)) as [delta| |]; try reflexivity.
  destruct (delta =? 0); [reflexivity|].
  unfold bind at 1, sub_timedelta.
  destruct (datetime_min_unix <=? env_now env - delta); [|reflexivity].
  unfold ret at 1. fold (summary_step env s guild out (env_now env - delta)).
  unfold bind. destruct (summary_step env s guild out (env_now env - delta) [])
    as [[[]|] tr]; [|reflexivity].
  destruct (env_db_ok env); reflexivity.
Qed.

Lemma run_scheduled_summary_snd (env : Env) (s : Row) :
  run_scheduled_summary env s = snd (run_scheduled_summary_body env s []).
Proof.
  unfold run_scheduled_summary, run_scheduled_summary_m, try_except.
  destruct (run_scheduled_summary_body env s []) as [[]tr]; reflexivity.
Qed.

(** A lookback of 800000 days reaches back before [datetime.min] from the
    sample instant: computing the cutoff raises, and nothing is updated. *)
Lemma run_scheduled_summary_cutoff_overflow_sample :
  Duration.parse_duration (lit "800000d") = Duration.Td (800000 * 86400) /\
  run_scheduled_summary RuntimeSamples.env_quiet_source
    (mkRow 7 1 [10] (lit "general") (lit "channel") 20 (9 * 3600) 24 (lit "800000d")
       None 0 7 true None) = [].
Proof. split; vm_compute; reflexivity. Qed.

(** C1 as it holds: a run stopped by a missing guild, a missing output
    channel or an empty lookback leaves [last_run] alone, and so does a run
    that raises: an over-long or out-of-range lookback, a cutoff before
    [datetime.min], a failed fetch, send or model call, or a failed store
    update.  A run updates [last_run] exactly when those checks pass and the
    channel or category step returns normally and the store accepts the
    update, and then only of its own schedule.  So a channel run whose fetch
    returns no message updates [last_run] without requesting a summary, and
    a channel run whose source channel cannot be resolved posts a warning
    and then updates [last_run]. *)
Theorem run_scheduled_summary_last_run (env : Env) (s : Row) :
  ((get_guild env (guild_id s) = None \/
    (exists g, get_guild env (guild_id s) = Some g /\
               get_channel g (output_channel_id s) = None) \/
    Duration.parse_duration (lookback_duration s) = Duration.Td 0) ->
   run_scheduled_summary env s = []) /\
  run_scheduled_summary env s = snd (run_scheduled_summary_body env s []) /\
  (fst (run_scheduled_summary_body env s []) = None ->
   forall i, ~ In (LastRunUpdated i) (run_scheduled_summary env s)) /\
  (forall i, In (LastRunUpdated i) (run_scheduled_summary env s) <->
   i = id s /\
   exists g out delta,
     get_guild env (guild_id s) = Some g /\
     get_channel g (output_channel_id s) = Some out /\
     Duration.parse_duration (lookback_duration s) = Duration.Td delta /\
     delta <> 0 /\ datetime_min_unix <= env_now env - delta /\
     fst (summary_step env s g out (env_now env - delta) []) = Some tt /\
     env_db_ok env = true) /\
  (forall g out delta cid rest ch,
   get_guild env (guild_id s) = Some g ->
   get_channel g (output_channel_id s) = Some out ->
   Duration.parse_duration (lookback_duration s) = Duration.Td delta -> delta <> 0 ->
   datetime_min_unix <= env_now env - delta ->
   schedule_type s = lit "channel" -> channel_ids s = cid :: rest ->
   get_channel g cid = Some ch ->
   fetch_messages_with_threads ch (env_now env - delta) = Some [] ->
   env_db_ok env = true ->
   run_scheduled_summary env s = [LastRunUpdated (id s)]) /\
  (forall g out delta cid rest,
   get_guild env (guild_id s) = Some g ->
   get_channel g (output_channel_id s) = Some out ->
   Duration.parse_duration (lookback_duration s) = Duration.Td delta -> delta <> 0 ->
   datetime_min_unix <= env_now env - delta ->
   schedule_type s = lit "channel" -> channel_ids s = cid :: rest ->
   get_channel g cid = None ->
   env_send_ok env (ch_id out) = true -> env_db_ok env = true ->
   run_scheduled_summary env s =
     [Sent (ch_id out) (lit "Could not find channel for scheduled summary: " ++ target_name s);
      LastRunUpdated (id s)]).
Proof.
  split; [|split; [|split; [|split; [|split]]]].
  - intros [H|[[g [Hg H]]|H]]; rewrite run_scheduled_summary_snd, run_scheduled_summary_body_eq.
    + rewrite H. reflexivity.
    + rewrite Hg, H. reflexivity.
    + destruct (get_guild env (guild_id s)) as [g|]; [|reflexivity].
      destruct (get_channel g (output_channel_id s)); [|reflexivity].
      rewrite H. reflexivity.
  - apply run_scheduled_summary_snd.
  - rewrite run_scheduled_summary_snd, run_scheduled_summary_body_eq. intros Hf i Hin.
    destruct (get_guild env (guild_id s)) as [g|]; [|destruct Hin].
    destruct (get_channel g (output_channel_id s)) as [out|]; [|destruct Hin].
    destruct (Duration.parse_duration (lookback_duration s)) as [delta| |];
      [|destruct Hin|destruct Hin].
    destruct (delta =? 0); [destruct Hin|].
    destruct (datetime_min_unix <=? env_now env - delta); [|destruct Hin].
    destruct (quiet_summary_step env s g out (env_now env - delta) []) as [ext [Hext Next]].
    destruct (summary_step env s g out (env_now env - delta) []) as [[[]|] tr];
      simpl in Hext; subst tr.
    + destruct (env_db_ok env); [discriminate|exact (Next i Hin)].
    + exact (Next i Hin).
  - intro i. rewrite run_scheduled_summary_snd, run_scheduled_summary_body_eq. split.
    + intro Hin.
      destruct (get_guild env (guild_id s)) as [g|] eqn:Hg; [|destruct Hin].
      destruct (get_channel g (output_channel_id s)) as [out|] eqn:Ho; [|destruct Hin].
      destruct (Duration.parse_duration (lookback_duration s)) as [delta| |] eqn:Hp;
        [|destruct Hin|destruct Hin].
      destruct (delta =? 0) eqn:Hd; [destruct Hin|].
      destruct (datetime_min_unix <=? env_now env - delta) eqn:Hc; [|destruct Hin].
      destruct (quiet_summary_step env s g out (env_now env - delta) []) as [ext [Hext Next]].
      destruct (summary_step env s g out (env_now env - delta) []) as [[[]|] tr] eqn:Hs;
        simpl in Hext; subst tr.
      * destruct (env_db_ok env) eqn:Hdb; [|exact (False_ind _ (Next i Hin))].
        apply in_app_or in Hin as [Hin|[Hin|[]]]; [exact (False_ind _ (Next i Hin))|].
        injection Hin as <-. split; [reflexivity|].
        exists g, out, delta. apply Z.eqb_neq in Hd. apply Z.leb_le in Hc.
        rewrite Hs. repeat split; assumption.
      * exact (False_ind _ (Next i Hin)).
    + intros [-> [g [out [delta [Hg [Ho [Hp [Hd [Hc [Hs Hdb]]]]]]]]]].
      rewrite Hg, Ho, Hp. apply Z.eqb_neq in Hd. rewrite Hd.
      apply Z.leb_le in Hc. rewrite Hc.
      destruct (summary_step env s g out (env_now env - delta) []) as [[[]|] tr];
        simpl in Hs; [|discriminate].
      rewrite Hdb. apply in_or_app. right. left. reflexivity.
  - intros g out delta cid rest ch Hg Ho Hp Hd Hc Ht Hids Hch Hf Hdb.
    rewrite run_scheduled_summary_snd, run_scheduled_summary_body_eq, Hg, Ho, Hp.
    apply Z.eqb_neq in Hd. rewrite Hd. apply Z.leb_le in Hc. rewrite Hc.
    unfold summary_step. rewrite Ht, Hids. cbn -[run_channel_summary].
    unfold run_channel_summary, fetch. rewrite Hch, Hf. cbn. rewrite Hdb. reflexivity.
  - intros g out delta cid rest Hg Ho Hp Hd Hc Ht Hids Hch Hs Hdb.
    rewrite run_scheduled_summary_snd, run_scheduled_summary_body_eq, Hg, Ho, Hp.
    apply Z.eqb_neq in Hd. rewrite Hd. apply Z.leb_le in Hc. rewrite Hc.
    unfold summary_step. rewrite Ht, Hids. cbn -[run_channel_summary].
    unfold run_channel_summary. rewrite Hch. unfold send. rewrite Hs. cbn. rewrite Hdb.
    reflexivity.
Qed.

(** C1 as stated fails: a channel run over a source with no message since
    the cutoff requests no summary and posts nothing, yet updates
    [last_run]; a run whose source channel does not resolve posts only a
    warning and updates [last_run] as well. *)
Lemma run_scheduled_summary_last_run_cex :
  run_scheduled_summary RuntimeSamples.env_quiet_source (Samples.row_at 7 1 9) =
    [LastRunUpdated 7] /\
  run_scheduled_summary RuntimeSamples.env_missing_source (Samples.row_at 7 1 9) =
    [Sent 20 (lit "Could not find channel for scheduled summary: general");
     LastRunUpdated 7].
Proof. split; vm_compute; reflexivity. Qed.

End RuntimeProofs.

(** ** Helpers of [utils.py] *)
Module UtilsProofs.
Import PyStr PyStrFacts Utils.

Ltac all_chars := intros [[] [] [] [] [] [] [] []]; vm_compute; reflexivity.

(** *** Day lists *)

Lemma split_on_nonempty (sep : ascii) (s : str) : split_on sep s <> [].
Proof.
  induction s as [|c r IH]; simpl; [discriminate|].
  destruct (Ascii.eqb c sep); [discriminate|].
  destruct (split_on sep r); discriminate.
Qed.

Lemma collect_days_none (days : list Z) (parts : list str) :
  collect_days days parts = None <-> Exists (fun p => day_lookup p = None) parts.
Proof.
  revert days. induction parts as [|p r IH]; intro days; simpl.
  - split; [discriminate|intro H; inversion H].
  - destruct (day_lookup p) as [d|] eqn:E.
    + rewrite Exists_cons. destruct (existsb (Z.eqb d) days); rewrite IH;
        split; [tauto| intros [H|H]; [congruence|exact H]|tauto|
                intros [H|H]; [congruence|exact H]].
    + split; [intros _; constructor; exact E|reflexivity].
Qed.

Lemma collect_days_some (days : list Z) (parts : list str) (l : list Z) :
  collect_days days parts = Some l ->
  NoDup days ->
  NoDup l /\
  (forall x, In x l <-> In x days \/ exists p, In p parts /\ day_lookup p = Some x).
Proof.
  revert days. induction parts as [|p r IH]; intros days H Hnd; simpl in H.
  - injection H as <-. split; [exact Hnd|]. intro x. split; [tauto|].
    intros [Hx|[p [[] _]]]. exact Hx.
  - destruct (day_lookup p) as [d|] eqn:E; [|discriminate].
    destruct (existsb (Z.eqb d) days) eqn:Ex.
    + destruct (IH _ H Hnd) as [Hl Hin]. split; [exact Hl|]. intro x. rewrite Hin.
      apply existsb_exists in Ex. destruct Ex as [y [Hy Hyd]]. apply Z.eqb_eq in Hyd. subst y.
      split.
      * intros [Hx|[q [Hq Hqx]]]; [left; exact Hx|right; exists q; split; [right|]; assumption].
      * intros [Hx|[q [[<-|Hq] Hqx]]]; [left; exact Hx| |right; exists q; split; assumption].
        left. rewrite E in Hqx. injection Hqx as <-. exact Hy.
    + assert (Hnd' : NoDup (days ++ [d])).
      { apply NoDup_app; [exact Hnd|constructor; [intros []|constructor]|].
        intros x Hx [Hdx|[]]. subst x. assert (existsb (Z.eqb d) days = true) as Hc.
        { apply existsb_exists. exists d. split; [exact Hx|apply Z.eqb_refl]. }
        congruence. }
      destruct (IH _ H Hnd') as [Hl Hin]. split; [exact Hl|]. intro x. rewrite Hin.
      rewrite in_app_iff. simpl. split.
      * intros [[Hx|[<-|[]]]|[q [Hq Hqx]]].
        -- left. exact Hx.
        -- right. exists p. split; [left; reflexivity|exact E].
        -- right. exists q. split; [right; exact Hq|exact Hqx].
      * intros [Hx|[q [[<-|Hq] Hqx]]].
        -- left. left. exact Hx.
        -- left. right. left. rewrite E in Hqx. injection Hqx as <-. reflexivity.
        -- right. exists q. split; assumption.
Qed.

Lemma insert_z_perm (x : Z) (l : list Z) : Permutation (insert_z x l) (x :: l).
Proof.
  induction l as [|y t IH]; simpl; [reflexivity|].
  destruct (x <=? y); [reflexivity|].
  rewrite IH. apply perm_swap.
Qed.

Lemma sort_z_perm (l : list Z) : Permutation (sort_z l) l.
Proof.
  induction l as [|x t IH]; simpl; [reflexivity|].
  rewrite insert_z_perm. apply perm_skip. exact IH.
Qed.

Lemma insert_z_sorted (x : Z) (l : list Z) : Sorted Z.le l -> Sorted Z.le (insert_z x l).
Proof.
  induction 1 as [|y t Hs IH Hhd]; simpl; [repeat constructor|].
  destruct (Z.leb_spec x y).
  - constructor; [constructor; assumption|constructor; assumption].
  - constructor; [exact IH|].
    destruct t as [|z t]; simpl; [constructor; lia|].
    destruct (x <=? z); constructor; [lia|inversion Hhd; assumption].
Qed.

Lemma sort_z_sorted (l : list Z) : Sorted Z.le (sort_z l).
Proof. induction l; simpl; [constructor|apply insert_z_sorted; assumption]. Qed.

Lemma sorted_le_nodup_lt (l : list Z) : Sorted Z.le l -> NoDup l -> Sorted Z.lt l.
Proof.
  induction 1 as [|a t Hs IH Hhd]; intro Hnd; [constructor|].
  inversion Hnd as [|a' t' Hnin Hnd']; subst.
  constructor; [exact (IH Hnd')|].
  destruct Hhd as [|b t' Hab]; constructor.
  assert (a <> b) by (intros ->; apply Hnin; left; reflexivity). lia.
Qed.

Lemma day_lookup_range (p : str) (x : Z) : day_lookup p = Some x -> 0 <= x <= 6.
Proof.
  unfold day_lookup. destruct (find _ day_map) as [[k v]|] eqn:E; [|discriminate].
  simpl. intros [= <-]. apply find_some in E. destruct E as [E _].
  unfold day_map in E. simpl in E.
  repeat (destruct E as [E|E]; [injection E as _ <-; lia|]). destruct E.
Qed.

(** *** Excluded channels and category names *)

Lemma lower_char_idem (c : ascii) : Duration.lower_char (Duration.lower_char c) = Duration.lower_char c.
Proof. revert c. all_chars. Qed.

Lemma lower_idem (s : str) : Duration.lower (Duration.lower s) = Duration.lower s.
Proof.
  unfold Duration.lower. rewrite map_map.
  apply map_ext. apply lower_char_idem.
Qed.

Lemma is_prefix_app (p s t : str) : is_prefix p s = true -> is_prefix p (s ++ t) = true.
Proof.
  revert s. induction p as [|a p IH]; intros s H; [reflexivity|].
  destruct s as [|b s]; [discriminate|]. simpl in *.
  apply andb_prop in H. destruct H as [H1 H2]. rewrite H1, (IH _ H2). reflexivity.
Qed.

Lemma occursb_app_r (p s t : str) : occursb p s = true -> occursb p (s ++ t) = true.
Proof.
  induction s as [|c r IH]; intro H; simpl in *.
  - rewrite orb_false_r in H. destruct p; [destruct t; reflexivity|discriminate].
  - apply orb_true_iff in H. apply orb_true_iff. destruct H as [H|H].
    + left. apply (is_prefix_app p (c :: r) t). exact H.
    + right. exact (IH H).
Qed.

Lemma occursb_app_l (p s t : str) : occursb p t = true -> occursb p (s ++ t) = true.
Proof.
  induction s as [|c r IH]; intro H; simpl; [exact H|].
  rewrite (IH H). apply orb_true_r.
Qed.

Definition good (c : ascii) : bool :=
  is_word c || Ascii.eqb c " "%char || Ascii.eqb c "-"%char.

Lemma lower_char_good : forall c, implb (good c) (good (Duration.lower_char c)) = true.
Proof. all_chars. Qed.

Lemma lower_char_space : forall c, py_isspace (Duration.lower_char c) = py_isspace c.
Proof. all_chars. Qed.

Lemma good_space : forall c, implb (good c && py_isspace c) (Ascii.eqb c " "%char) = true.
Proof. all_chars. Qed.

Lemma good_kept : forall c,
  implb (good c) (is_word c || py_isspace c || Ascii.eqb c "-"%char) = true.
Proof. all_chars. Qed.

Lemma kept_nonspace_good : forall c,
  implb ((is_word c || py_isspace c || Ascii.eqb c "-"%char) && negb (py_isspace c)) (good c)
  = true.
Proof. all_chars. Qed.

Fixpoint no_ws_pair (s : str) : bool :=
  match s with
  | c :: ((d :: _) as r) => negb (py_isspace c && py_isspace d) && no_ws_pair r
  | _ => true
  end.

Lemma no_ws_pair_cons2 (c d : ascii) (t : str) :
  no_ws_pair (c :: d :: t) = negb (py_isspace c && py_isspace d) && no_ws_pair (d :: t).
Proof. reflexivity. Qed.

Lemma collapse_shape (b : bool) (s : str) :
  no_ws_pair (collapse_ws b s) = true /\
  (b = true -> forall c r, collapse_ws b s = c :: r -> py_isspace c = false).
Proof.
  revert b. induction s as [|c r IH]; intro b; simpl.
  - split; [reflexivity|discriminate].
  - destruct (py_isspace c) eqn:Ec.
    + destruct b.
      * exact (IH true).
      * split; [|discriminate].
        destruct (IH true) as [H1 H2].
        destruct (collapse_ws true r) as [|d t] eqn:E; [reflexivity|].
        rewrite no_ws_pair_cons2, (H2 eq_refl d t eq_refl), H1.
        destruct (py_isspace " "%char); reflexivity.
    + split; [|intros _ c' r' [= <- _]; exact Ec].
      destruct (IH false) as [H1 _].
      destruct (collapse_ws false r) as [|d t]; [reflexivity|].
      rewrite no_ws_pair_cons2, Ec, H1. reflexivity.
Qed.

Lemma collapse_in (b : bool) (s : str) (c : ascii) :
  In c (collapse_ws b s) -> c = " "%char \/ (In c s /\ py_isspace c = false).
Proof.
  revert b. induction s as [|d r IH]; intros b H; simpl in H; [destruct H|].
  destruct (py_isspace d) eqn:Ed.
  - destruct b; [destruct (IH _ H) as [H'|[H' H'']]; [left|right; split; [right|]]; assumption|].
    destruct H as [<-|H]; [left; reflexivity|].
    destruct (IH _ H) as [H'|[H' H'']]; [left|right; split; [right|]]; assumption.
  - destruct H as [<-|H]; [right; split; [left; reflexivity|exact Ed]|].
    destruct (IH _ H) as [H'|[H' H'']]; [left|right; split; [right|]]; assumption.
Qed.

Lemma no_ws_pair_app (x y : str) :
  no_ws_pair (x ++ y) = true -> no_ws_pair x = true /\ no_ws_pair y = true.
Proof.
  induction x as [|c r IH]; intro H; [split; [reflexivity|exact H]|].
  destruct r as [|d r'].
  - simpl in H. split; [reflexivity|].
    destruct y; [reflexivity|]. apply andb_prop in H. apply H.
  - change ((c :: d :: r') ++ y) with (c :: d :: (r' ++ y)) in H.
    rewrite no_ws_pair_cons2 in H. apply andb_prop in H. destruct H as [H1 H2].
    destruct (IH H2) as [H3 H4]. split; [|exact H4].
    rewrite no_ws_pair_cons2, H1, H3. reflexivity.
Qed.

Lemma lstrip_split (s : str) : exists a, s = a ++ lstrip s.
Proof.
  induction s as [|c r [a IH]]; simpl; [exists []; reflexivity|].
  destruct (py_isspace c); [exists (c :: a); simpl; f_equal; exact IH|exists []; reflexivity].
Qed.

Lemma strip_infix (s : str) : exists a b, s = a ++ strip s ++ b.
Proof.
  destruct (lstrip_split s) as [a Ha].
  destruct (lstrip_split (rev (lstrip s))) as [b Hb].
  exists a, (rev b). unfold strip, rstrip.
  rewrite Ha at 1. f_equal.
  transitivity (rev (rev (lstrip s))); [symmetry; apply rev_involutive|].
  rewrite Hb at 1. rewrite rev_app_distr. reflexivity.
Qed.

Lemma lstrip_snoc (x : str) (c : ascii) :
  py_isspace c = false -> lstrip (x ++ [c]) = lstrip x ++ [c].
Proof.
  intro Hc. induction x as [|d r IH]; simpl; [rewrite Hc; reflexivity|].
  destruct (py_isspace d); [exact IH|reflexivity].
Qed.

Lemma strip_ends (s : str) :
  lstrip (strip s) = strip s /\ lstrip (rev (strip s)) = rev (strip s).
Proof.
  unfold strip, rstrip. rewrite rev_involutive. split; [|apply lstrip_idem].
  destruct (lstrip s) as [|c r] eqn:E; [reflexivity|].
  assert (Hc : py_isspace c = false).
  { apply (lstrip_head c r). rewrite <- E. apply lstrip_idem. }
  simpl. rewrite lstrip_snoc by exact Hc. rewrite rev_app_distr. simpl.
  rewrite Hc. reflexivity.
Qed.

Lemma lstrip_lower (s : str) : lstrip (Duration.lower s) = Duration.lower (lstrip s).
Proof.
  induction s as [|c r IH]; simpl; [reflexivity|].
  rewrite lower_char_space. destruct (py_isspace c); [exact IH|reflexivity].
Qed.

Lemma no_ws_pair_lower (s : str) : no_ws_pair (Duration.lower s) = no_ws_pair s.
Proof.
  induction s as [|c r IH]; [reflexivity|].
  destruct r as [|d r']; [reflexivity|].
  change (Duration.lower (c :: d :: r')) with
    (Duration.lower_char c :: Duration.lower (d :: r')) in *.
  change (Duration.lower (d :: r')) with (Duration.lower_char d :: Duration.lower r') in *.
  rewrite !no_ws_pair_cons2, IH, !lower_char_space. reflexivity.
Qed.

Lemma collapse_fixed (b : bool) (s : str) :
  no_ws_pair s = true -> Forall (fun c => py_isspace c = true -> c = " "%char) s ->
  (b = true -> forall c r, s = c :: r -> py_isspace c = false) ->
  collapse_ws b s = s.
Proof.
  revert b. induction s as [|c r IH]; intros b Hp Hsp Hb; [reflexivity|].
  inversion Hsp as [|c' r' Hc Hr]; subst. simpl.
  destruct (py_isspace c) eqn:Ec.
  - destruct b; [rewrite (Hb eq_refl c r eq_refl) in Ec; discriminate|].
    rewrite (Hc eq_refl). f_equal. apply IH; [| exact Hr |].
    + destruct r; [reflexivity|]. rewrite no_ws_pair_cons2 in Hp. apply andb_prop in Hp. apply Hp.
    + intros _ d t ->. rewrite no_ws_pair_cons2 in Hp. apply andb_prop in Hp.
      destruct Hp as [Hp _]. rewrite Ec in Hp. destruct (py_isspace d); [discriminate|reflexivity].
  - f_equal. apply IH; [| exact Hr | discriminate].
    destruct r; [reflexivity|]. rewrite no_ws_pair_cons2 in Hp. apply andb_prop in Hp. apply Hp.
Qed.

(** *** Database URL *)

Lemma is_prefix_postgresql (x : str) : is_prefix DbUrl.POSTGRES (DbUrl.POSTGRESQL ++ x) = false.
Proof. reflexivity. Qed.

Lemma filter_all {A} (f : A -> bool) (l : list A) :
  Forall (fun x => f x = true) l -> filter f l = l.
Proof. induction 1 as [|x l Hx _ IH]; simpl; [reflexivity|]. rewrite Hx, IH. reflexivity. Qed.

Lemma normalize_fixed (w : str) :
  Forall (fun c => good c = true) w -> Duration.lower w = w -> no_ws_pair w = true ->
  lstrip w = w -> lstrip (rev w) = rev w ->
  normalize_category_name w = w.
Proof.
  intros Hg Hlow Hp Hl Hr. destruct w as [|c0 r0] eqn:Ew; [reflexivity|].
  rewrite <- Ew in *. unfold normalize_category_name. rewrite Ew. rewrite <- Ew.
  assert (Hd : drop_punct w = w).
  { apply filter_all. eapply Forall_impl; [|exact Hg]. intros c Hc.
    pose proof (good_kept c) as K. rewrite Hc in K. exact K. }
  rewrite Hd, collapse_fixed; [| exact Hp | | discriminate].
  - unfold strip, rstrip. rewrite Hl, Hr, rev_involutive. exact Hlow.
  - eapply Forall_impl; [|exact Hg]. intros c Hc Hs.
    pose proof (good_space c) as K. rewrite Hc, Hs in K. apply Ascii.eqb_eq. exact K.
Qed.

(** [utils.py], [parse_days_of_week]: the parser returns [None] exactly
    when the input is empty or one of its comma-separated parts (stripped
    and lower-cased) is not a day name or abbreviation of [day_map]; an
    empty part, as in ["Mon,,Wed"], is such a part. *)
Theorem parse_days_of_week_none (s : str) :
  parse_days_of_week s = None <->
  s = [] \/ Exists (fun p => day_lookup p = None) (day_parts s).
Proof.
  destruct s as [|c r]; [split; [left; reflexivity|reflexivity]|].
  unfold parse_days_of_week.
  destruct (collect_days [] (day_parts (c :: r))) as [days|] eqn:E.
  - assert (Hall : ~ Exists (fun p => day_lookup p = None) (day_parts (c :: r))).
    { intro Hx. apply (collect_days_none []) in Hx. congruence. }
    destruct days as [|x t].
    + exfalso. destruct (collect_days_some _ _ _ E (NoDup_nil _)) as [_ Hin].
      destruct (day_parts (c :: r)) as [|p ps] eqn:Ep.
      * unfold day_parts in Ep. apply map_eq_nil in Ep.
        exact (split_on_nonempty _ _ Ep).
      * destruct (day_lookup p) as [x|] eqn:Ex.
        -- apply (proj2 (Hin x)). right. exists p. split; [left; reflexivity|exact Ex].
        -- apply Hall. constructor. exact Ex.
    + split; [discriminate|]. intros [H|H]; [discriminate|contradiction].
  - split; [intros _; right; apply (proj1 (collect_days_none [] _)); exact E|reflexivity].
Qed.

(** [utils.py], [parse_days_of_week]: a returned list is strictly
    increasing (sorted, without duplicates), holds only day numbers 0-6,
    and holds exactly the days named by the input's parts, however they are
    ordered, repeated or spelled (full name or abbreviation, any case,
    surrounding whitespace). *)
Theorem parse_days_of_week_some (s : str) (l : list Z) :
  parse_days_of_week s = Some l ->
  Sorted Z.lt l /\
  (forall x, In x l <-> exists p, In p (day_parts s) /\ day_lookup p = Some x) /\
  Forall (fun x => 0 <= x <= 6) l.
Proof.
  intro H. destruct s as [|c r]; [discriminate|]. unfold parse_days_of_week in H.
  destruct (collect_days [] (day_parts (c :: r))) as [days|] eqn:E; [|discriminate].
  destruct (collect_days_some _ _ _ E (NoDup_nil _)) as [Hnd Hin].
  assert (Hl : l = sort_z days) by (destruct days; congruence). subst l.
  assert (Hin' : forall x, In x (sort_z days) <->
                 exists p, In p (day_parts (c :: r)) /\ day_lookup p = Some x).
  { intro x. split.
    - intro Hx. apply (Permutation_in _ (sort_z_perm days)) in Hx. apply Hin in Hx.
      destruct Hx as [[]|Hx]. exact Hx.
    - intro Hx. apply (Permutation_in _ (Permutation_sym (sort_z_perm days))).
      apply Hin. right. exact Hx. }
  split; [|split; [exact Hin'|]].
  - apply sorted_le_nodup_lt; [apply sort_z_sorted|].
    apply (Permutation_NoDup (Permutation_sym (sort_z_perm days))). exact Hnd.
  - apply Forall_forall. intros x Hx. apply Hin' in Hx.
    destruct Hx as [p [_ Hp]]. exact (day_lookup_range p x Hp).
Qed.

Lemma parse_days_of_week_some_witness :
  parse_days_of_week (lit "Fri, mon,FRIDAY") = Some [0; 4] /\ Sorted Z.lt [0; 4].
Proof.
  assert (H : parse_days_of_week (lit "Fri, mon,FRIDAY") = Some [0; 4]) by (vm_compute; reflexivity).
  split; [exact H|].
  exact (proj1 (parse_days_of_week_some (lit "Fri, mon,FRIDAY") [0; 4] H)).
Defined.

(** [utils.py], [is_channel_excluded_from_summary]: the check ignores
    case (lower-casing the name first changes nothing), and a name that is
    excluded stays excluded whatever text is put before or after it. *)
Theorem is_channel_excluded_from_summary_infix :
  (forall n, is_channel_excluded_from_summary (Duration.lower n) =
             is_channel_excluded_from_summary n) /\
  (forall a n b, is_channel_excluded_from_summary n = true ->
                 is_channel_excluded_from_summary (a ++ n ++ b) = true).
Proof.
  split.
  - intros [|c r]; [reflexivity|].
    transitivity (existsb (fun pattern => occursb pattern (Duration.lower (Duration.lower (c :: r))))
                    SUMMARY_EXCLUDED_CHANNEL_PATTERNS); [reflexivity|].
    rewrite lower_idem. reflexivity.
  - intros a [|c r] b H; [discriminate|].
    unfold is_channel_excluded_from_summary in *.
    destruct (a ++ (c :: r) ++ b) as [|d t] eqn:E.
    { destruct a; discriminate. }
    rewrite <- E. apply existsb_exists in H. destruct H as [p [Hp Ho]].
    apply existsb_exists. exists p. split; [exact Hp|].
    unfold Duration.lower in *. rewrite !map_app.
    apply occursb_app_l, occursb_app_r. exact Ho.
Qed.

(** [utils.py], [normalize_category_name], on a name of Latin-1 characters
    (code points below 256, where [str.lower()] maps each character to one
    character): the result holds only word characters, spaces and hyphens,
    is lower-case, has no leading or trailing whitespace and no two
    whitespace characters in a row; hence normalising it again gives it
    back.  Beyond Latin-1 this can fail: ['\u0130'.lower()] is
    ['i\u0307'], whose second character is not a word character. *)
Theorem normalize_category_name_normal_form (name : str) :
  let w := normalize_category_name name in
  normalize_category_name w = w /\ Forall (fun c => good c = true) w /\
  Duration.lower w = w /\ no_ws_pair w = true /\
  lstrip w = w /\ lstrip (rev w) = rev w.
Proof.
  cbv zeta.
  assert (Hw : Forall (fun c => good c = true) (normalize_category_name name) /\
               Duration.lower (normalize_category_name name) = normalize_category_name name /\
               no_ws_pair (normalize_category_name name) = true /\
               lstrip (normalize_category_name name) = normalize_category_name name /\
               lstrip (rev (normalize_category_name name)) = rev (normalize_category_name name)).
  { destruct name as [|c0 r0]; [repeat split; constructor|].
    unfold normalize_category_name.
    set (u := collapse_ws false (drop_punct (c0 :: r0))).
    assert (Fu : Forall (fun c => good c = true) u).
    { apply Forall_forall. intros c Hc. apply collapse_in in Hc.
      destruct Hc as [->|[Hc Hs]]; [reflexivity|].
      apply filter_In in Hc. destruct Hc as [_ Hk].
      pose proof (kept_nonspace_good c) as K. rewrite Hk, Hs in K. exact K. }
    destruct (strip_infix u) as [a [b Hab]].
    destruct (strip_ends u) as [Hl Hr].
    assert (Nv : no_ws_pair (strip u) = true).
    { pose proof (proj1 (collapse_shape false (drop_punct (c0 :: r0)))) as N.
      fold u in N. rewrite Hab in N.
      apply no_ws_pair_app in N. destruct N as [_ N]. apply no_ws_pair_app in N. apply N. }
    assert (Fv : Forall (fun c => good c = true) (strip u)).
    { apply Forall_forall. intros c Hc. rewrite Forall_forall in Fu. apply Fu.
      rewrite Hab. apply in_or_app. right. apply in_or_app. left. exact Hc. }
    split; [|split; [|split; [|split]]].
    - unfold Duration.lower. apply Forall_map. eapply Forall_impl; [|exact Fv].
      intros c Hc. pose proof (lower_char_good c) as K. rewrite Hc in K. exact K.
    - apply lower_idem.
    - rewrite no_ws_pair_lower. exact Nv.
    - rewrite lstrip_lower, Hl. reflexivity.
    - unfold Duration.lower. rewrite <- map_rev. fold (Duration.lower (rev (strip u))).
      rewrite lstrip_lower, Hr. reflexivity. }
  destruct Hw as [Hg [Hlow [Hp [Hl Hr]]]].
  split; [apply normalize_fixed; assumption|].
  repeat split; assumption.
Qed.

(** [init_db.py], [get_database_url] (and [ScheduleStorage.__init__]):
    a URL given with the [postgres://] scheme comes back with the
    [postgresql://] scheme and the rest unchanged, any other non-empty URL
    comes back unchanged; the result never starts with [postgres://], so
    rewriting it again leaves it as it is. *)
Theorem get_database_url_normalized (u r : str) :
  DbUrl.get_database_url (Some u) = Some r ->
  is_prefix DbUrl.POSTGRES r = false /\ DbUrl.get_database_url (Some r) = Some r /\
  (is_prefix DbUrl.POSTGRES u = true -> r = DbUrl.POSTGRESQL ++ skipn 11 u) /\
  (is_prefix DbUrl.POSTGRES u = false -> r = u).
Proof.
  intro H. destruct u as [|c t]; [discriminate|].
  unfold DbUrl.get_database_url in H.
  destruct (is_prefix DbUrl.POSTGRES (c :: t)) eqn:E.
  - unfold DbUrl.replace_first in H. rewrite E in H. injection H as <-.
    split; [apply is_prefix_postgresql|]. split; [vm_compute; reflexivity|].
    split; [reflexivity|discriminate].
  - injection H as <-. split; [exact E|]. split.
    + unfold DbUrl.get_database_url. rewrite E. reflexivity.
    + split; [discriminate|reflexivity].
Qed.

Lemma get_database_url_normalized_witness :
  DbUrl.get_database_url (Some (lit "postgres://u@h/db")) = Some (lit "postgresql://u@h/db") /\
  DbUrl.get_database_url (Some (lit "postgresql://u@h/db")) = Some (lit "postgresql://u@h/db").
Proof.
  assert (H : DbUrl.get_database_url (Some (lit "postgres://u@h/db")) =
              Some (lit "postgresql://u@h/db")) by (vm_compute; reflexivity).
  split; [exact H|].
  exact (proj1 (proj2 (get_database_url_normalized _ _ H))).
Defined.

End UtilsProofs.

(** ** Message Chunker: length bound and content preservation *)
Module ChunkerExtraProofs.
Import PyStr PyStrFacts Chunker ChunkerProofs.

(** The non-whitespace characters of a text, in order. *)
Definition nonspace (s : str) : str := filter (fun c => negb (py_isspace c)) s.

Lemma rstrip_length (s : str) : (length (rstrip s) <= length s)%nat.
Proof.
  unfold rstrip. rewrite length_rev. pose proof (lstrip_length (rev s)).
  rewrite length_rev in H. exact H.
Qed.

Lemma nonspace_lstrip (s : str) : nonspace (lstrip s) = nonspace s.
Proof.
  induction s as [|c r IH]; simpl; [reflexivity|].
  destruct (py_isspace c) eqn:E; [exact IH|]. simpl. rewrite E. reflexivity.
Qed.

Lemma nonspace_rev (s : str) : nonspace (rev s) = rev (nonspace s).
Proof.
  induction s as [|c r IH]; simpl; [reflexivity|].
  unfold nonspace in *. rewrite filter_app, IH. simpl.
  destruct (negb (py_isspace c)); simpl; [reflexivity|apply app_nil_r].
Qed.

Lemma nonspace_rstrip (s : str) : nonspace (rstrip s) = nonspace s.
Proof.
  unfold rstrip. rewrite nonspace_rev, nonspace_lstrip, nonspace_rev. apply rev_involutive.
Qed.

Lemma nonspace_app (a b : str) : nonspace (a ++ b) = nonspace a ++ nonspace b.
Proof. apply filter_app. Qed.

Lemma nonspace_strip (s : str) : nonspace (strip s) = nonspace s.
Proof. unfold strip. rewrite nonspace_rstrip. apply nonspace_lstrip. Qed.

(** A successful [rfind] ends within the (normalised) search bound. *)
Lemma rfind_bound (sub text : str) (e : Z) :
  rfind sub text e = -1 \/
  (0 <= rfind sub text e /\
   (Z.to_nat (rfind sub text e) + length sub <= py_index e (length text))%nat).
Proof.
  unfold rfind.
  destruct (Nat.leb_spec (length sub) (py_index e (length text))) as [Hle|]; [|left; reflexivity].
  destruct (rfind_down sub text _) as [i|] eqn:R; [|left; reflexivity].
  right. apply rfind_down_some in R. destruct R as [Hi _]. rewrite Nat2Z.id. lia.
Qed.

Lemma py_index_le (k : Z) (n : nat) : 0 <= k -> (py_index k n <= Z.to_nat k)%nat.
Proof. intro H. unfold py_index. destruct (k <? 0) eqn:E; lia. Qed.

Lemma take_fst_le (text : str) (m : Z) :
  1 <= m -> Z.of_nat (length (fst (take_text_chunk text m))) <= m.
Proof.
  intro Hm. unfold take_text_chunk.
  destruct (Z.of_nat (length text) <=? m) eqn:E; [simpl; apply Z.leb_le; exact E|].
  apply Z.leb_gt in E. cbn [fst].
  assert (Hpm : py_index m (length text) = Z.to_nat m) by (apply py_index_in; lia).
  assert (Hk : forall k, 0 <= k <= m ->
            Z.of_nat (length (rstrip (slice_to text k))) <= m).
  { intros k Hk. pose proof (rstrip_length (slice_to text k)).
    unfold slice_to in H |- *. rewrite length_firstn in H.
    pose proof (py_index_le k (length text) ltac:(lia)). lia. }
  destruct (rfind PARA text m =? -1) eqn:Ea.
  - destruct (rfind LINE text m =? -1) eqn:Eb; [apply Hk; lia|].
    apply Z.eqb_neq in Eb. apply Hk.
    destruct (rfind_bound LINE text m) as [H|[H0 H1]]; [contradiction|].
    rewrite Hpm in H1. lia.
  - apply Z.eqb_neq in Ea. apply Hk.
    destruct (rfind_bound PARA text m) as [H|[H0 H1]]; [contradiction|].
    rewrite Hpm in H1. lia.
Qed.

Lemma take_nonspace (text : str) (m : Z) :
  nonspace (fst (take_text_chunk text m)) ++ nonspace (snd (take_text_chunk text m)) =
  nonspace text.
Proof.
  unfold take_text_chunk. destruct (_ <=? m); simpl; [apply app_nil_r|].
  rewrite nonspace_rstrip, nonspace_lstrip, <- nonspace_app.
  unfold slice_to, slice_from. rewrite firstn_skipn. reflexivity.
Qed.

Lemma nonspace_head (c : ascii) (r : str) :
  py_isspace c = false -> nonspace (c :: r) <> [].
Proof. intro H. unfold nonspace. simpl. rewrite H. discriminate. Qed.

(** A chunk taken from a non-empty text without leading whitespace holds a
    non-whitespace character. *)
Lemma take_fst_nonblank (text : str) (m : Z) :
  1 <= m -> text <> [] -> lstrip text = text ->
  nonspace (fst (take_text_chunk text m)) <> [].
Proof.
  intros Hm Hne Hs. destruct text as [|c r]; [contradiction|].
  pose proof (lstrip_head c r Hs) as Hc.
  assert (Hk : forall k, 1 <= k -> nonspace (rstrip (slice_to (c :: r) k)) <> []).
  { intros k Hk. rewrite nonspace_rstrip. unfold slice_to.
    destruct (py_index k (length (c :: r))) eqn:Ep.
    - unfold py_index in Ep. destruct (k <? 0) eqn:E; simpl in Ep; lia.
    - simpl. apply nonspace_head. exact Hc. }
  unfold take_text_chunk.
  destruct (_ <=? m); [simpl; apply nonspace_head; exact Hc|]. cbn [fst].
  unfold PARA, LINE.
  destruct (rfind [NL; NL] (c :: r) m =? -1) eqn:Ea.
  - destruct (rfind [NL] (c :: r) m =? -1) eqn:Eb; [apply Hk; lia|].
    apply Z.eqb_neq in Eb. apply Hk. apply (rfind_nl_pos [] (c :: r) m Hs Eb).
  - apply Z.eqb_neq in Ea. apply Hk. apply (rfind_nl_pos [NL] (c :: r) m Hs Ea).
Qed.

Lemma cont_loop_content (fuel : nat) (rem : str) (cm : Z) (l : list str) :
  1 <= cm -> lstrip rem = rem -> cont_loop fuel rem cm = Some l ->
  exists cs, l = map (fun c => cont_prefix ++ c) cs /\
             nonspace (concat cs) = nonspace rem /\
             Forall (fun c => nonspace c <> [] /\ Z.of_nat (length c) <= cm) cs.
Proof.
  revert rem l. induction fuel as [|f IH]; intros rem l Hcm Hs H.
  - destruct rem; [injection H as <-; exists []; repeat split; constructor|discriminate].
  - destruct rem as [|c r]; simpl in H.
    + injection H as <-. exists []. repeat split; constructor.
    + destruct (take_text_chunk (c :: r) cm) as [chunk rem'] eqn:T.
      destruct (cont_loop f rem' cm) as [l'|] eqn:L; [|discriminate].
      injection H as <-.
      assert (Hs' : lstrip rem' = rem').
      { pose proof (take_snd_stripped (c :: r) cm) as X. rewrite T in X. exact X. }
      destruct (IH rem' l' Hcm Hs' L) as [cs [-> [Hn Hf]]].
      exists (chunk :: cs). split; [reflexivity|]. split.
      * simpl. rewrite nonspace_app, Hn.
        pose proof (take_nonspace (c :: r) cm) as X. rewrite T in X. exact X.
      * constructor; [|exact Hf]. split.
        -- pose proof (take_fst_nonblank (c :: r) cm Hcm ltac:(discriminate) Hs) as X.
           rewrite T in X. exact X.
        -- pose proof (take_fst_le (c :: r) cm Hcm) as X. rewrite T in X. exact X.
Qed.

(** The shape of a successful [build_summary_messages] when the header
    leaves room for text. *)
Lemma build_summary_messages_shape (header summary : str) (max_len : Z) (msgs : list str) :
  Z.of_nat (length (strip header)) + 2 < max_len -> 22 < max_len ->
  build_summary_messages header summary max_len = Some msgs ->
  exists first rest,
    msgs = ((strip header ++ [NL; NL]) ++ first) :: map (fun c => cont_prefix ++ c) rest /\
    nonspace (first ++ concat rest) = nonspace summary /\
    Z.of_nat (length first) <= max_len - Z.of_nat (length (strip header)) - 2 /\
    Forall (fun c => nonspace c <> [] /\ Z.of_nat (length c) <= max_len - 22) rest.
Proof.
  intros Hh Hm H. unfold build_summary_messages, build_summary_messages_fuel in H.
  cbv zeta in H. rewrite length_app in H. cbn [length] in H.
  destruct (max_len - Z.of_nat (length (strip header) + 2) <=? 0) eqn:Ef;
    [apply Z.leb_le in Ef; lia|].
  destruct (take_text_chunk (strip summary) (max_len - Z.of_nat (length (strip header) + 2)))
    as [first rem] eqn:T.
  rewrite cont_prefix_length in H.
  destruct (cont_loop _ rem (max_len - Z.of_nat 22)) as [l|] eqn:L; [|discriminate].
  injection H as <-.
  assert (Hs : lstrip rem = rem).
  { pose proof (take_snd_stripped (strip summary) (max_len - Z.of_nat (length (strip header) + 2))) as X.
    rewrite T in X. exact X. }
  destruct (cont_loop_content _ rem (max_len - Z.of_nat 22) l ltac:(lia) Hs L)
    as [cs [-> [Hn Hf]]].
  exists first, cs. split; [reflexivity|]. split; [|split].
  - rewrite nonspace_app, Hn, <- (nonspace_strip summary).
    pose proof (take_nonspace (strip summary) (max_len - Z.of_nat (length (strip header) + 2))) as X.
    rewrite T in X. exact X.
  - pose proof (take_fst_le (strip summary) (max_len - Z.of_nat (length (strip header) + 2))
                  ltac:(lia)) as X.
    rewrite T in X. simpl in X. lia.
  - eapply Forall_impl; [|exact Hf]. intros c [H1 H2]. split; [exact H1|lia].
Qed.

(** [schedule_manager.py], [build_summary_messages]: for a limit above the
    continuation prefix's 22 characters, every message returned is at most
    [max_len] characters long, and there is at least one message. *)
Theorem build_summary_messages_bounded (header summary : str) (max_len : Z) (msgs : list str) :
  22 < max_len ->
  build_summary_messages header summary max_len = Some msgs ->
  msgs <> [] /\ Forall (fun m => Z.of_nat (length m) <= max_len) msgs.
Proof.
  intros Hm H.
  destruct (Z.ltb_spec (Z.of_nat (length (strip header)) + 2) max_len) as [Hh|Hh].
  - destruct (build_summary_messages_shape _ _ _ _ Hh Hm H) as [first [rest [-> [_ [Hf Hr]]]]].
    split; [discriminate|]. constructor.
    + rewrite !length_app. cbn [length]. lia.
    + apply Forall_map. eapply Forall_impl; [|exact Hr]. intros c [_ Hc].
      rewrite length_app, cont_prefix_length. lia.
  - unfold build_summary_messages, build_summary_messages_fuel in H. cbv zeta in H.
    rewrite length_app in H. cbn [length] in H.
    replace (max_len - Z.of_nat (length (strip header) + 2) <=? 0) with true in H
      by (symmetry; apply Z.leb_le; lia).
    injection H as <-. split; [discriminate|]. constructor; [|constructor].
    unfold slice_to. rewrite length_firstn. pose proof (py_index_le max_len (length (strip header))).
    lia.
Qed.

Lemma build_summary_messages_bounded_witness :
  22 < 2000 /\ Forall (fun m => Z.of_nat (length m) <= 2000)
    [lit "H" ++ [NL; NL] ++ repeat "a"%char 1997; cont_prefix ++ repeat "a"%char 1003].
Proof.
  split; [lia|].
  apply (proj2 (build_summary_messages_bounded (lit "H") (repeat "a"%char 3000) 2000 _
                  ltac:(lia) ltac:(vm_compute; reflexivity))).
Defined.

(** [schedule_manager.py], [build_summary_messages]: when the header
    leaves room for text, the messages are the header message
    ([header + "\n\n" + first]) followed by continuation messages
    (["Summary (continued):\n\n" + chunk]); the chunks carry every
    non-whitespace character of the summary, in order, none dropped or
    repeated (only whitespace at the cut points is lost), and no
    continuation message is blank. *)
Theorem build_summary_messages_content (header summary : str) (max_len : Z) (msgs : list str) :
  Z.of_nat (length (strip header)) + 2 < max_len -> 22 < max_len ->
  build_summary_messages header summary max_len = Some msgs ->
  exists first rest,
    msgs = ((strip header ++ [NL; NL]) ++ first) :: map (fun c => cont_prefix ++ c) rest /\
    nonspace (first ++ concat rest) = nonspace summary /\
    Forall (fun c => nonspace c <> []) rest.
Proof.
  intros Hh Hm H.
  destruct (build_summary_messages_shape _ _ _ _ Hh Hm H) as [first [rest [E [Hn [_ Hr]]]]].
  exists first, rest. split; [exact E|]. split; [exact Hn|].
  eapply Forall_impl; [|exact Hr]. intros c [Hc _]. exact Hc.
Qed.

Lemma build_summary_messages_content_witness :
  Z.of_nat (length (strip (lit "H"))) + 2 < 2000 /\
  exists first rest,
    build_summary_messages (lit "H") (repeat "a"%char 3000) 2000 =
      Some (((strip (lit "H") ++ [NL; NL]) ++ first) :: map (fun c => cont_prefix ++ c) rest) /\
    nonspace (first ++ concat rest) = nonspace (repeat "a"%char 3000).
Proof.
  split; [vm_compute; reflexivity|].
  destruct (build_summary_messages_content (lit "H") (repeat "a"%char 3000) 2000
              [lit "H" ++ [NL; NL] ++ repeat "a"%char 1997; cont_prefix ++ repeat "a"%char 1003]
              ltac:(vm_compute; reflexivity) ltac:(lia) ltac:(vm_compute; reflexivity))
    as [first [rest [E [Hn _]]]].
  exists first, rest. split; [rewrite <- E; vm_compute; reflexivity|exact Hn].
Defined.

End ChunkerExtraProofs.

(** ** History Fetcher: thread discovery *)
Module FetcherExtraProofs.
Import PyStr Fetcher.

Lemma collect_threads_spec (seen : list Z) (acc ts : list Thread) :
  (forall x, In x seen <-> In x (map th_id acc)) -> NoDup (map th_id acc) ->
  let res := collect_threads seen acc ts in
  (forall x, In x (fst res) <-> In x (map th_id (snd res))) /\
  NoDup (map th_id (snd res)) /\
  (forall t, In t (snd res) -> In t acc \/ In t ts) /\
  (forall t, In t acc \/ In t ts -> exists t', In t' (snd res) /\ th_id t' = th_id t).
Proof.
  revert seen acc. induction ts as [|t r IH]; intros seen acc Hs Hnd; cbv zeta; simpl.
  - split; [exact Hs|]. split; [exact Hnd|]. split; [intros t Ht; left; exact Ht|].
    intros t [Ht|[]]. exists t. split; [exact Ht|reflexivity].
  - destruct (existsb (Z.eqb (th_id t)) seen) eqn:E.
    + destruct (IH seen acc Hs Hnd) as [H1 [H2 [H3 H4]]]. cbv zeta in *.
      split; [exact H1|]. split; [exact H2|]. split.
      * intros u Hu. destruct (H3 u Hu) as [Hu'|Hu']; [left|right; right]; assumption.
      * intros u [Hu|[<-|Hu]]; [apply H4; left; exact Hu| |apply H4; right; exact Hu].
        apply existsb_exists in E. destruct E as [x [Hx Hxe]]. apply Z.eqb_eq in Hxe.
        apply Hs in Hx. apply in_map_iff in Hx. destruct Hx as [v [Hv Hvin]].
        destruct (H4 v (or_introl Hvin)) as [w [Hw Hwe]]. exists w. split; [exact Hw|congruence].
    + assert (Hs' : forall x, In x (th_id t :: seen) <-> In x (map th_id (acc ++ [t]))).
      { intro x. rewrite map_app, in_app_iff. simpl. rewrite Hs. tauto. }
      assert (Hnd' : NoDup (map th_id (acc ++ [t]))).
      { rewrite map_app. apply NoDup_app; [exact Hnd|constructor; [intros []|constructor]|].
        intros x Hx [Hxe|[]]. subst x. apply Hs in Hx.
        assert (existsb (Z.eqb (th_id t)) seen = true) as Hc
          by (apply existsb_exists; exists (th_id t); split; [exact Hx|apply Z.eqb_refl]).
        congruence. }
      destruct (IH _ _ Hs' Hnd') as [H1 [H2 [H3 H4]]]. cbv zeta in *.
      split; [exact H1|]. split; [exact H2|]. split.
      * intros u Hu. destruct (H3 u Hu) as [Hu'|Hu'].
        -- apply in_app_or in Hu'. destruct Hu' as [Hu'|[<-|[]]]; [left; exact Hu'|right; left; reflexivity].
        -- right; right; exact Hu'.
      * intros u [Hu|[<-|Hu]].
        -- apply H4. left. apply in_or_app. left. exact Hu.
        -- apply H4. left. apply in_or_app. right. left. reflexivity.
        -- apply H4. right. exact Hu.
Qed.

(** [schedule_manager.py], [fetch_messages_with_threads]: the threads whose
    histories are read have pairwise distinct ids, each comes from the open
    threads or from what an archived listing yielded, and every thread id
    found in any of these is read (once), whether it was listed once or
    several times. *)
Theorem discovered_threads_dedup (ch : Channel) :
  let all := ch_threads ch ++ yielded (ch_archived_public ch) ++ yielded (ch_archived_private ch) in
  NoDup (map th_id (discovered_threads ch)) /\
  (forall t, In t (discovered_threads ch) -> In t all) /\
  (forall t, In t all -> exists t', In t' (discovered_threads ch) /\ th_id t' = th_id t).
Proof.
  cbv zeta. unfold discovered_threads.
  destruct (collect_threads_spec [] [] (ch_threads ch) ltac:(simpl; tauto) (NoDup_nil _))
    as [A1 [A2 [A3 A4]]].
  destruct (collect_threads [] [] (ch_threads ch)) as [s1 t1] eqn:E1. cbn [fst snd] in *.
  destruct (collect_threads_spec s1 t1 (yielded (ch_archived_public ch)) A1 A2)
    as [B1 [B2 [B3 B4]]].
  destruct (collect_threads s1 t1 (yielded (ch_archived_public ch))) as [s2 t2] eqn:E2.
  cbn [fst snd] in *.
  destruct (collect_threads_spec s2 t2 (yielded (ch_archived_private ch)) B1 B2)
    as [C1 [C2 [C3 C4]]].
  split; [exact C2|]. split.
  - intros t Ht. rewrite !in_app_iff.
    destruct (C3 t Ht) as [H|H]; [|right; right; exact H].
    destruct (B3 t H) as [H'|H']; [|right; left; exact H'].
    destruct (A3 t H') as [[]|H'']. left. exact H''.
  - intros t Ht. rewrite !in_app_iff in Ht. destruct Ht as [H|[H|H]].
    + destruct (A4 t (or_intror H)) as [u [Hu Hue]].
      destruct (B4 u (or_introl Hu)) as [v [Hv Hve]].
      destruct (C4 v (or_introl Hv)) as [w [Hw Hwe]]. exists w. split; [exact Hw|congruence].
    + destruct (B4 t (or_intror H)) as [v [Hv Hve]].
      destruct (C4 v (or_introl Hv)) as [w [Hw Hwe]]. exists w. split; [exact Hw|congruence].
    + apply C4. right. exact H.
Qed.

End FetcherExtraProofs.

(** ** Transcript builders *)
Module TranscriptProofs.
Import PyStr Summarizer Transcript.

(** The image URLs of a payload, in order. *)
Definition image_urls (l : list content_item) : list str :=
  flat_map (fun c => match c with ImageItem u => [u] | TextItem _ => [] end) l.

(** The URLs of [l] not in [seen] and not seen earlier in [l], in order of
    first occurrence. *)
Fixpoint dedup_from (seen : list str) (l : list str) : list str :=
  match l with
  | [] => []
  | u :: r =>
      if existsb (Store.str_eqb u) seen then dedup_from seen r
      else u :: dedup_from (u :: seen) r
  end.

(** A payload made of groups (a nonempty text followed by a nonempty run of
    images). *)
Definition groups (gs : list (str * list str)) : list content_item :=
  flat_map (fun g => TextItem (fst g) :: map ImageItem (snd g)) gs.

Definition group_ok (g : str * list str) : Prop := fst g <> [] /\ snd g <> [].

Lemma image_urls_app (a b : list content_item) :
  image_urls (a ++ b) = image_urls a ++ image_urls b.
Proof. unfold image_urls. apply flat_map_app. Qed.

Lemma image_urls_images (l : list Attachment) :
  image_urls (map (fun img => ImageItem (att_url img)) l) = map att_url l.
Proof. induction l as [|a l IH]; simpl; [reflexivity|]. now rewrite IH. Qed.

Lemma dedup_from_app (seen l1 l2 : list str) :
  dedup_from seen (l1 ++ l2) =
  dedup_from seen l1 ++ dedup_from (rev (dedup_from seen l1) ++ seen) l2.
Proof.
  revert seen. induction l1 as [|u l1 IH]; intro seen; simpl; [reflexivity|].
  destruct (existsb (Store.str_eqb u) seen); [apply IH|].
  rewrite IH. simpl. now rewrite <- app_assoc.
Qed.

Lemma new_images_spec (seen : list str) (atts : list Attachment) :
  map att_url (fst (new_images seen atts)) =
    dedup_from seen (map att_url (filter is_image atts)) /\
  snd (new_images seen atts) = rev (map att_url (fst (new_images seen atts))) ++ seen.
Proof.
  revert seen. induction atts as [|a r IH]; intro seen; simpl; [auto|].
  destruct (is_image a) eqn:Ei; simpl.
  - destruct (existsb (Store.str_eqb (att_url a)) seen) eqn:Es; simpl.
    + apply IH.
    + destruct (new_images (att_url a :: seen) r) as [imgs seen'] eqn:E.
      destruct (IH (att_url a :: seen)) as [H1 H2]. rewrite E in H1, H2.
      simpl in *. rewrite H1. split; [reflexivity|].
      rewrite H2, H1, <- app_assoc. reflexivity.
  - apply IH.
Qed.

Lemma str_eqb_eq (a b : str) : Store.str_eqb a b = true <-> a = b.
Proof.
  revert b. induction a as [|x a IH]; intros [|y b]; simpl; split; intro H;
    try reflexivity; try discriminate.
  - apply andb_true_iff in H as [H1 H2]. apply Ascii.eqb_eq in H1.
    apply IH in H2. now subst.
  - injection H as -> ->. apply andb_true_iff. split; [apply Ascii.eqb_refl|now apply IH].
Qed.

Lemma existsb_str_in (u : str) (seen : list str) :
  existsb (Store.str_eqb u) seen = true <-> In u seen.
Proof.
  rewrite existsb_exists. split.
  - intros [v [Hv E]]. apply str_eqb_eq in E. now subst.
  - intro H. exists u. split; [exact H|]. now apply str_eqb_eq.
Qed.

Lemma dedup_from_spec (seen l : list str) :
  NoDup (dedup_from seen l) /\
  (forall u, In u (dedup_from seen l) <-> In u l /\ ~ In u seen).
Proof.
  revert seen. induction l as [|u r IH]; intro seen; simpl.
  - split; [constructor|]. tauto.
  - destruct (existsb (Store.str_eqb u) seen) eqn:E.
    + apply existsb_str_in in E. destruct (IH seen) as [Hn Hi].
      split; [exact Hn|]. intro v. rewrite Hi.
      split; [tauto|]. intros [[<-|H] H']; [contradiction|tauto].
    + assert (Hu : ~ In u seen) by (rewrite <- existsb_str_in, E; discriminate).
      destruct (IH (u :: seen)) as [Hn Hi]. split.
      * constructor; [|exact Hn]. rewrite Hi. simpl. tauto.
      * intro v. simpl. rewrite Hi. simpl.
        destruct (list_eq_dec ascii_dec u v) as [<-|Ne]; [tauto|].
        split; [intros [H|H]; [congruence|tauto]|].
        intros [[H|H] H']; [congruence|]. right. split; [exact H|].
        intros [H2|H2]; [congruence|contradiction].
Qed.

Section Builder.
Context {Msg : Type}.
Variable author_bot : Msg -> bool.
Variable display_name : Msg -> str.
Variable msg_created_at : Msg -> Z.
Variable msg_content : Msg -> str.
Variable thread_of : Msg -> option (Z * str).
Variable attachments : Msg -> list Attachment.

Local Abbreviation step' := (step author_bot display_name msg_created_at msg_content
                           thread_of attachments).

(** The image URLs a message contributes before deduplication. *)
Definition msg_images (m : Msg) : list str :=
  if author_bot m then [] else map att_url (filter is_image (attachments m)).

Lemma step_images (st : BState) (m : Msg) :
  image_urls (user_content (step' st m)) =
    image_urls (user_content st) ++ dedup_from (seen_images st) (msg_images m) /\
  seen_images (step' st m) =
    rev (dedup_from (seen_images st) (msg_images m)) ++ seen_images st.
Proof.
  unfold step, msg_images. destruct (author_bot m); simpl.
  { rewrite app_nil_r. auto. }
  destruct (new_images_spec (seen_images st) (attachments m)) as [H1 H2].
  destruct (new_images (seen_images st) (attachments m)) as [images seen] eqn:E.
  simpl in H1, H2. rewrite <- H1.
  set (hdr := match thread_of m with
              | Some (tid, tname) => _ | None => _ end).
  destruct hdr as [cur last].
  destruct images as [|img imgs]; cbn [user_content seen_images].
  - rewrite app_nil_r. auto.
  - set (c := match msg_content m with [] => _ | _ :: _ => _ end).
    destruct c as [|c0 cs]; cbn [user_content seen_images].
    + rewrite image_urls_app, image_urls_images. auto.
    + rewrite !image_urls_app, image_urls_images.
      change (image_urls [TextItem (c0 :: cs)]) with (@nil str).
      rewrite app_nil_r. auto.
Qed.

Definition all_images (msgs : list Msg) : list str := flat_map msg_images msgs.

Lemma fold_images (msgs : list Msg) (st : BState) :
  image_urls (user_content (fold_left step' msgs st)) =
    image_urls (user_content st) ++ dedup_from (seen_images st) (all_images msgs) /\
  seen_images (fold_left step' msgs st) =
    rev (dedup_from (seen_images st) (all_images msgs)) ++ seen_images st.
Proof.
  revert st. induction msgs as [|m msgs IH]; intro st; simpl.
  { rewrite app_nil_r. auto. }
  destruct (step_images st m) as [H1 H2].
  destruct (IH (step' st m)) as [H3 H4].
  unfold all_images in *. simpl. rewrite dedup_from_app.
  rewrite H3, H4, H1, H2, <- app_assoc. split; [reflexivity|].
  rewrite rev_app_distr, <- app_assoc. reflexivity.
Qed.

Lemma flush_images (st : BState) :
  image_urls (flush st) = image_urls (user_content st).
Proof.
  unfold flush. destruct (current_text_block st); [reflexivity|].
  rewrite image_urls_app, app_nil_r. reflexivity.
Qed.

Lemma channel_section_images (st : BState) (e : str * list Msg) :
  image_urls (user_content (channel_section author_bot display_name msg_created_at
                              msg_content thread_of attachments st e)) =
    image_urls (user_content st) ++ dedup_from [] (all_images (snd e)).
Proof.
  destruct e as [name msgs]. unfold channel_section. simpl.
  apply (fold_images msgs (mkB _ _ None [])).
Qed.

Lemma opt_z_eqb_true (a : Z) (b : option Z) : opt_z_eqb (Some a) b = true -> b = Some a.
Proof. destruct b; simpl; [intro H; apply Z.eqb_eq in H; now subst|discriminate]. Qed.

Lemma app_ne_nil_r {A} (a b : list A) : b <> [] -> a ++ b <> [].
Proof. intros H E. apply app_eq_nil in E. tauto. Qed.

Lemma attached_ne (a : str) (n : str) :
  a ++ lit "[Attached " ++ n ++ lit " image(s)]" ++ [NL] <> [].
Proof. apply app_ne_nil_r. discriminate. Qed.

Ltac flush_case :=
  match goal with
  | |- context [match ?c with [] => _ | _ :: _ => _ end] =>
      let Ez := fresh "Ez" in
      destruct c as [|? ?] eqn:Ez;
      [exfalso; revert Ez; rewrite ?app_assoc; apply app_ne_nil_r; discriminate
      |rewrite <- Ez, <- ?app_assoc; reflexivity]
  end.

(** One iteration on a non-bot message: the text block grows by [cur1], and
    is flushed with the new images when there are some. *)
Lemma step_nonbot (st : BState) (m : Msg) :
  author_bot m = false ->
  exists cur1,
    (msg_content m <> [] -> cur1 <> []) /\
    (forall tid tname, thread_of m = Some (tid, tname) ->
       last_thread_id st <> Some tid -> cur1 <> []) /\
    (fst (new_images (seen_images st) (attachments m)) <> [] -> cur1 <> []) /\
    step' st m =
      match new_images (seen_images st) (attachments m) with
      | ([], seen) =>
          mkB (user_content st) (current_text_block st ++ cur1)
              (option_map fst (thread_of m)) seen
      | (images, seen) =>
          mkB (user_content st ++ [TextItem (current_text_block st ++ cur1)] ++
               map (fun img => ImageItem (att_url img)) images) []
              (option_map fst (thread_of m)) seen
      end.
Proof.
  intro Hb. unfold step. rewrite Hb.
  set (hdr := lit "[" ++ _).
  destruct (new_images (seen_images st) (attachments m)) as [images seen]; cbn [fst].
  destruct (thread_of m) as [[tid tname]|] eqn:Eth.
  - destruct (negb (opt_z_eqb (Some tid) (last_thread_id st))) eqn:Et.
    + set (th := [NL] ++ lit "[Thread: " ++ tname ++ lit "]" ++ [NL]).
      destruct images as [|img imgs]; destruct (msg_content m) as [|x xs] eqn:Ec.
      * exists th. split; [congruence|]. split; [intros; discriminate|].
        split; [simpl; congruence|]. rewrite ?app_nil_r, <- ?app_assoc. reflexivity.
      * exists (th ++ hdr ++ x :: xs ++ [NL]). split; [intros; discriminate|].
        split; [intros; discriminate|]. split; [simpl; congruence|].
        rewrite <- ?app_assoc. reflexivity.
      * set (cnt := lit "[Attached " ++ _).
        exists (th ++ hdr ++ cnt). split; [congruence|]. split; [intros; discriminate|].
        split; [intros; discriminate|].
        flush_case.
      * set (cnt := lit "[Attached " ++ _).
        exists (th ++ hdr ++ x :: xs ++ [NL] ++ cnt). split; [intros; discriminate|].
        split; [intros; discriminate|]. split; [intros; discriminate|].
        flush_case.
    + apply negb_false_iff, opt_z_eqb_true in Et. rewrite Et.
      destruct images as [|img imgs]; destruct (msg_content m) as [|x xs] eqn:Ec.
      * exists []. split; [congruence|]. split; [congruence|].
        split; [simpl; congruence|]. rewrite ?app_nil_r, <- ?app_assoc. reflexivity.
      * exists (hdr ++ x :: xs ++ [NL]). split; [intros; discriminate|].
        split; [intros; discriminate|]. split; [simpl; congruence|].
        reflexivity.
      * set (cnt := lit "[Attached " ++ _).
        exists (hdr ++ cnt). split; [congruence|]. split; [intros; discriminate|].
        split; [intros; discriminate|].
        flush_case.
      * set (cnt := lit "[Attached " ++ _).
        exists (hdr ++ x :: xs ++ [NL] ++ cnt). split; [intros; discriminate|].
        split; [intros; discriminate|]. split; [intros; discriminate|].
        flush_case.
  - destruct images as [|img imgs]; destruct (msg_content m) as [|x xs] eqn:Ec.
    * exists []. split; [congruence|]. split; [discriminate|].
      split; [simpl; congruence|]. rewrite ?app_nil_r, <- ?app_assoc. reflexivity.
    * exists (hdr ++ x :: xs ++ [NL]). split; [intros; discriminate|].
      split; [discriminate|]. split; [simpl; congruence|].
      reflexivity.
    * set (cnt := lit "[Attached " ++ _).
      exists (hdr ++ cnt). split; [congruence|]. split; [discriminate|].
      split; [intros; discriminate|].
      flush_case.
    * set (cnt := lit "[Attached " ++ _).
      exists (hdr ++ x :: xs ++ [NL] ++ cnt). split; [intros; discriminate|].
      split; [discriminate|]. split; [intros; discriminate|].
      flush_case.
Qed.

Lemma step_shape (st : BState) (m : Msg) :
  (exists gs, user_content st = groups gs /\ Forall group_ok gs) ->
  exists gs, user_content (step' st m) = groups gs /\ Forall group_ok gs.
Proof.
  intros [gs [Hg Hok]].
  destruct (author_bot m) eqn:Hb.
  { unfold step. rewrite Hb. eauto. }
  destruct (step_nonbot st m Hb) as [cur1 [_ [_ [Hi Heq]]]]. rewrite Heq.
  destruct (new_images (seen_images st) (attachments m)) as [[|img imgs] seen] eqn:E;
    cbn [user_content]; [eauto|].
  exists (gs ++ [(current_text_block st ++ cur1, map att_url (img :: imgs))]).
  split.
  - rewrite Hg. unfold groups. rewrite flat_map_app. simpl. rewrite map_map.
    rewrite app_nil_r. reflexivity.
  - apply Forall_app. split; [exact Hok|]. constructor; [|constructor].
    split; simpl; [|discriminate]. apply app_ne_nil_r, Hi. simpl. discriminate.
Qed.

Lemma fold_shape (msgs : list Msg) (st : BState) :
  (exists gs, user_content st = groups gs /\ Forall group_ok gs) ->
  exists gs, user_content (fold_left step' msgs st) = groups gs /\ Forall group_ok gs.
Proof.
  revert st. induction msgs as [|m msgs IH]; intros st H; [exact H|].
  apply IH, step_shape, H.
Qed.

Lemma channel_section_shape (st : BState) (e : str * list Msg) :
  (exists gs, user_content st = groups gs /\ Forall group_ok gs) ->
  exists gs, user_content (channel_section author_bot display_name msg_created_at
                             msg_content thread_of attachments st e) = groups gs /\
             Forall group_ok gs.
Proof.
  destruct e as [name msgs]. intro H. unfold channel_section.
  apply (fold_shape msgs (mkB _ _ None [])), H.
Qed.

(** The text block only grows until it is flushed into the payload. *)
Definition ne (st : BState) : Prop :=
  user_content st <> [] \/ current_text_block st <> [].

Lemma flush_ne (st : BState) : flush st <> [] <-> ne st.
Proof.
  unfold flush, ne. destruct (current_text_block st) as [|c cs]; split.
  - tauto.
  - intros [H|H]; [exact H|congruence].
  - intros _. right. discriminate.
  - intros _. apply app_ne_nil_r. discriminate.
Qed.

Lemma step_ne (st : BState) (m : Msg) : ne st -> ne (step' st m).
Proof.
  intro H. destruct (author_bot m) eqn:Hb.
  { unfold step. rewrite Hb. exact H. }
  destruct (step_nonbot st m Hb) as [cur1 [_ [_ [_ Heq]]]]. rewrite Heq.
  destruct (new_images (seen_images st) (attachments m)) as [[|img imgs] seen];
    unfold ne in *; cbn [user_content current_text_block].
  - destruct H as [H|H]; [left; exact H|right]. intro E. apply app_eq_nil in E. tauto.
  - left. apply app_ne_nil_r. discriminate.
Qed.

Lemma fold_ne (msgs : list Msg) (st : BState) : ne st -> ne (fold_left step' msgs st).
Proof.
  revert st. induction msgs as [|m msgs IH]; intros st H; [exact H|].
  apply IH, step_ne, H.
Qed.

(** A message that adds nothing to a transcript: a bot message, or one
    with no text, outside a thread and without an image attachment. *)
Definition inert (m : Msg) : Prop :=
  author_bot m = true \/
  (msg_content m = [] /\ thread_of m = None /\ filter is_image (attachments m) = []).

Lemma inert_dec (m : Msg) : {inert m} + {~ inert m}.
Proof.
  unfold inert. destruct (author_bot m); [left; auto|].
  destruct (msg_content m); [|right; intros [H|[H _]]; discriminate].
  destruct (thread_of m); [right; intros [H|[_ [H _]]]; discriminate|].
  destruct (filter is_image (attachments m)); [left; auto|].
  right; intros [H|[_ [_ H]]]; discriminate.
Qed.

Lemma new_images_none (seen : list str) (atts : list Attachment) :
  filter is_image atts = [] -> new_images seen atts = ([], seen).
Proof.
  intro H. destruct (new_images_spec seen atts) as [H1 H2].
  rewrite H in H1. simpl in H1.
  destruct (new_images seen atts) as [imgs seen']. simpl in *.
  apply map_eq_nil in H1. subst. reflexivity.
Qed.

Lemma new_images_some (atts : list Attachment) :
  filter is_image atts <> [] -> fst (new_images [] atts) <> [].
Proof.
  intros H E. destruct (new_images_spec [] atts) as [H1 _].
  rewrite E in H1. destruct (filter is_image atts) as [|a l]; [congruence|].
  simpl in H1. discriminate.
Qed.

Definition st0 : BState := mkB [] [] None [].

Lemma step_inert (m : Msg) : inert m -> step' st0 m = st0.
Proof.
  unfold step. intros [Hb|[Hc [Ht Hi]]]; rewrite ?Hb; [reflexivity|].
  destruct (author_bot m); [reflexivity|].
  rewrite Ht, Hc. unfold st0. cbn [seen_images current_text_block user_content].
  rewrite (new_images_none [] _ Hi). reflexivity.
Qed.

Lemma step_active (m : Msg) : ~ inert m -> ne (step' st0 m).
Proof.
  intro Hn. destruct (author_bot m) eqn:Hb; [exfalso; apply Hn; left; exact Hb|].
  destruct (step_nonbot st0 m Hb) as [cur1 [Hc [Ht [Hi Heq]]]]. rewrite Heq.
  unfold st0 in *. cbn [seen_images user_content current_text_block last_thread_id] in *.
  destruct (new_images [] (attachments m)) as [[|img imgs] seen] eqn:E;
    unfold ne; cbn [user_content current_text_block].
  - right. simpl. unfold inert in Hn.
    destruct (msg_content m) as [|x xs]; [|apply Hc; discriminate].
    destruct (thread_of m) as [[tid tname]|];
      [apply (Ht tid tname eq_refl); discriminate|].
    destruct (filter is_image (attachments m)) eqn:F.
    + exfalso. apply Hn. auto.
    + exfalso. apply (new_images_some (attachments m)); [rewrite F; discriminate|].
      rewrite E. reflexivity.
  - left. simpl. discriminate.
Qed.

Lemma fold_inert (msgs : list Msg) :
  Forall inert msgs -> fold_left step' msgs st0 = st0.
Proof.
  induction 1 as [|m msgs Hm _ IH]; [reflexivity|]. simpl. rewrite step_inert; auto.
Qed.

Lemma fold_active (msgs : list Msg) (st : BState) :
  ne st \/ st = st0 -> Exists (fun m => ~ inert m) msgs -> ne (fold_left step' msgs st).
Proof.
  revert st. induction msgs as [|m msgs IH]; intros st Hst Hex; [inversion Hex|].
  simpl. inversion Hex as [? ? Hm|? ? Hr]; subst.
  - apply fold_ne. destruct Hst as [Hst|Hst]; [apply step_ne, Hst|subst; apply step_active, Hm].
  - apply IH; [|exact Hr]. destruct Hst as [Hst|Hst]; [left; apply step_ne, Hst|subst].
    destruct (inert_dec m) as [Hi|Hi]; [right; apply step_inert, Hi|left; apply step_active, Hi].
Qed.

Lemma build_transcript_empty (msgs : list Msg) :
  build_transcript_with_images author_bot display_name msg_created_at msg_content
    thread_of attachments msgs = [] <-> Forall inert msgs.
Proof.
  unfold build_transcript_with_images. split.
  - intro H. destruct (Forall_Exists_dec inert inert_dec msgs) as [F|E]; [exact F|].
    exfalso. apply (proj2 (flush_ne _)) in H; [exact H|].
    apply fold_active; [right; reflexivity|exact E].
  - intro F. change (mkB [] [] None []) with st0. rewrite fold_inert by exact F.
    reflexivity.
Qed.

Lemma sections_ne (st : BState) (dict : list (str * list Msg)) :
  current_text_block st <> [] ->
  current_text_block (fold_left (channel_section author_bot display_name msg_created_at
                        msg_content thread_of attachments) dict st) <> [].
Proof.
  revert st. induction dict as [|[name msgs] dict IH]; intros st H; [exact H|].
  simpl. apply IH. unfold channel_section. cbn [current_text_block].
  apply app_ne_nil_r. discriminate.
Qed.

Lemma sections_shape (st : BState) (dict : list (str * list Msg)) :
  (exists gs, user_content st = groups gs /\ Forall group_ok gs) ->
  exists gs, user_content (fold_left (channel_section author_bot display_name
               msg_created_at msg_content thread_of attachments) dict st) = groups gs /\
             Forall group_ok gs.
Proof.
  revert st. induction dict as [|e dict IH]; intros st H; [exact H|].
  apply IH, channel_section_shape, H.
Qed.

Lemma sections_images (st : BState) (dict : list (str * list Msg)) :
  image_urls (user_content (fold_left (channel_section author_bot display_name
                msg_created_at msg_content thread_of attachments) dict st)) =
    image_urls (user_content st) ++ flat_map (fun e => dedup_from [] (all_images (snd e))) dict.
Proof.
  revert st. induction dict as [|e dict IH]; intro st; simpl.
  - rewrite app_nil_r. reflexivity.
  - rewrite IH, channel_section_images, app_assoc. reflexivity.
Qed.

End Builder.

Lemma sectioned_payload_shape {Msg : Type} (author_bot : Msg -> bool)
    (display_name : Msg -> str) (msg_created_at : Msg -> Z) (msg_content : Msg -> str)
    (thread_of : Msg -> option (Z * str)) (attachments : Msg -> list Attachment)
    (dict : list (str * list Msg)) :
  exists gs t,
    build_sectioned_transcript author_bot display_name msg_created_at msg_content
      thread_of attachments dict = groups gs ++ [TextItem t] /\
    Forall group_ok gs /\ t <> [].
Proof.
  unfold build_sectioned_transcript.
  set (st0 := mkB [] (lit "MULTI-CHANNEL CONVERSATION:" ++ [NL; NL]) None []).
  destruct (sections_shape author_bot display_name msg_created_at msg_content thread_of
              attachments st0 dict) as [gs [Hg Hok]];
    [exists []; split; [reflexivity|constructor]|].
  pose proof (sections_ne author_bot display_name msg_created_at msg_content thread_of
                attachments st0 dict ltac:(discriminate)) as Hne.
  unfold flush. rewrite Hg.
  destruct (current_text_block _) as [|c cs]; [contradiction|].
  exists gs, (c :: cs). auto.
Qed.

(** The payload built by [build_transcript_with_images] is a sequence of
    groups, each a nonempty text item followed by a nonempty run of image
    items, then at most one more nonempty text item: no empty text, no two
    text items in a row and no image before the first text. The sectioned
    payload of [get_sectioned_summary] has the same groups and always ends
    with a nonempty text item. *)
Theorem transcript_payload_shape {Msg : Type} (author_bot : Msg -> bool)
    (display_name : Msg -> str) (msg_created_at : Msg -> Z) (msg_content : Msg -> str)
    (thread_of : Msg -> option (Z * str)) (attachments : Msg -> list Attachment)
    (msgs : list Msg) (dict : list (str * list Msg)) :
  (exists gs tail,
     build_transcript_with_images author_bot display_name msg_created_at msg_content
       thread_of attachments msgs = groups gs ++ map TextItem tail /\
     Forall group_ok gs /\ Forall (fun t => t <> []) tail /\ (length tail <= 1)%nat) /\
  (exists gs t,
     build_sectioned_transcript author_bot display_name msg_created_at msg_content
       thread_of attachments dict = groups gs ++ [TextItem t] /\
     Forall group_ok gs /\ t <> []).
Proof.
  split.
  - unfold build_transcript_with_images.
    destruct (fold_shape author_bot display_name msg_created_at msg_content thread_of
                attachments msgs (mkB [] [] None []))
      as [gs [Hg Hok]]; [exists []; split; [reflexivity|constructor]|].
    unfold flush. rewrite Hg.
    destruct (current_text_block _) as [|c cs].
    + exists gs, []. rewrite app_nil_r. repeat split; auto.
    + exists gs, [c :: cs]. repeat split; auto. constructor; [discriminate|constructor].
  - apply sectioned_payload_shape.
Qed.

(** Image URLs: [build_transcript_with_images] sends each image URL of the
    image attachments of the non-bot messages once, at its first occurrence
    and in order; [get_sectioned_summary] deduplicates only within a
    channel, so an image posted in two channels is sent twice. *)
Theorem transcript_images_dedup {Msg : Type} (author_bot : Msg -> bool)
    (display_name : Msg -> str) (msg_created_at : Msg -> Z) (msg_content : Msg -> str)
    (thread_of : Msg -> option (Z * str)) (attachments : Msg -> list Attachment)
    (msgs : list Msg) (dict : list (str * list Msg)) :
  let urls := image_urls (build_transcript_with_images author_bot display_name
                msg_created_at msg_content thread_of attachments msgs) in
  urls = dedup_from [] (all_images author_bot attachments msgs) /\
  NoDup urls /\
  (forall u, In u urls <-> In u (all_images author_bot attachments msgs)) /\
  image_urls (build_sectioned_transcript author_bot display_name msg_created_at
                msg_content thread_of attachments dict) =
    flat_map (fun e => dedup_from [] (all_images author_bot attachments (snd e))) dict.
Proof.
  intro urls.
  assert (Hu : urls = dedup_from [] (all_images author_bot attachments msgs)).
  { unfold urls, build_transcript_with_images. rewrite flush_images.
    apply (fold_images author_bot display_name msg_created_at msg_content thread_of
             attachments msgs (mkB [] [] None [])). }
  destruct (dedup_from_spec [] (all_images author_bot attachments msgs)) as [Hn Hi].
  split; [exact Hu|]. rewrite Hu. split; [exact Hn|]. split.
  - intro u. rewrite Hi. simpl. tauto.
  - unfold build_sectioned_transcript. rewrite flush_images, sections_images.
    reflexivity.
Qed.

(** [get_summary] answers "Not enough content to summarize." exactly when
    every message is a bot message or has no text, is not in a thread and
    has no image attachment; the model is not consulted then, and whatever
    it answers otherwise, the result differs. *)
Theorem get_summary_not_enough_content
    (call_llm : instruction -> list content_item -> option str)
    (display_name : Fetcher.Message -> str)
    (thread_of : Fetcher.Message -> option (Z * str))
    (attachments : Fetcher.Message -> list Attachment)
    (msgs : list Fetcher.Message) :
  get_summary call_llm
    (build_transcript_with_images Fetcher.author_bot display_name Fetcher.created_at
       Fetcher.content thread_of attachments) msgs =
    lit "Not enough content to summarize." <->
  Forall (inert Fetcher.author_bot Fetcher.content thread_of attachments) msgs.
Proof.
  rewrite <- (build_transcript_empty Fetcher.author_bot display_name Fetcher.created_at
                Fetcher.content thread_of attachments msgs).
  unfold get_summary. cbv zeta.
  destruct (build_transcript_with_images Fetcher.author_bot display_name Fetcher.created_at
              Fetcher.content thread_of attachments msgs) as [|c l].
  - split; intros; reflexivity.
  - split; [|discriminate]. destruct (truthy _); discriminate.
Qed.

(** [get_sectioned_summary] with its transcript builder answers "Not enough
    content to summarize." on an empty dictionary and otherwise always
    consults the model: the transcript is never empty, so its
    [if not user_content] branch is never taken. *)
Theorem get_sectioned_summary_calls_llm
    (call_llm : instruction -> list content_item -> option str)
    (display_name : Fetcher.Message -> str)
    (thread_of : Fetcher.Message -> option (Z * str))
    (attachments : Fetcher.Message -> list Attachment)
    (dict : list (str * list Fetcher.Message)) :
  let build := build_sectioned_transcript Fetcher.author_bot display_name
                 Fetcher.created_at Fetcher.content thread_of attachments in
  get_sectioned_summary call_llm build dict =
    match dict with
    | [] => lit "Not enough content to summarize."
    | _ :: _ =>
        match truthy (call_llm SectionedSummaryInstruction (build dict)) with
        | Some summary => cap_2000 summary
        | None => lit "Failed to generate a summary."
        end
    end.
Proof.
  intro build. unfold get_sectioned_summary.
  destruct dict as [|e dict]; [reflexivity|].
  destruct (sectioned_payload_shape Fetcher.author_bot display_name
              Fetcher.created_at Fetcher.content thread_of attachments (e :: dict))
    as [gs [t [Ht _]]].
  unfold build. rewrite Ht.
  destruct (groups gs ++ [TextItem t]) eqn:E; [|reflexivity].
  apply app_eq_nil in E. destruct E as [_ E]. discriminate.
Qed.

End TranscriptProofs.

(** ** Storage operations *)
Module StoreOpsProofs.
Import PyStr Store StoreOps.

Lemma find_map_id (f : Row -> Row) (sid : Z) (rs : list Row) :
  (forall r, id (f r) = id r) ->
  find (fun r => id r =? sid) (map f rs) = option_map f (find (fun r => id r =? sid) rs).
Proof.
  intro Hf. induction rs as [|r rs IH]; simpl; [reflexivity|].
  rewrite Hf. destruct (id r =? sid); [reflexivity|exact IH].
Qed.

Definition delete_row (sid : Z) (r : Row) : Row :=
  if id r =? sid then set_active r false else r.

Lemma delete_row_id (sid : Z) (r : Row) : id (delete_row sid r) = id r.
Proof. unfold delete_row. destruct (id r =? sid); reflexivity. Qed.

Lemma find_delete_same (sid : Z) (rs : list Row) :
  find (fun r => id r =? sid) (map (delete_row sid) rs) =
  option_map (fun r => set_active r false) (find (fun r => id r =? sid) rs).
Proof.
  induction rs as [|r rs IH]; simpl; [reflexivity|].
  rewrite delete_row_id. destruct (id r =? sid) eqn:E; simpl; [|exact IH].
  unfold delete_row. rewrite E. reflexivity.
Qed.

Lemma find_delete_other (sid sid' : Z) (rs : list Row) :
  sid' <> sid ->
  find (fun r => id r =? sid') (map (delete_row sid) rs) = find (fun r => id r =? sid') rs.
Proof.
  intro Hne. induction rs as [|r rs IH]; simpl; [reflexivity|].
  rewrite delete_row_id. destruct (Z.eqb_spec (id r) sid'); [|exact IH].
  unfold delete_row. destruct (Z.eqb_spec (id r) sid); [congruence|reflexivity].
Qed.

Lemma filter_delete (sid : Z) (p : Row -> bool) (rs : list Row) :
  (forall r, p (set_active r false) = false) ->
  (forall r, p r = true -> active r = true) ->
  filter p (map (delete_row sid) rs) = filter p (filter (fun r => negb (id r =? sid)) rs).
Proof.
  intros Hp _. induction rs as [|r rs IH]; simpl; [reflexivity|].
  assert (Hd : delete_row sid r = if id r =? sid then set_active r false else r)
    by reflexivity.
  rewrite Hd. destruct (id r =? sid); simpl.
  - rewrite Hp. exact IH.
  - destruct (p r); [f_equal|]; exact IH.
Qed.

Lemma delete_row_idem (sid : Z) (r : Row) : delete_row sid (delete_row sid r) = delete_row sid r.
Proof.
  unfold delete_row. destruct (id r =? sid) eqn:E; [|rewrite E; reflexivity].
  simpl. rewrite E. reflexivity.
Qed.

Lemma get_delete_same (t : Table) (sid : Z) :
  get_schedule (delete_schedule t sid) sid =
    option_map (fun r => set_active r false) (get_schedule t sid).
Proof.
  unfold get_schedule, delete_schedule. cbn [rows].
  change (fun r => if id r =? sid then set_active r false else r) with (delete_row sid).
  apply find_delete_same.
Qed.

Lemma delete_schedule_idem (t : Table) (sid : Z) :
  delete_schedule (delete_schedule t sid) sid = delete_schedule t sid.
Proof.
  unfold delete_schedule. cbn [rows id_seq].
  change (fun r => if id r =? sid then set_active r false else r) with (delete_row sid).
  rewrite map_map. f_equal. apply map_ext. apply delete_row_idem.
Qed.

(** [delete_schedule] is a soft delete: [get_schedule] still finds the row,
    now inactive, and every other id reads as before; no row and no id goes
    away; the active listings (with or without a guild filter) are then
    those of the table without that schedule; deleting twice is deleting
    once. *)
Theorem delete_schedule_soft (t : Table) (sid : Z) (guild : option Z) (res : list Row) :
  get_schedule (delete_schedule t sid) sid =
    option_map (fun r => set_active r false) (get_schedule t sid) /\
  (forall sid', sid' <> sid ->
     get_schedule (delete_schedule t sid) sid' = get_schedule t sid') /\
  map id (rows (delete_schedule t sid)) = map id (rows t) /\
  (get_all_active_schedules (rows (delete_schedule t sid)) guild res <->
   get_all_active_schedules (filter (fun r => negb (id r =? sid)) (rows t)) guild res) /\
  delete_schedule (delete_schedule t sid) sid = delete_schedule t sid.
Proof.
  change (fun r => if id r =? sid then set_active r false else r) with (delete_row sid).
  unfold get_schedule, delete_schedule. cbn [rows id_seq].
  split; [|split; [|split; [|split]]].
  - apply find_delete_same.
  - intros sid' Hne. apply find_delete_other, Hne.
  - rewrite map_map. apply map_ext. apply delete_row_id.
  - unfold get_all_active_schedules. destruct (guild_filter guild) as [g|].
    + rewrite (filter_delete sid (fun r => active r && (guild_id r =? g))); [reflexivity| |].
      * intro r. reflexivity.
      * intros r H. apply andb_prop in H. tauto.
    + rewrite (filter_delete sid active); [reflexivity| |]; auto.
  - fold (delete_schedule t sid). apply delete_schedule_idem.
Qed.

Definition last_run_row (sid now : Z) (r : Row) : Row :=
  if id r =? sid then set_last_run r now else r.

Lemma last_run_row_id (sid now : Z) (r : Row) : id (last_run_row sid now r) = id r.
Proof. unfold last_run_row. destruct (id r =? sid); reflexivity. Qed.

(** [update_last_run] only stamps [last_run] on the row with that id: ids
    and [active] flags of all rows stay as they were (a deleted schedule is
    not revived), and [get_schedule] sees the stamp. *)
Theorem update_last_run_spec (t : Table) (sid now : Z) :
  map (fun r => (id r, active r)) (rows (update_last_run t sid now)) =
    map (fun r => (id r, active r)) (rows t) /\
  get_schedule (update_last_run t sid now) sid =
    option_map (fun r => set_last_run r now) (get_schedule t sid) /\
  (forall sid', sid' <> sid ->
     get_schedule (update_last_run t sid now) sid' = get_schedule t sid').
Proof.
  unfold get_schedule, update_last_run. cbn [rows].
  change (fun r => if id r =? sid then set_last_run r now else r) with (last_run_row sid now).
  split; [|split].
  - rewrite map_map. apply map_ext. intro r. unfold last_run_row.
    destruct (id r =? sid); reflexivity.
  - induction (rows t) as [|r rs IH]; simpl; [reflexivity|].
    rewrite last_run_row_id. destruct (id r =? sid) eqn:E; simpl; [|exact IH].
    unfold last_run_row. rewrite E. reflexivity.
  - intros sid' Hne. induction (rows t) as [|r rs IH]; simpl; [reflexivity|].
    rewrite last_run_row_id. destruct (Z.eqb_spec (id r) sid'); [|exact IH].
    unfold last_run_row. destruct (Z.eqb_spec (id r) sid); [congruence|reflexivity].
Qed.

Lemma upsert_find_same (settings : list Setting) (g : Z) (tz : str) (now : Z) :
  find (fun s => s_guild_id s =? g) (upsert_setting settings g tz now) =
    Some (mkSetting g tz now).
Proof.
  induction settings as [|s r IH]; simpl; [rewrite Z.eqb_refl; reflexivity|].
  destruct (s_guild_id s =? g) eqn:E; simpl; [rewrite Z.eqb_refl; reflexivity|].
  rewrite E. exact IH.
Qed.

Lemma upsert_find_other (settings : list Setting) (g g' : Z) (tz : str) (now : Z) :
  g' <> g ->
  find (fun s => s_guild_id s =? g') (upsert_setting settings g tz now) =
    find (fun s => s_guild_id s =? g') settings.
Proof.
  intro Hne. induction settings as [|s r IH]; simpl.
  - destruct (Z.eqb_spec g g'); [congruence|reflexivity].
  - destruct (s_guild_id s =? g) eqn:E; simpl.
    + apply Z.eqb_eq in E. rewrite E. destruct (Z.eqb_spec g g'); [congruence|reflexivity].
    + destruct (s_guild_id s =? g'); [reflexivity|exact IH].
Qed.

Lemma upsert_keys (settings : list Setting) (g : Z) (tz : str) (now : Z) :
  NoDup (map s_guild_id settings) -> NoDup (map s_guild_id (upsert_setting settings g tz now)).
Proof.
  induction settings as [|s r IH]; simpl; intro H.
  - constructor; [intros []|constructor].
  - inversion H as [|? ? Hn Hr]; subst.
    destruct (s_guild_id s =? g) eqn:E; simpl.
    + apply Z.eqb_eq in E. rewrite <- E. constructor; assumption.
    + constructor; [|apply IH, Hr].
      assert (Hk : forall x, In x (map s_guild_id (upsert_setting r g tz now)) ->
                             x = g \/ In x (map s_guild_id r)).
      { clear IH H Hn Hr E s. induction r as [|s' r IH]; simpl; [intros x [<-|[]]; auto|].
        destruct (s_guild_id s' =? g) eqn:E'; simpl.
        - intros x [<-|Hx]; auto.
        - intros x [<-|Hx]; [auto|]. destruct (IH x Hx); auto. }
      intro Hin. destruct (Hk _ Hin) as [Hg|Hg]; [|contradiction].
      apply Z.eqb_neq in E. contradiction.
Qed.

(** [set_guild_timezone] followed by [get_guild_timezone]: when the call
    succeeds the guild reads back the timezone as its column stored it (the
    given one when it has at most 100 characters, otherwise its first 100
    when only spaces follow them), every other guild reads what it read
    before (the default ['America/New_York'] if it never set one) and guild
    ids stay unique; the call fails only when psycopg2 refuses a NUL in the
    timezone or the database refuses the value (a guild id outside BIGINT,
    or a timezone longer than 100 characters that is not padded with
    spaces). *)
Theorem set_guild_timezone_roundtrip (settings : list Setting) (g : Z) (tz : str) (now : Z) :
  match set_guild_timezone settings g tz now with
  | Ok settings' =>
      exists stored,
        varchar_coerce 100 tz = Some stored /\
        ((length tz <= 100)%nat -> stored = tz) /\
        get_guild_timezone settings' g = stored /\
        (forall g', g' <> g -> get_guild_timezone settings' g' = get_guild_timezone settings g') /\
        (NoDup (map s_guild_id settings) -> NoDup (map s_guild_id settings'))
  | Error _ => has_nul tz = true \/ in_bigint g = false \/ varchar_coerce 100 tz = None
  end.
Proof.
  unfold set_guild_timezone.
  destruct (has_nul tz) eqn:En; [left; reflexivity|].
  destruct (in_bigint g) eqn:Eg; simpl; [|right; left; reflexivity].
  destruct (varchar_coerce 100 tz) as [stored|] eqn:Ev; simpl; [|right; right; reflexivity].
  exists stored. split; [reflexivity|]. split; [|split; [|split]].
  - intro L. rewrite StoreProofs.varchar_coerce_fits in Ev by exact L.
    injection Ev as <-. reflexivity.
  - unfold get_guild_timezone. rewrite upsert_find_same. reflexivity.
  - intros g' Hne. unfold get_guild_timezone. rewrite upsert_find_other by exact Hne.
    reflexivity.
  - apply upsert_keys.
Qed.

End StoreOpsProofs.

(** ** Schedule tasks *)
Module TasksProofs.
Import PyStr Store Tasks.

(** Every recorded task is running for its schedule, task numbers are
    distinct and below the counter. *)
Definition tasks_ok (ts : TaskState) : Prop :=
  (forall k t, lookup_task (active_schedule_tasks ts) k = Some t -> In (t, k) (running ts)) /\
  NoDup (map fst (running ts)) /\
  (forall p, In p (running ts) -> (fst p < next_task ts)%nat).

Lemma lookup_task_set (d : list (Z * nat)) (k k' : Z) (v : nat) :
  lookup_task (task_dict_set d k v) k' =
    if k =? k' then Some v else lookup_task d k'.
Proof.
  unfold lookup_task. induction d as [|[k0 v0] d IH]; simpl.
  - destruct (k =? k'); reflexivity.
  - destruct (Z.eqb_spec k0 k) as [->|Hne]; simpl.
    + destruct (k =? k'); reflexivity.
    + destruct (Z.eqb_spec k0 k'); [|exact IH].
      subst. destruct (Z.eqb_spec k k'); [congruence|reflexivity].
Qed.

Definition load_step (ts : TaskState) (schedule : Row) : TaskState :=
  let '(task, ts) := create_schedule_task ts in
  let ts := start_task ts task (id schedule) in
  mkTasks (task_dict_set (active_schedule_tasks ts) (id schedule) task)
    (running ts) (next_task ts).

Lemma load_step_ok (ts : TaskState) (r : Row) : tasks_ok ts -> tasks_ok (load_step ts r).
Proof.
  intros [Hd [Hn Hl]]. unfold tasks_ok, load_step, create_schedule_task, start_task. cbn.
  split; [|split].
  - intros k t. rewrite lookup_task_set. destruct (Z.eqb_spec (id r) k) as [<-|Hne].
    + intro E. injection E as <-. apply in_or_app. right. left. reflexivity.
    + intro E. apply in_or_app. left. apply Hd, E.
  - rewrite map_app. apply NoDup_app; [exact Hn|constructor; [intros []|constructor]|].
    intros x Hx Hx'. simpl in Hx'. destruct Hx' as [Hx'|[]]. subst x.
    apply in_map_iff in Hx. destruct Hx as [p [Hpx Hp]].
    specialize (Hl p Hp). lia.
  - intros p Hp. apply in_app_or in Hp. destruct Hp as [Hp|[<-|[]]]; simpl; [|lia].
    specialize (Hl p Hp). lia.
Qed.

Lemma running_for_load_step (ts : TaskState) (r : Row) (sid : Z) :
  running_for (load_step ts r) sid = (running_for ts sid + if Z.eqb (id r) sid then 1 else 0)%nat.
Proof.
  unfold running_for, load_step, create_schedule_task, start_task. cbn.
  rewrite filter_app, length_app. simpl. destruct (id r =? sid); reflexivity.
Qed.

Lemma load_eq (ts : TaskState) (rs : list Row) :
  load_all_schedules ts rs = fold_left load_step rs ts.
Proof. reflexivity. Qed.

Lemma load_ok (ts : TaskState) (rs : list Row) :
  tasks_ok ts -> tasks_ok (load_all_schedules ts rs).
Proof.
  rewrite load_eq. revert ts. induction rs as [|r rs IH]; intros ts H; [exact H|].
  apply IH, load_step_ok, H.
Qed.

Lemma running_for_load (ts : TaskState) (rs : list Row) (sid : Z) :
  running_for (load_all_schedules ts rs) sid =
    (running_for ts sid + count_occ Z.eq_dec (map id rs) sid)%nat.
Proof.
  rewrite load_eq. revert ts. induction rs as [|r rs IH]; intro ts; simpl; [lia|].
  rewrite IH, running_for_load_step.
  destruct (Z.eq_dec (id r) sid) as [E|E].
  - rewrite (proj2 (Z.eqb_eq _ _) E). lia.
  - rewrite (proj2 (Z.eqb_neq _ _) E). lia.
Qed.

Lemma lookup_load (ts : TaskState) (rs : list Row) (sid : Z) :
  In sid (map id rs) -> lookup_task (active_schedule_tasks (load_all_schedules ts rs)) sid <> None.
Proof.
  rewrite load_eq. revert ts. induction rs as [|r rs IH]; intros ts Hin; [destruct Hin|].
  simpl. destruct (in_dec Z.eq_dec sid (map id rs)) as [Hr|Hr]; [apply IH, Hr|].
  destruct Hin as [Hs|Hs]; [|contradiction]. subst sid.
  assert (Hkeep : forall rs' ts', ~ In (id r) (map id rs') ->
            lookup_task (active_schedule_tasks ts') (id r) <> None ->
            lookup_task (active_schedule_tasks (fold_left load_step rs' ts')) (id r) <> None).
  { induction rs' as [|r' rs' IH']; intros ts' Hn H; [exact H|].
    simpl. apply IH'; [intro; apply Hn; right; assumption|].
    unfold load_step, create_schedule_task, start_task. cbn.
    rewrite lookup_task_set. destruct (Z.eqb_spec (id r') (id r)); [discriminate|exact H]. }
  apply Hkeep; [exact Hr|].
  unfold load_step, create_schedule_task, start_task. cbn.
  rewrite lookup_task_set, Z.eqb_refl. discriminate.
Qed.

Lemma filter_not_in (t : nat) (l : list (nat * Z)) :
  ~ In t (map fst l) -> filter (fun p => negb (Nat.eqb (fst p) t)) l = l.
Proof.
  induction l as [|p l IH]; simpl; intro H; [reflexivity|].
  destruct (Nat.eqb_spec (fst p) t); [tauto|]. simpl. f_equal. apply IH. tauto.
Qed.

Lemma running_for_stop (ts : TaskState) (sid : Z) (t : nat) :
  tasks_ok ts -> lookup_task (active_schedule_tasks ts) sid = Some t ->
  running_for (stop_schedule_task ts sid) sid = (running_for ts sid - 1)%nat /\
  lookup_task (active_schedule_tasks (stop_schedule_task ts sid)) sid = None.
Proof.
  intros [Hd [Hn _]] Hl. pose proof (Hd _ _ Hl) as Hin.
  unfold stop_schedule_task. rewrite Hl. cbn [running active_schedule_tasks].
  split.
  - unfold running_for. cbn [running]. clear Hd Hl.
    induction (running ts) as [|p l IH]; [destruct Hin|].
    simpl in Hn. inversion Hn as [|? ? Hp Hl']; subst.
    destruct Hin as [Hpe|Hin].
    + subst p. simpl. rewrite Nat.eqb_refl, Z.eqb_refl. simpl. rewrite filter_not_in by exact Hp. lia.
    + assert (Hne : fst p <> t).
      { intro E. apply Hp. rewrite E. apply in_map_iff. exists (t, sid). auto. }
      simpl. destruct (Nat.eqb_spec (fst p) t); [contradiction|]. simpl.
      assert (Hpos : (0 < length (filter (fun p => Z.eqb (snd p) sid) l))%nat).
      { destruct (filter (fun p => Z.eqb (snd p) sid) l) eqn:F; [|simpl; lia].
        exfalso. assert (Hf : In (t, sid) (filter (fun p => Z.eqb (snd p) sid) l))
          by (apply filter_In; split; [exact Hin|apply Z.eqb_refl]).
        rewrite F in Hf. destruct Hf. }
      destruct (snd p =? sid); simpl; rewrite IH by assumption; lia.
  - clear Hd Hl Hin. unfold lookup_task.
    induction (active_schedule_tasks ts) as [|[k v] d IH]; [reflexivity|].
    simpl. destruct (Z.eqb_spec k sid); simpl; [exact IH|].
    destruct (Z.eqb_spec k sid); [contradiction|exact IH].
Qed.

Lemma initial_ok : tasks_ok initial_tasks.
Proof. split; [|split]; [intros k t E; discriminate|constructor|intros p []]. Qed.

(** [load_all_schedules] starts one task per listed schedule and records
    only the last; run a second time (the bot's [on_ready] handler calls it
    on every ready event) it starts a second task for each schedule without
    cancelling the first, and [stop_schedule_task] then cancels only the
    recorded one: the schedule keeps a running task after its removal. *)
Theorem load_all_schedules_twice (schedules : list Row) (sid : Z) :
  let c := count_occ Z.eq_dec (map id schedules) sid in
  let ts1 := load_all_schedules initial_tasks schedules in
  let ts2 := load_all_schedules ts1 schedules in
  running_for ts1 sid = c /\
  running_for ts2 sid = (2 * c)%nat /\
  (In sid (map id schedules) ->
   running_for (stop_schedule_task ts1 sid) sid = (c - 1)%nat /\
   running_for (stop_schedule_task ts2 sid) sid = (2 * c - 1)%nat /\
   lookup_task (active_schedule_tasks (stop_schedule_task ts2 sid)) sid = None).
Proof.
  intros c ts1 ts2.
  assert (H1 : running_for ts1 sid = c) by (apply running_for_load).
  assert (H2 : running_for ts2 sid = (2 * c)%nat)
    by (unfold ts2; rewrite running_for_load, H1; lia).
  split; [exact H1|]. split; [exact H2|]. intro Hin.
  assert (Ok1 : tasks_ok ts1) by (apply load_ok, initial_ok).
  assert (Ok2 : tasks_ok ts2) by (apply load_ok, Ok1).
  destruct (lookup_task (active_schedule_tasks ts1) sid) as [t1|] eqn:L1;
    [|exfalso; apply (lookup_load _ _ _ Hin L1)].
  destruct (lookup_task (active_schedule_tasks ts2) sid) as [t2|] eqn:L2;
    [|exfalso; apply (lookup_load _ _ _ Hin L2)].
  destruct (running_for_stop ts1 sid t1 Ok1 L1) as [S1 _].
  destruct (running_for_stop ts2 sid t2 Ok2 L2) as [S2 N2].
  rewrite S1, S2, H1, H2. auto.
Qed.

End TasksProofs.

(** ** The [/remove-schedule] command *)
Module RemoveCommandProofs.
Import PyStr Store StoreOps Tasks RemoveCommand.

Lemma stop_again (ts : TaskState) (sid : Z) :
  stop_schedule_task (stop_schedule_task ts sid) sid = stop_schedule_task ts sid.
Proof.
  unfold stop_schedule_task at 2.
  destruct (lookup_task (active_schedule_tasks ts) sid) as [t|] eqn:L.
  - unfold stop_schedule_task. cbn [active_schedule_tasks].
    replace (lookup_task (filter (fun kv => negb (fst kv =? sid)) (active_schedule_tasks ts)) sid)
      with (@None nat); [rewrite L; reflexivity|].
    unfold lookup_task. clear L.
    induction (active_schedule_tasks ts) as [|[k v] d IH]; [reflexivity|].
    simpl. destruct (Z.eqb_spec k sid); simpl; [exact IH|].
    destruct (Z.eqb_spec k sid); [contradiction|exact IH].
  - unfold stop_schedule_task. rewrite L. reflexivity.
Qed.

(** [/remove-schedule]: an unknown id or a schedule of another server
    changes nothing; otherwise the row is soft-deleted (still found by
    [get_schedule], inactive) and the reply names its type and target.
    Running the command again with the same id changes nothing more and
    gives the same reply, so a schedule already removed is reported as
    removed again. *)
Theorem remove_schedule_idempotent (t : Table) (ts : TaskState) (guild sid : Z) :
  let '(t1, ts1, reply) := remove_schedule t ts guild sid in
  remove_schedule t1 ts1 guild sid = (t1, ts1, reply) /\
  match get_schedule t sid with
  | None => reply = ScheduleNotFound /\ t1 = t /\ ts1 = ts
  | Some r =>
      if guild_id r =? guild then
        reply = Removed (schedule_type r) (target_name r) /\
        t1 = delete_schedule t sid /\ ts1 = stop_schedule_task ts sid /\
        get_schedule t1 sid = Some (set_active r false)
      else reply = OtherServer /\ t1 = t /\ ts1 = ts
  end.
Proof.
  unfold remove_schedule.
  destruct (get_schedule t sid) as [r|] eqn:G.
  - destruct (guild_id r =? guild) eqn:Eg; simpl.
    + pose proof (StoreOpsProofs.get_delete_same t sid) as D.
      rewrite G in D. simpl in D. rewrite D. simpl. rewrite Eg. simpl.
      rewrite stop_again, StoreOpsProofs.delete_schedule_idem.
      auto.
    + rewrite G, Eg. simpl. auto.
  - rewrite G. auto.
Qed.

End RemoveCommandProofs.

(** ** The schedule-creating commands *)
Module CommandsProofs.
Import PyStr Store StoreOps Tasks Commands.

Lemma dt_time_range (hour minute s : Z) : dt_time hour minute = TimeOk s -> 0 <= s < 86400.
Proof.
  unfold dt_time. destruct (negb _); [discriminate|].
  destruct (Z.leb_spec 0 hour), (Z.leb_spec hour 23), (Z.leb_spec 0 minute),
    (Z.leb_spec minute 59); simpl; try discriminate.
  intro E. injection E as <-. lia.
Qed.

Lemma parse_start_time_range (time : str) (s : Z) :
  parse_start_time time = TimeOk s -> 0 <= s < 86400.
Proof.
  unfold parse_start_time. destruct (Utils.split_on _ time) as [|p0 rest]; [discriminate|].
  destruct (py_int p0) as [hour|]; [|discriminate].
  destruct (match rest with [] => Some 0 | p1 :: _ => py_int p1 end) as [minute|];
    [apply dt_time_range|discriminate].
Qed.

Definition new_row (t : Table) (f : ScheduleFields) (now : Z) : Row :=
  mkRow (id_seq t + 1) (f_guild_id f) (f_channel_ids f) (f_target_name f)
    (f_schedule_type f) (f_output_channel_id f) (f_start_time f)
    (f_interval_hours f) (f_lookback_duration f) None now
    (f_created_by_user_id f) true None.

Lemma add_schedule_cases (t : Table) (f : ScheduleFields) (now : Z) :
  match add_schedule t f now with
  | (t', Ok sid) =>
      sid = id_seq t + 1 /\
      exists g, coerce_columns f = Ok g /\ t' = mkTable (rows t ++ [new_row t g now]) sid /\
        valid_schedule_type (f_schedule_type f) = true
  | (t', Error e) =>
      rows t' = rows t /\
      (forall c, e = CheckViolation c ->
         valid_interval (f_interval_hours f) = false \/
         valid_schedule_type (f_schedule_type f) = false)
  end.
Proof.
  unfold add_schedule.
  destruct (has_nul (f_target_name f) || has_nul (f_schedule_type f) ||
            has_nul (f_lookback_duration f)).
  { split; [reflexivity|]. intros c E. discriminate. }
  destruct (coerce_columns f) as [g|e] eqn:Ec.
  - pose proof (StoreProofs.coerce_kind_valid f g Ec) as Hk.
    destruct (StoreProofs.coerce_columns_ok f g Ec) as [_ [_ [_ [_ [Hi _]]]]].
    unfold check_constraints. rewrite Hk, Hi.
    destruct (valid_interval (f_interval_hours f)) eqn:Ei; simpl.
    + destruct (valid_schedule_type (f_schedule_type f)) eqn:Ek; simpl.
      * split; [reflexivity|]. exists g.
        split; [reflexivity|]. split; [unfold new_row; rewrite Hi; reflexivity|reflexivity].
      * split; [reflexivity|]. auto.
    + split; [reflexivity|]. auto.
  - split; [reflexivity|]. intros c ->. unfold coerce_columns in Ec.
    repeat match type of Ec with
           | context [if ?b then _ else _] => destruct b; [discriminate|]
           | context [match ?o with Some _ => _ | None => _ end] => destruct o
           end; discriminate.
Qed.

(** What a reply of [/schedule-summary] or [/schedule-category-summary]
    implies about the table and the running tasks after it. *)
Definition create_outcome_ok (kind : str) (t : Table) (ts : TaskState)
    (res : Table * TaskState * create_reply) : Prop :=
  let '(t', ts', reply) := res in
  (forall c, reply <> ErrorOccurred (DbErr (CheckViolation c))) /\
  (reply = ErrorOccurred NoneNotSubscriptable -> False) /\
  (reply = CategoryNotFound \/ reply = NoTextChannels \/ reply = InvalidTime \/
   reply = InvalidInterval \/ reply = InvalidLookback -> t' = t /\ ts' = ts) /\
  (forall sid, reply = ScheduleCreated sid ->
     sid = id_seq t + 1 /\
     exists row task,
       rows t' = rows t ++ [row] /\ id row = sid /\ active row = true /\
       schedule_type row = kind /\ channel_ids row <> [] /\
       1 <= interval_hours row /\ 0 <= start_time row < 86400 /\
       lookup_task (active_schedule_tasks ts') sid = Some task /\
       In (task, sid) (running ts')).

Lemma create_schedule_ok (t : Table) (ts : TaskState) (now guild : Z) (ids : list Z)
    (name kind : str) (out user : Z) (time interval lookback : str) :
  valid_schedule_type kind = true -> ids <> [] ->
  create_outcome_ok kind t ts
    (create_schedule t ts now guild ids name kind out user time interval lookback).
Proof.
  intros Hk Hids. unfold create_schedule.
  destruct (parse_start_time time) as [start| |] eqn:Et.
  2, 3: repeat split; try discriminate; intros; try congruence;
        repeat match goal with H : _ \/ _ |- _ => destruct H end; discriminate.
  destruct (Duration.parse_duration interval) as [secs| |].
  2, 3: repeat split; try discriminate; intros; try congruence;
     repeat match goal with H : _ \/ _ |- _ => destruct H end; discriminate.
  destruct ((secs =? 0) || (secs <? 3600)) eqn:Ei.
  { repeat split; try discriminate; intros; try congruence. }
  apply orb_false_iff in Ei. destruct Ei as [_ Ei]. apply Z.ltb_ge in Ei.
  destruct (Duration.parse_duration lookback) as [lsecs| |].
  2, 3: repeat split; try discriminate; intros; try congruence;
     repeat match goal with H : _ \/ _ |- _ => destruct H end; discriminate.
  destruct (lsecs =? 0).
  { repeat split; try discriminate; intros; try congruence. }
  set (f := mkFields guild ids name kind out start (secs / 3600) lookback user).
  pose proof (add_schedule_cases t f now) as Hadd.
  destruct (add_schedule t f now) as [t' [sid|e]].
  - destruct Hadd as [Hsid [g [Hc [-> _]]]].
    destruct (StoreProofs.coerce_columns_ok f g Hc)
      as [_ [Hch [_ [Hst [Hig _]]]]].
    pose proof (StoreProofs.coerce_kind_same f g Hc Hk) as Hty.
    assert (Hg : get_schedule (mkTable (rows t ++ [new_row t g now]) sid) sid <> None).
    { unfold get_schedule. cbn [rows]. intro Hn.
      assert (Hin : In (new_row t g now) (rows t ++ [new_row t g now]))
        by (apply in_or_app; right; left; reflexivity).
      apply (find_none _ _ Hn) in Hin. cbn in Hin. rewrite Hsid, Z.eqb_refl in Hin.
      discriminate. }
    destruct (get_schedule _ sid) as [sch|]; [clear Hg|contradiction].
    unfold create_schedule_task, start_schedule_task, start_task.
    cbn [active_schedule_tasks running next_task].
    split; [intros c; discriminate|]. split; [discriminate|].
    split; [intros H; repeat destruct H as [H|H]; discriminate|].
    intros sid' E. injection E as <-. split; [exact Hsid|].
    exists (new_row t g now), (next_task ts). cbn.
    rewrite Hty, Hch, Hst, Hig. cbn.
    split; [reflexivity|]. split; [symmetry; exact Hsid|]. split; [reflexivity|].
    split; [reflexivity|]. split; [exact Hids|]. split.
    { apply Z.div_le_lower_bound; lia. }
    split; [apply (parse_start_time_range time), Et|].
    split.
    + rewrite TasksProofs.lookup_task_set, Z.eqb_refl. reflexivity.
    + apply in_or_app. right. left. reflexivity.
  - destruct Hadd as [Hrows Hcv].
    split.
    + intros c E. injection E as E. destruct (Hcv c E) as [H|H].
      * unfold valid_interval in H. cbn in H. apply Z.ltb_ge in H.
        assert (1 <= secs / 3600) by (apply Z.div_le_lower_bound; lia). lia.
      * cbn in H. congruence.
    + split; [discriminate|]. split; [|intros; discriminate].
      intros H. repeat destruct H as [H|H]; discriminate.
Qed.

(** [/schedule-summary] and [/schedule-category-summary] never get a CHECK
    violation from the database (the interval is checked to be at least an
    hour first, and the kind is a valid one); a validation reply leaves the
    table and the tasks as they were; when a schedule is created, its id is
    the next value of the sequence, the row appended to the table is active,
    of the command's kind, with a nonempty channel list, an interval of at
    least one hour and a start time within the day, and a running task is
    recorded for it. *)
Theorem create_schedule_commands (t : Table) (ts : TaskState) (now guild channel_id : Z)
    (channel_name : str) (categories : list Category) (category_name : str)
    (time interval lookback : str) (output_channel_id user_id : Z) :
  create_outcome_ok (lit "channel") t ts
    (schedule_summary t ts now guild channel_id channel_name time interval lookback
       output_channel_id user_id) /\
  create_outcome_ok (lit "category") t ts
    (schedule_category_summary t ts now guild categories category_name time interval
       lookback output_channel_id user_id).
Proof.
  split.
  - apply create_schedule_ok; [reflexivity|discriminate].
  - unfold schedule_category_summary.
    destruct (find _ categories) as [cat|].
    + destruct (cat_text_channels cat) as [|c cs].
      * repeat split; try discriminate; intros; try congruence.
      * apply create_schedule_ok; [reflexivity|discriminate].
    + repeat split; try discriminate; intros; try congruence.
Qed.

End CommandsProofs.

(** ** The channel dictionary of a category run *)
Module CategoryRunProofs.
Import PyStr Fetcher Summarizer Store Runtime.

(** The channels of [ids] that the guild has, in order. *)
Fixpoint found_channels (guild : list Channel) (ids : list Z) : list Channel :=
  match ids with
  | [] => []
  | cid :: r =>
      match get_channel guild cid with
      | Some c => c :: found_channels guild r
      | None => found_channels guild r
      end
  end.

(** The found channels whose fetch returned messages, with their name. *)
Definition nonempty_fetches (guild : list Channel) (cutoff : Z) (ids : list Z)
  : list (str * list Message) :=
  flat_map (fun c => match fetch_messages_with_threads c cutoff with
                     | Some (m :: ms) => [(ch_name c, m :: ms)]
                     | _ => []
                     end) (found_channels guild ids).

(** [d.get(k)] *)
Definition lookup_msgs (d : list (str * list Message)) (k : str) : option (list Message) :=
  option_map snd (find (fun kv => str_eqb (fst kv) k) d).

(** The value of the last pair with key [k]. *)
Fixpoint last_value (k : str) (l : list (str * list Message)) : option (list Message) :=
  match l with
  | [] => None
  | (k', v) :: r =>
      match last_value k r with
      | Some v' => Some v'
      | None => if str_eqb k' k then Some v else None
      end
  end.

Lemma str_eqb_sym (a b : str) : str_eqb a b = str_eqb b a.
Proof.
  destruct (str_eqb a b) eqn:E; symmetry.
  - apply TranscriptProofs.str_eqb_eq in E. subst. apply TranscriptProofs.str_eqb_eq.
    reflexivity.
  - destruct (str_eqb b a) eqn:E'; [|reflexivity].
    apply TranscriptProofs.str_eqb_eq in E'. subst.
    rewrite (proj2 (TranscriptProofs.str_eqb_eq a a) eq_refl) in E. discriminate.
Qed.

Lemma lookup_dict_set (d : list (str * list Message)) (k k' : str) (v : list Message) :
  lookup_msgs (dict_set d k v) k' = if str_eqb k k' then Some v else lookup_msgs d k'.
Proof.
  unfold lookup_msgs. induction d as [|[k0 v0] r IH]; simpl.
  - destruct (str_eqb k k'); reflexivity.
  - destruct (str_eqb k k0) eqn:E0; simpl.
    + apply TranscriptProofs.str_eqb_eq in E0. subst k0.
      destruct (str_eqb k k'); reflexivity.
    + destruct (str_eqb k0 k') eqn:E1; [|exact IH].
      apply TranscriptProofs.str_eqb_eq in E1. subst k'.
      rewrite E0. reflexivity.
Qed.

Lemma keys_dict_set (d : list (str * list Message)) (k : str) (v : list Message) :
  map fst (dict_set d k v) =
    if existsb (str_eqb k) (map fst d) then map fst d else map fst d ++ [k].
Proof.
  induction d as [|[k0 v0] r IH]; simpl; [reflexivity|].
  destruct (str_eqb k k0) eqn:E; simpl.
  - apply TranscriptProofs.str_eqb_eq in E. subst. reflexivity.
  - rewrite IH. destruct (existsb (str_eqb k) (map fst r)); reflexivity.
Qed.

Lemma dedup_from_ext (s1 s2 l : list str) :
  (forall u, In u s1 <-> In u s2) ->
  TranscriptProofs.dedup_from s1 l = TranscriptProofs.dedup_from s2 l.
Proof.
  revert s1 s2. induction l as [|u l IH]; intros s1 s2 H; simpl; [reflexivity|].
  destruct (existsb (str_eqb u) s1) eqn:E1, (existsb (str_eqb u) s2) eqn:E2.
  - apply IH, H.
  - apply TranscriptProofs.existsb_str_in, H in E1.
    apply (proj2 (TranscriptProofs.existsb_str_in u s2)) in E1. congruence.
  - apply TranscriptProofs.existsb_str_in, H in E2.
    apply (proj2 (TranscriptProofs.existsb_str_in u s1)) in E2. congruence.
  - f_equal. apply IH. intro x. simpl. rewrite H. tauto.
Qed.

Definition fill (acc : list (str * list Message)) (l : list (str * list Message)) :=
  fold_left (fun d kv => dict_set d (fst kv) (snd kv)) l acc.

Lemma fill_keys (l acc : list (str * list Message)) :
  map fst (fill acc l) = map fst acc ++ TranscriptProofs.dedup_from (map fst acc) (map fst l).
Proof.
  unfold fill. revert acc. induction l as [|[k v] l IH]; intro acc; simpl.
  { rewrite app_nil_r. reflexivity. }
  rewrite IH, keys_dict_set.
  destruct (existsb (str_eqb k) (map fst acc)) eqn:E; [reflexivity|].
  rewrite <- app_assoc. simpl. f_equal. f_equal. apply dedup_from_ext.
  intro u. rewrite in_app_iff. simpl. tauto.
Qed.

Lemma fill_lookup (l acc : list (str * list Message)) (k : str) :
  lookup_msgs (fill acc l) k =
    match last_value k l with Some v => Some v | None => lookup_msgs acc k end.
Proof.
  unfold fill. revert acc. induction l as [|[k0 v] l IH]; intro acc; simpl; [reflexivity|].
  rewrite IH, lookup_dict_set. cbn [fst snd].
  destruct (last_value k l); [reflexivity|].
  destruct (str_eqb k0 k); reflexivity.
Qed.

Lemma collect_gen (guild : list Channel) (cutoff : Z) (ids : list Z)
    (acc : list (str * list Message)) (tr : list event) :
  match collect_category guild cutoff ids acc tr with
  | (Some d, tr') => tr' = tr /\ d = fill acc (nonempty_fetches guild cutoff ids)
  | (None, tr') =>
      tr' = tr /\
      Exists (fun c => fetch_messages_with_threads c cutoff = None) (found_channels guild ids)
  end.
Proof.
  revert acc. induction ids as [|cid ids IH]; intro acc; simpl.
  - auto.
  - unfold nonempty_fetches. simpl.
    destruct (get_channel guild cid) as [c|]; [|apply IH].
    simpl. unfold fetch, bind, lift_option, ret, raise.
    destruct (fetch_messages_with_threads c cutoff) as [[|m ms]|] eqn:E.
    + specialize (IH acc).
      destruct (collect_category guild cutoff ids acc tr) as [[d|] tr'].
      * exact IH.
      * destruct IH as [-> IH]. split; [reflexivity|]. apply Exists_cons_tl, IH.
    + specialize (IH (dict_set acc (ch_name c) (m :: ms))).
      destruct (collect_category guild cutoff ids _ tr) as [[d|] tr'].
      * exact IH.
      * destruct IH as [-> IH]. split; [reflexivity|]. apply Exists_cons_tl, IH.
    + split; [reflexivity|]. apply Exists_cons_hd. exact E.
Qed.

(** The dictionary [run_category_summary] hands to the sectioned summary:
    when every found channel's fetch succeeds, it has one entry per
    distinct channel name among the channels whose fetch returned
    messages, in order of first appearance, and the entry of a name holds
    the messages of the last such channel with that name, so the messages
    of an earlier channel with the same name are not summarized; when a
    fetch raises, the run raises there.  Collecting sends nothing. *)
Theorem run_category_summary_channel_messages (guild : list Channel) (cutoff : Z)
    (ids : list Z) (tr : list event) :
  let fetched := nonempty_fetches guild cutoff ids in
  match collect_category guild cutoff ids [] tr with
  | (Some d, tr') =>
      tr' = tr /\
      map fst d = TranscriptProofs.dedup_from [] (map fst fetched) /\
      NoDup (map fst d) /\
      (forall k, lookup_msgs d k = last_value k fetched)
  | (None, tr') =>
      tr' = tr /\
      Exists (fun c => fetch_messages_with_threads c cutoff = None) (found_channels guild ids)
  end.
Proof.
  intro fetched. pose proof (collect_gen guild cutoff ids [] tr) as H.
  destruct (collect_category guild cutoff ids [] tr) as [[d|] tr']; [|exact H].
  destruct H as [-> ->]. split; [reflexivity|].
  rewrite fill_keys. simpl. split; [reflexivity|]. split.
  - apply TranscriptProofs.dedup_from_spec.
  - intro k. rewrite fill_lookup. unfold fetched.
    destruct (last_value k (nonempty_fetches guild cutoff ids)); reflexivity.
Qed.

End CategoryRunProofs.

(** ** The thread title *)
Module TitleProofs.
Import PyStr Fetcher Summarizer Title.

(** [get_title] consults the model whatever the transcript (also an empty
    one); its result is empty exactly when the model's answer is falsy, it
    has at most 103 characters, and an answer longer than 100 characters
    becomes its first 100 characters followed by "...", 103 characters in
    all, so the title [on_message] renames the thread with can be longer
    than 100 characters. *)
Theorem get_title_bounds (generate_title : list content_item -> option str)
    (build : list Message -> list content_item) (messages : list Message) :
  (get_title generate_title build messages = [] <->
     truthy (generate_title (build messages)) = None) /\
  (length (get_title generate_title build messages) <= 103)%nat /\
  (forall answer, generate_title (build messages) = Some answer ->
     (100 < length answer)%nat ->
     get_title generate_title build messages = firstn 100 answer ++ lit "..." /\
     length (get_title generate_title build messages) = 103%nat).
Proof.
  unfold get_title.
  destruct (generate_title (build messages)) as [[|c cs]|] eqn:E; cbn [truthy].
  - split; [tauto|]. split; [simpl; lia|]. intros a Ha. inversion Ha; subst. simpl. lia.
  - destruct (100 <? length (c :: cs))%nat eqn:L.
    + apply Nat.ltb_lt in L.
      assert (Hl : length (firstn 100 (c :: cs) ++ lit "...") = 103%nat).
      { rewrite length_app, length_firstn, Nat.min_l by lia. reflexivity. }
      split; [split; [intro H; rewrite H in Hl; discriminate|discriminate]|].
      split; [rewrite Hl; lia|].
      intros a Ha _. inversion Ha; subst. split; [reflexivity|exact Hl].
    + apply Nat.ltb_ge in L.
      split; [split; discriminate|]. split; [lia|].
      intros a Ha Hlt. inversion Ha; subst. lia.
  - split; [tauto|]. split; [simpl; lia|]. intros a Ha. discriminate.
Qed.

End TitleProofs.
